(** * voice_meter: the speech-metrics analysis engine

    A shallow embedding of [backend/app/services/speech_analysis_service.py]
    and of the helpers of [backend/app/utils/metrics.py] and
    [backend/app/utils/text.py], with the properties the specification
    states about them and further properties read off the code.

    Modelling conventions.
    - A Python [float] is an exact rational ([Q]); equality of floats is
      [Qeq] ([==]).  [round(x, n)] is rounding to [n] decimals, ties to even.
    - A Python [str] is its list of Unicode code points ([list N]).  The
      tables of the interpreter (case mapping, [str.isalnum], [str.isspace])
      are written out for Basic Latin and Latin-1 Supplement; for the code
      points beyond them they are a parameter ([unicode_db]).
    - An operation that can raise (true division, [max] of an empty list)
      returns a [result]; a function that never raises is one that always
      returns [Ok].
    - What the sources import but do not define is a parameter: the
      constants of [app.common.constants] (the WPM bounds, [STOPWORDS]),
      [unicodedata.normalize] and [difflib]'s ratio.  Counts and lengths
      are natural numbers. *)

From Stdlib Require Import QArith Qround Lqa ZArith List String Ascii Bool Lia.
From Stdlib Require Import Sorted Permutation.
From stdpp Require Import gmap strings.
Import ListNotations.

Open Scope Q_scope.

(* ===================================================================== *)
(** * Numbers *)
(* ===================================================================== *)

Module Num.

(** [a < b] on floats, as a boolean. *)
Definition Qltb (a b : Q) : bool := negb (Qle_bool b a).
Definition Qleb (a b : Q) : bool := Qle_bool a b.

(** [int] to [float]. *)
Definition Qnat (n : nat) : Q := inject_Z (Z.of_nat n).

(** Python's [max(a, b)]: the first argument unless the second is
    strictly greater; [min(a, b)]: the first unless the second is
    strictly smaller. *)
Definition pymax (a b : Q) : Q := if Qltb a b then b else a.
Definition pymin (a b : Q) : Q := if Qltb b a then b else a.

(** Nearest integer, ties to the even one. *)
Definition round_half_even (x : Q) : Z :=
  let f := Qfloor x in
  match Qcompare (x - inject_Z f) (1 # 2) with
  | Lt => f
  | Gt => (f + 1)%Z
  | Eq => if Z.even f then f else (f + 1)%Z
  end.

Definition pow10 (n : nat) : Q := inject_Z (10 ^ Z.of_nat n).

(** [round(x, ndigits)]. *)
Definition py_round (x : Q) (ndigits : nat) : Q :=
  inject_Z (round_half_even (x * pow10 ndigits)) / pow10 ndigits.

(** [sum(xs)]: accumulation from [0], left to right. *)
Definition pysum (xs : list Q) : Q := fold_left Qplus xs 0.

End Num.
Export Num.

(* ===================================================================== *)
(** * Exceptions *)
(* ===================================================================== *)

Inductive exn : Type := ZeroDivisionError | ValueError.

Inductive result (A : Type) : Type :=
| Ok (a : A)
| Raise (e : exn).
Arguments Ok {A} a.
Arguments Raise {A} e.

Global Instance result_ret : MRet result := fun A a => Ok a.
Global Instance result_bind : MBind result := fun A B f m =>
  match m with
  | Ok a => f a
  | Raise e => Raise e
  end.

(** [a / b] on numbers. *)
Definition truediv (a b : Q) : result Q :=
  if Qeq_bool b 0 then Raise ZeroDivisionError else Ok (a / b).

(** [max(xs)] on a list. *)
Definition pymax_list (xs : list Q) : result Q :=
  match xs with
  | [] => Raise ValueError
  | x :: rest => Ok (fold_left pymax rest x)
  end.

(* ===================================================================== *)
(** * Text *)
(* ===================================================================== *)

Module Text.

(** A string is the list of its code points. *)
Abbreviation str := (list N).

(** The literals of the source are UTF-8 text; [u8] decodes one. *)
Fixpoint utf8_decode (pending : nat) (acc : N) (s : string) : str :=
  match s with
  | EmptyString => []
  | String a rest =>
      let b := N_of_ascii a in
      match pending with
      | O =>
          if (b <? 128)%N then b :: utf8_decode 0 0 rest
          else if (b <? 224)%N then utf8_decode 1 (b - 192) rest
          else if (b <? 240)%N then utf8_decode 2 (b - 224) rest
          else utf8_decode 3 (b - 240) rest
      | S O => (acc * 64 + (b - 128))%N :: utf8_decode 0 0 rest
      | S p => utf8_decode p (acc * 64 + (b - 128)) rest
      end
  end.

Definition u8 (s : string) : str := utf8_decode 0 0 s.

Definition str_eqb (a b : str) : bool := bool_decide (a = b).
Definition mem (c : N) (s : str) : bool := existsb (N.eqb c) s.
Definition between (lo hi c : N) : bool := ((lo <=? c) && (c <=? hi))%N.

(** The interpreter's tables beyond U+00FF. *)
Record unicode_db : Type := {
  uc_lower : N -> str;     (* str.lower of one character *)
  uc_alnum : N -> bool;    (* str.isalnum *)
  uc_space : N -> bool     (* str.isspace *)
}.

(** A database with nothing beyond Latin-1: caseless separators. *)
Definition latin1_db : unicode_db :=
  {| uc_lower := fun c => [c];
     uc_alnum := fun _ => false;
     uc_space := fun _ => false |}.

Section Tables.
Variable U : unicode_db.

(** [str.lower]: A-Z, À-Ö and Ø-Þ move by 32; the rest of Latin-1 is
    unchanged. *)
Definition lower_cp (c : N) : str :=
  if between 65 90 c || between 192 214 c || between 216 222 c
  then [(c + 32)%N]
  else if (c <? 256)%N then [c] else uc_lower U c.

Definition lower (s : str) : str := flat_map lower_cp s.

(** [str.isalnum] on Latin-1: digits, letters, ª ² ³ µ ¹ º ¼ ½ ¾. *)
Definition latin1_alnum (c : N) : bool :=
  between 48 57 c || between 65 90 c || between 97 122 c
  || mem c [170; 178; 179; 181; 185; 186; 188; 189; 190]%N
  || between 192 214 c || between 216 246 c || between 248 255 c.

(** The regular expression class [\w] on [str] patterns. *)
Definition is_word (c : N) : bool :=
  (c =? 95)%N || (if (c <? 256)%N then latin1_alnum c else uc_alnum U c).

(** [str.isspace] on Latin-1. *)
Definition is_space (c : N) : bool :=
  if (c <? 256)%N
  then between 9 13 c || between 28 32 c || (c =? 133)%N || (c =? 160)%N
  else uc_space U c.

(** [s.strip()] and [s.split()] on whitespace. *)
Fixpoint lstrip (s : str) : str :=
  match s with
  | c :: rest => if is_space c then lstrip rest else s
  | [] => []
  end.

Definition strip (s : str) : str := rev (lstrip (rev (lstrip s))).

Fixpoint split_acc (cur : str) (s : str) : list str :=
  match s with
  | [] => match cur with [] => [] | _ => [rev cur] end
  | c :: rest =>
      if is_space c
      then match cur with
           | [] => split_acc [] rest
           | _ => rev cur :: split_acc [] rest
           end
      else split_acc (c :: cur) rest
  end.

Definition split (s : str) : list str := split_acc [] s.

(** [re.split(r'[.!?]', text)]: the pieces between the delimiters,
    empty ones included. *)
Fixpoint resplit_acc (delims : str) (cur : str) (s : str) : list str :=
  match s with
  | [] => [rev cur]
  | c :: rest =>
      if mem c delims
      then rev cur :: resplit_acc delims [] rest
      else resplit_acc delims (c :: cur) rest
  end.

Definition resplit (delims : str) (s : str) : list str :=
  resplit_acc delims [] s.

(** [word.endswith(suffix)]. *)
Definition endswith (w suffix : str) : bool :=
  str_eqb (skipn (length w - length suffix) w) suffix
  && (length suffix <=? length w)%nat.

(** ** The pattern [\b[class]+\b] under [re.findall]

    [\b] holds at a position when exactly one of the two neighbouring
    characters is a word character; outside the string counts as a
    non-word character. *)
Definition opt_word (c : option N) : bool :=
  match c with Some c => is_word c | None => false end.

Definition boundary (prev next : option N) : bool :=
  xorb (opt_word prev) (opt_word next).

(** The greedy [[class]+]: the longest run of class characters. *)
Fixpoint span (p : N -> bool) (s : str) : str * str :=
  match s with
  | c :: rest =>
      if p c then let (run, tl) := span p rest in (c :: run, tl)
      else ([], s)
  | [] => ([], [])
  end.

(** Backtracking over the end of the run: the longest candidate first,
    then the shorter ones, down to one character; a candidate is taken
    when [\b] holds after it. *)
Fixpoint backtrack (k : nat) (run tl : str) : option str :=
  match k with
  | O => None
  | S k' =>
      let m := take k run in
      let after := drop k run ++ tl in
      if boundary (last m) (head after) then Some m
      else backtrack k' run tl
  end.

(** One attempt of the pattern at a position: [prev] is the character
    before it, [s] the text from it on. *)
Definition match_at (class : N -> bool) (prev : option N) (s : str)
  : option str :=
  if boundary prev (head s)
  then let (run, tl) := span class s in backtrack (length run) run tl
  else None.

(** [re.findall]: the scan tries every position from left to right and
    resumes after a match ([skip] counts the characters of the match
    still to be stepped over). *)
Fixpoint findall_from (class : N -> bool) (prev : option N) (skip : nat)
  (s : str) : list str :=
  match s with
  | [] => []
  | c :: rest =>
      match skip with
      | S k => findall_from class (Some c) k rest
      | O =>
          match match_at class prev s with
          | Some m => m :: findall_from class (Some c) (length m - 1) rest
          | None => findall_from class (Some c) 0 rest
          end
      end
  end.

Definition findall_words (class : N -> bool) (s : str) : list str :=
  findall_from class None 0 s.

(** The maximal runs of word characters of a text, in order: the tokens
    against which the result of [re.findall] is stated. *)
Fixpoint word_runs_acc (cur : str) (s : str) : list str :=
  match s with
  | [] => match cur with [] => [] | _ => [rev cur] end
  | c :: rest =>
      if is_word c then word_runs_acc (c :: cur) rest
      else match cur with
           | [] => word_runs_acc [] rest
           | _ => rev cur :: word_runs_acc [] rest
           end
  end.

Definition word_runs (s : str) : list str := word_runs_acc [] s.
End Tables.
End Text.
Export Text.

(* ===================================================================== *)
(** * services/speech_analysis_service.py *)
(* ===================================================================== *)

Module SpeechAnalysisService.

(** ** Language tables *)

Definition words_of (l : list string) : gset str := list_to_set (map u8 l).

Definition PORTUGUESE_VOWELS : str := u8 "aeiouáéíóúàèìòùâêîôûãõäëïöü".

Definition PORTUGUESE_FILLERS : gset str := words_of
  [ "é"; "hum"; "uhm"; "ah"; "eh"; "ahn"; "então"; "tipo";
    "né"; "sabe"; "entende"; "assim"; "bom"; "bem"; "olha";
    "veja"; "pois"; "enfim"; "basicamente"; "literalmente" ]%string.

Definition PORTUGUESE_FUNCTION_WORDS : gset str := words_of
  [ "o"; "a"; "os"; "as"; "um"; "uma"; "uns"; "umas";
    "de"; "da"; "do"; "das"; "dos"; "em"; "na"; "no"; "nas"; "nos";
    "por"; "para"; "com"; "sem"; "sob"; "sobre";
    "e"; "ou"; "mas"; "porém"; "contudo"; "todavia";
    "que"; "qual"; "quais"; "quem"; "onde"; "quando"; "como";
    "eu"; "tu"; "ele"; "ela"; "nós"; "vós"; "eles"; "elas";
    "me"; "te"; "se"; "nos"; "vos"; "lhe"; "lhes";
    "meu"; "minha"; "teu"; "tua"; "seu"; "sua"; "nosso"; "nossa";
    "este"; "esta"; "esse"; "essa"; "aquele"; "aquela";
    "isto"; "isso"; "aquilo"; "ser"; "estar"; "ter"; "haver";
    "é"; "são"; "foi"; "foram"; "será"; "seria" ]%string.

Definition PORTUGUESE_COMPLEX_SUFFIXES : list str := map u8
  [ "mente"; "ção"; "ções"; "dade"; "ismo"; "ista";
    "ível"; "ável"; "ência"; "ância"; "mento"; "tivo" ]%string.

Definition ENGLISH_VOWELS : str := u8 "aeiouy".

Definition ENGLISH_FILLERS : gset str := words_of
  [ "um"; "uh"; "uhm"; "er"; "ah"; "like"; "you know"; "basically";
    "literally"; "actually"; "honestly"; "right"; "okay"; "so";
    "well"; "i mean"; "kind of"; "sort of"; "anyway"; "whatever" ]%string.

Definition ENGLISH_FUNCTION_WORDS : gset str := words_of
  [ "the"; "a"; "an"; "this"; "that"; "these"; "those";
    "i"; "you"; "he"; "she"; "it"; "we"; "they"; "me"; "him"; "her"; "us"; "them";
    "my"; "your"; "his"; "her"; "its"; "our"; "their";
    "mine"; "yours"; "hers"; "ours"; "theirs";
    "is"; "am"; "are"; "was"; "were"; "be"; "been"; "being";
    "have"; "has"; "had"; "do"; "does"; "did";
    "will"; "would"; "shall"; "should"; "can"; "could"; "may"; "might"; "must";
    "and"; "or"; "but"; "if"; "because"; "as"; "until"; "while";
    "of"; "at"; "by"; "for"; "with"; "about"; "against"; "between"; "into";
    "through"; "during"; "before"; "after"; "above"; "below"; "to"; "from";
    "up"; "down"; "in"; "out"; "on"; "off"; "over"; "under";
    "who"; "whom"; "which"; "what"; "where"; "when"; "why"; "how";
    "all"; "each"; "every"; "both"; "few"; "more"; "most"; "other"; "some"; "such";
    "no"; "nor"; "not"; "only"; "own"; "same"; "so"; "than"; "too"; "very";
    "just"; "also"; "now"; "here"; "there"; "then" ]%string.

Definition ENGLISH_COMPLEX_SUFFIXES : list str := map u8
  [ "tion"; "sion"; "ness"; "ment"; "able"; "ible"; "ful"; "less";
    "ous"; "ive"; "ity"; "ism"; "ist"; "ology"; "ical"; "ally" ]%string.

Definition PORTUGUESE_MARKERS : gset str := words_of
  [ "que"; "não"; "uma"; "para"; "com"; "está"; "isso"; "mais";
    "como"; "mas"; "por"; "muito"; "também"; "foi"; "são"; "tem";
    "seu"; "sua"; "ele"; "ela"; "você"; "nós"; "eles"; "nosso";
    "esse"; "essa"; "aqui"; "onde"; "quando"; "porque"; "então";
    "até"; "depois"; "agora"; "sempre"; "ainda"; "apenas"; "sobre";
    "já"; "fazer"; "pode"; "deve"; "vai"; "vou"; "estou"; "tinha";
    "seria"; "podemos"; "temos"; "precisamos"; "conseguimos" ]%string.

Definition ENGLISH_MARKERS : gset str := words_of
  [ "the"; "and"; "that"; "have"; "for"; "not"; "with"; "you";
    "this"; "but"; "his"; "from"; "they"; "were"; "been"; "have";
    "their"; "would"; "there"; "what"; "about"; "which"; "when";
    "make"; "can"; "will"; "more"; "these"; "want"; "way"; "could";
    "people"; "than"; "first"; "been"; "who"; "its"; "now"; "find";
    "because"; "should"; "think"; "know"; "going"; "need"; "really" ]%string.

Definition COMPLEX_WORD_MIN_LENGTH : nat := 10.

(** ** Data classes *)

Record SpeechRateMetrics : Type := {
  speaking_rate_spm : Q;
  articulation_rate_spm : Q;
  words_per_minute : Q;
  total_duration_seconds : Q;
  speech_duration_seconds : Q;
  pause_duration_seconds : Q;
  classification : string
}.

Record PauseMetrics : Type := {
  total_pauses : nat;
  total_pause_duration : Q;
  average_pause_duration : Q;
  longest_pause : Q;
  pauses_per_minute : Q;
  pause_ratio : Q
}.

Record VocabularyMetrics : Type := {
  total_words : nat;
  unique_words : nat;
  vocabulary_richness : Q;
  average_word_length : Q;
  complex_words_count : nat;
  complex_words_ratio : Q;
  filler_words_count : nat;
  filler_words_ratio : Q;
  lexical_density : Q
}.

Record FluencyMetrics : Type := {
  fluency_score : Q;
  hesitation_rate : Q;
  repetition_count : nat;
  self_corrections_count : nat;
  incomplete_sentences : nat
}.

Record LanguageDetection : Type := {
  detected_language : string;
  confidence : Q;
  portuguese_score : Q;
  english_score : Q
}.

(** A segment is a [dict]; the code reads it with [.get(key, 0)]. *)
Abbreviation segment := (gmap string Q).

Definition get0 (s : segment) (key : string) : Q := default 0 (s !! key).

(** ** Class constants *)

Record rate_thresholds : Type := { slow : Q; fast : Q }.
Record ideal_rate : Type := { rate_min : Q; rate_max : Q }.

Definition SPEECH_RATE_THRESHOLDS : gmap string rate_thresholds :=
  {[ "pt-BR"%string := {| slow := 180; fast := 250 |};
     "en-US"%string := {| slow := 200; fast := 280 |} ]}.

Definition IDEAL_SPEAKING_RATE : gmap string ideal_rate :=
  {[ "pt-BR"%string := {| rate_min := 140; rate_max := 170 |};
     "en-US"%string := {| rate_min := 150; rate_max := 180 |} ]}.

Definition MIN_PAUSE_DURATION : Q := 0.25.
Definition LONG_PAUSE_THRESHOLD : Q := 2.0.

(** ** Feedback lines

    Every line of feedback is one literal (or one f-string) of the
    source, in English or in Portuguese; a constructor stands for the
    template and carries the values the f-string formats. *)

Inductive locale : Type := English | Portuguese.

Inductive message : Type :=
| MsgLanguage (confidence : Q)
| MsgPaceFast | MsgPaceSlow | MsgPaceOk
| MsgRateBelow (wpm : Q) (ideal : ideal_rate)
| MsgRateAbove (wpm : Q) (ideal : ideal_rate)
| MsgRateIdeal (wpm : Q)
| MsgManyPauses | MsgFewPauses
| MsgLongPause (longest : Q)
| MsgRepetitiveVocabulary | MsgVariedVocabulary
| MsgFillers (count : nat)
| MsgComplexVocabulary
| MsgFluencyExcellent | MsgFluencyGood | MsgFluencyPoor
| MsgRepetitions (count : nat)
| MsgSelfCorrections (count : nat).

Inductive advice : Type :=
| AdvSlowDown | AdvSpeedUp
| AdvReducePauses | AdvStrategicPauses
| AdvSynonyms | AdvReduceFillers
| AdvAvoidRepeating | AdvPractice.

(** The two lists the function appends to. *)
Definition out : Type := list (locale * message) * list (locale * advice).

Definition say (l : locale) (m : message) (st : out) : out :=
  (st.1 ++ [(l, m)], st.2).
Definition recommend (l : locale) (a : advice) (st : out) : out :=
  (st.1, st.2 ++ [(l, a)]).

Record ComprehensiveSpeechAnalysis : Type := {
  language : LanguageDetection;
  speech_rate : SpeechRateMetrics;
  pauses : PauseMetrics;
  vocabulary : VocabularyMetrics;
  fluency : FluencyMetrics;
  overall_score : Q;
  feedback : list (locale * message);
  recommendations : list (locale * advice)
}.

Section Methods.
(** The interpreter's Unicode tables and [difflib]'s
    [SequenceMatcher(None, a, b).ratio()]. *)
Variable U : unicode_db.
Variable sequence_ratio : str -> str -> Q.

(** *** _extract_words *)

(** The class [[a-záéíóúàèìòùâêîôûãõäëïöüç]]. *)
Definition ACCENTED_LETTERS : str :=
  Eval vm_compute in u8 "áéíóúàèìòùâêîôûãõäëïöüç".

Definition word_class (c : N) : bool :=
  between 97 122 c || mem c ACCENTED_LETTERS.

Definition _extract_words (text : str) : list str :=
  let text := lower U text in
  findall_words U word_class text.

(** *** detect_language *)

Definition language_scores (text : str) : result (Q * Q) :=
  let words_set : gset str := list_to_set (_extract_words text) in
  let pt_matches := size (words_set ∩ PORTUGUESE_MARKERS) in
  let en_matches := size (words_set ∩ ENGLISH_MARKERS) in
  let pt_chars :=
    length (List.filter (fun c => mem c (u8 "áéíóúàâêôãõç")) (lower U text)) in
  density ← truediv (Qnat pt_chars) (Qnat (Nat.max (length text) 1));
  let pt_char_bonus := pymin (density * 100) 5 in
  pt_hit ← truediv (Qnat pt_matches) (Qnat (size PORTUGUESE_MARKERS));
  let pt_score := pt_hit * 100 + pt_char_bonus in
  en_hit ← truediv (Qnat en_matches) (Qnat (size ENGLISH_MARKERS));
  let en_score := en_hit * 100 in
  mret (pt_score, en_score).

Definition detect_language (text : str) : result LanguageDetection :=
  let words := _extract_words text in
  let total_words := length words in
  if (total_words =? 0)%nat then
    mret {| detected_language := "unknown"; confidence := 0.0;
            portuguese_score := 0.0; english_score := 0.0 |}
  else
    scores ← language_scores text;
    let pt_score := scores.1 in
    let en_score := scores.2 in
    decision ←
      (if Qltb en_score pt_score && Qltb 5 pt_score then
         c ← truediv pt_score (pt_score + en_score + 0.1);
         mret ("pt-BR"%string, pymin c 0.99)
       else if Qltb pt_score en_score && Qltb 5 en_score then
         c ← truediv en_score (pt_score + en_score + 0.1);
         mret ("en-US"%string, pymin c 0.99)
       else
         mret ("pt-BR"%string, 0.5));
    mret {| detected_language := decision.1;
            confidence := py_round decision.2 2;
            portuguese_score := py_round pt_score 2;
            english_score := py_round en_score 2 |}.

(** *** Syllables *)

Fixpoint pt_loop (syllables : nat) (prev_is_vowel : bool) (word : str) : nat :=
  match word with
  | [] => syllables
  | char :: rest =>
      let is_vowel := mem char PORTUGUESE_VOWELS in
      let syllables :=
        if is_vowel && negb prev_is_vowel then S syllables else syllables in
      pt_loop syllables is_vowel rest
  end.

Definition _count_syllables_portuguese (word : str) : nat :=
  Nat.max 1 (pt_loop 0 false word).

(** The loop of the English counter; the last character is the one
    with nothing after it. *)
Fixpoint en_loop (syllables : nat) (prev_is_vowel : bool) (word : str) : nat :=
  match word with
  | [] => syllables
  | char :: rest =>
      let is_vowel := mem char ENGLISH_VOWELS in
      if (char =? 101)%N && bool_decide (rest = []) && (0 <? syllables)%nat
      then en_loop syllables prev_is_vowel rest
      else
        let syllables :=
          if is_vowel && negb prev_is_vowel then S syllables else syllables in
        en_loop syllables is_vowel rest
  end.

Definition _count_syllables_english (word : str) : nat :=
  let word := lower U word in
  let syllables := en_loop 0 false word in
  let syllables :=
    if endswith word (u8 "le") && (2 <? length word)%nat
       && match word !! (length word - 3)%nat with
          | Some c => negb (mem c ENGLISH_VOWELS)
          | None => false
          end
    then S syllables else syllables in
  Nat.max 1 syllables.

Definition count_syllables (word : str) (language : string) : nat :=
  let word := strip U (lower U word) in
  match word with
  | [] => 0%nat
  | _ =>
      let word := List.filter (is_word U) word in
      match word with
      | [] => 0%nat
      | _ =>
          if String.eqb language "en-US"
          then _count_syllables_english word
          else _count_syllables_portuguese word
      end
  end.

Definition count_syllables_text (text : str) (language : string) : nat :=
  let words := _extract_words text in
  list_sum (map (fun word => count_syllables word language) words).

(** *** Segment gaps

    [segments[i].get('start', 0) - segments[i-1].get('end', 0)] for
    [i] from 1, under the guard [segments and len(segments) > 1]. *)
Fixpoint gaps (segments : list segment) : list Q :=
  match segments with
  | prev :: (cur :: _) as rest =>
      (get0 cur "start" - get0 prev "end") :: gaps rest
  | _ => []
  end.

Definition segment_gaps (segments : option (list segment)) : list Q :=
  match segments with
  | Some l => if (1 <? length l)%nat then gaps l else []
  | None => []
  end.

(** *** analyze_speech_rate *)

Definition analyze_speech_rate (text : str) (total_duration : Q)
  (language : string) (segments : option (list segment))
  : result SpeechRateMetrics :=
  let words := _extract_words text in
  let total_syllables := count_syllables_text text language in
  let total_words := length words in
  let total_duration :=
    if Qleb total_duration 0 then 1.0 else total_duration in
  let pause_duration :=
    fold_left (fun pause_duration gap =>
                 if Qleb MIN_PAUSE_DURATION gap
                 then pause_duration + gap else pause_duration)
              (segment_gaps segments) 0.0 in
  let speech_duration := pymax 0.1 (total_duration - pause_duration) in
  sr ← truediv (Qnat total_syllables) total_duration;
  let speaking_rate_spm := sr * 60 in
  ar ← truediv (Qnat total_syllables) speech_duration;
  let articulation_rate_spm := ar * 60 in
  wr ← truediv (Qnat total_words) total_duration;
  let words_per_minute := wr * 60 in
  let thresholds :=
    default {| slow := 180; fast := 250 |}
            (SPEECH_RATE_THRESHOLDS !! language) in
  let classification :=
    if Qltb articulation_rate_spm (slow thresholds) then "slow"%string
    else if Qltb (fast thresholds) articulation_rate_spm then "fast"%string
    else "medium"%string in
  mret {| speaking_rate_spm := py_round speaking_rate_spm 1;
          articulation_rate_spm := py_round articulation_rate_spm 1;
          words_per_minute := py_round words_per_minute 1;
          total_duration_seconds := py_round total_duration 2;
          speech_duration_seconds := py_round speech_duration 2;
          pause_duration_seconds := py_round pause_duration 2;
          classification := classification |}.

(** *** analyze_pauses *)

(** The list [pauses] the loop builds. *)
Definition counted_pauses (segments : option (list segment)) : list Q :=
  List.filter (fun gap => Qleb MIN_PAUSE_DURATION gap) (segment_gaps segments).

Definition analyze_pauses (total_duration : Q)
  (segments : option (list segment)) : result PauseMetrics :=
  let pauses := counted_pauses segments in
  let total_pauses := length pauses in
  let total_pause_duration := pysum pauses in
  stats ←
    (if (0 <? total_pauses)%nat then
       average_pause ← truediv total_pause_duration (Qnat total_pauses);
       longest_pause ← pymax_list pauses;
       mret (average_pause, longest_pause)
     else mret (0.0, 0.0));
  rates ←
    (if Qltb 0 total_duration then
       ppm ← truediv (Qnat total_pauses) total_duration;
       pause_ratio ← truediv total_pause_duration total_duration;
       mret (ppm * 60, pause_ratio)
     else mret (0.0, 0.0));
  mret {| total_pauses := total_pauses;
          total_pause_duration := py_round total_pause_duration 2;
          average_pause_duration := py_round stats.1 2;
          longest_pause := py_round stats.2 2;
          pauses_per_minute := py_round rates.1 1;
          pause_ratio := py_round rates.2 3 |}.

(** *** analyze_vocabulary *)

Definition count_if {A : Type} (p : A -> bool) (l : list A) : nat :=
  length (List.filter p l).

Definition analyze_vocabulary (text : str) (language : string)
  : result VocabularyMetrics :=
  let words := _extract_words text in
  let total_words := length words in
  if (total_words =? 0)%nat then
    mret {| total_words := 0; unique_words := 0;
            vocabulary_richness := 0.0; average_word_length := 0.0;
            complex_words_count := 0; complex_words_ratio := 0.0;
            filler_words_count := 0; filler_words_ratio := 0.0;
            lexical_density := 0.0 |}
  else
    let unique_words := size (list_to_set words : gset str) in
    vocabulary_richness ← truediv (Qnat unique_words) (Qnat total_words);
    let total_length := list_sum (map (fun word => length word) words) in
    average_word_length ← truediv (Qnat total_length) (Qnat total_words);
    let settings :=
      if String.eqb language "en-US"
      then (ENGLISH_FILLERS, ENGLISH_FUNCTION_WORDS, ENGLISH_COMPLEX_SUFFIXES)
      else (PORTUGUESE_FILLERS, PORTUGUESE_FUNCTION_WORDS,
            PORTUGUESE_COMPLEX_SUFFIXES) in
    let filler_words := settings.1.1 in
    let function_words := settings.1.2 in
    let complex_suffixes := settings.2 in
    let is_complex (word : str) :=
      (COMPLEX_WORD_MIN_LENGTH <=? length word)%nat
      || existsb (fun suffix => endswith word suffix) complex_suffixes in
    let complex_words := List.filter is_complex words in
    let complex_words_count := length complex_words in
    complex_words_ratio ←
      truediv (Qnat complex_words_count) (Qnat total_words);
    let filler_count :=
      count_if (fun word => bool_decide (word ∈ filler_words)) words in
    filler_ratio ← truediv (Qnat filler_count) (Qnat total_words);
    let content_words :=
      count_if (fun word => bool_decide (word ∉ function_words)) words in
    lexical_density ← truediv (Qnat content_words) (Qnat total_words);
    mret {| total_words := total_words;
            unique_words := unique_words;
            vocabulary_richness := py_round vocabulary_richness 3;
            average_word_length := py_round average_word_length 2;
            complex_words_count := complex_words_count;
            complex_words_ratio := py_round complex_words_ratio 3;
            filler_words_count := filler_count;
            filler_words_ratio := py_round filler_ratio 3;
            lexical_density := py_round lexical_density 3 |}.

(** *** analyze_fluency *)

(** A count over the pairs [(words[i-1], words[i])], [i] from 1. *)
Fixpoint count_adjacent (p : str -> str -> bool) (words : list str) : nat :=
  match words with
  | prev :: (cur :: _) as rest =>
      ((if p prev cur then 1 else 0) + count_adjacent p rest)%nat
  | _ => 0%nat
  end.

Definition is_repetition (prev cur : str) : bool := str_eqb cur prev.

Definition is_self_correction (prev cur : str) : bool :=
  negb (str_eqb cur prev)
  && (let ratio := sequence_ratio prev cur in
      Qltb 0.5 ratio && Qltb ratio 0.9).

Definition is_incomplete (s : str) : bool :=
  (length (split U (strip U s)) <? 3)%nat && (0 <? length (strip U s))%nat.

Definition raw_hesitation_rate (total_duration : Q)
  (segments : option (list segment)) : result Q :=
  let hesitations :=
    count_if (fun gap => Qleb LONG_PAUSE_THRESHOLD gap) (segment_gaps segments) in
  if Qltb 0 total_duration then
    h ← truediv (Qnat hesitations) total_duration;
    mret (h * 60)
  else mret 0.0.

Definition analyze_fluency (text : str) (total_duration : Q)
  (segments : option (list segment)) : result FluencyMetrics :=
  let words := _extract_words text in
  let repetitions := count_adjacent is_repetition words in
  let self_corrections := count_adjacent is_self_correction words in
  let sentences := resplit (u8 ".!?") text in
  let incomplete := count_if is_incomplete sentences in
  hesitation_rate ← raw_hesitation_rate total_duration segments;
  let base_score := 100 in
  penalty ←
    (if (0 <? length words)%nat then
       r ← truediv (Qnat repetitions) (Qnat (length words));
       c ← truediv (Qnat self_corrections) (Qnat (length words));
       mret (0 + r * 20 + c * 15 + hesitation_rate * 5 + Qnat incomplete * 3)
     else mret 0);
  let fluency_score := pymax 0 (pymin 100 (base_score - penalty)) in
  mret {| fluency_score := py_round fluency_score 1;
          hesitation_rate := py_round hesitation_rate 2;
          repetition_count := repetitions;
          self_corrections_count := self_corrections;
          incomplete_sentences := incomplete |}.

(** *** generate_feedback

    The English and the Portuguese branch run the same tests in the
    same order and differ in the text of the lines only. *)

Definition feedback_pace (loc : locale) (sr : SpeechRateMetrics) (st : out) : out :=
  if String.eqb (classification sr) "fast" then
    recommend loc AdvSlowDown (say loc MsgPaceFast st)
  else if String.eqb (classification sr) "slow" then
    recommend loc AdvSpeedUp (say loc MsgPaceSlow st)
  else say loc MsgPaceOk st.

Definition feedback_wpm (loc : locale) (ideal : ideal_rate)
  (sr : SpeechRateMetrics) (st : out) : out :=
  let wpm := words_per_minute sr in
  if Qltb wpm (rate_min ideal) then say loc (MsgRateBelow wpm ideal) st
  else if Qltb (rate_max ideal) wpm then say loc (MsgRateAbove wpm ideal) st
  else say loc (MsgRateIdeal wpm) st.

Definition feedback_pauses (loc : locale) (sr : SpeechRateMetrics)
  (p : PauseMetrics) (st : out) : out :=
  let st :=
    if Qltb 0.3 (pause_ratio p) then
      recommend loc AdvReducePauses (say loc MsgManyPauses st)
    else if Qltb (pause_ratio p) 0.1 && Qltb 10 (total_duration_seconds sr) then
      recommend loc AdvStrategicPauses (say loc MsgFewPauses st)
    else st in
  if Qltb 3.0 (longest_pause p) then say loc (MsgLongPause (longest_pause p)) st
  else st.

Definition feedback_vocabulary (loc : locale) (v : VocabularyMetrics)
  (st : out) : out :=
  let st :=
    if Qltb (vocabulary_richness v) 0.4 then
      recommend loc AdvSynonyms (say loc MsgRepetitiveVocabulary st)
    else if Qltb 0.7 (vocabulary_richness v) then
      say loc MsgVariedVocabulary st
    else st in
  let st :=
    if Qltb 0.1 (filler_words_ratio v) then
      recommend loc AdvReduceFillers
        (say loc (MsgFillers (filler_words_count v)) st)
    else st in
  if Qltb 0.15 (complex_words_ratio v) then say loc MsgComplexVocabulary st
  else st.

Definition feedback_fluency (loc : locale) (f : FluencyMetrics)
  (st : out) : out :=
  let st :=
    if Qleb 80 (fluency_score f) then say loc MsgFluencyExcellent st
    else if Qleb 60 (fluency_score f) then say loc MsgFluencyGood st
    else say loc MsgFluencyPoor st in
  let st :=
    if (3 <? repetition_count f)%nat then
      recommend loc AdvAvoidRepeating
        (say loc (MsgRepetitions (repetition_count f)) st)
    else st in
  if (2 <? self_corrections_count f)%nat then
    recommend loc AdvPractice
      (say loc (MsgSelfCorrections (self_corrections_count f)) st)
  else st.

Definition generate_feedback (language_detection : LanguageDetection)
  (speech_rate : SpeechRateMetrics) (pauses : PauseMetrics)
  (vocabulary : VocabularyMetrics) (fluency : FluencyMetrics) : out :=
  let st : out := ([], []) in
  let lang := detected_language language_detection in
  let ideal :=
    default {| rate_min := 140; rate_max := 170 |}
            (IDEAL_SPEAKING_RATE !! lang) in
  let loc := if String.eqb lang "en-US" then English else Portuguese in
  let st := say loc (MsgLanguage (confidence language_detection)) st in
  let st := feedback_pace loc speech_rate st in
  let st := feedback_wpm loc ideal speech_rate st in
  let st := feedback_pauses loc speech_rate pauses st in
  let st := feedback_vocabulary loc vocabulary st in
  feedback_fluency loc fluency st.

(** *** Scores *)

Definition _score_speech_rate (sr : SpeechRateMetrics) (language : string) : Q :=
  let wpm := words_per_minute sr in
  let ideal :=
    default {| rate_min := 140; rate_max := 170 |}
            (IDEAL_SPEAKING_RATE !! language) in
  if Qleb (rate_min ideal) wpm && Qleb wpm (rate_max ideal) then 100.0
  else
    let distance :=
      if Qltb wpm (rate_min ideal) then rate_min ideal - wpm
      else wpm - rate_max ideal in
    pymax 0 (100 - distance * 2).

Definition _score_pauses (p : PauseMetrics) : Q :=
  let base_score :=
    if Qleb 0.1 (pause_ratio p) && Qleb (pause_ratio p) 0.25 then 100.0
    else if Qltb (pause_ratio p) 0.1 then 80.0
    else pymax 0 (100 - (pause_ratio p - 0.25) * 200) in
  let base_score :=
    if Qltb 3.0 (longest_pause p) then base_score - 10 else base_score in
  pymax 0 base_score.

Definition _score_vocabulary (v : VocabularyMetrics) : Q :=
  let score := 50.0 in
  let score := score + vocabulary_richness v * 30 in
  let score := score + pymin (complex_words_ratio v * 50) 15 in
  let score := score - filler_words_ratio v * 50 in
  pymax 0 (pymin 100 score).

(** *** analyze_comprehensive *)

Definition analyze_comprehensive (text : str) (total_duration : Q)
  (segments : option (list segment)) (language_hint : option str)
  : result ComprehensiveSpeechAnalysis :=
  detected_lang ←
    match language_hint with
    | Some ((_ :: _) as hint) =>
        if existsb (str_eqb (lower U hint))
             (map u8 ["pt"; "pt-br"; "portuguese"]%string)
        then mret {| detected_language := "pt-BR"; confidence := 1.0;
                     portuguese_score := 100.0; english_score := 0.0 |}
        else if existsb (str_eqb (lower U hint))
                  (map u8 ["en"; "en-us"; "english"]%string)
        then mret {| detected_language := "en-US"; confidence := 1.0;
                     portuguese_score := 0.0; english_score := 100.0 |}
        else detect_language text
    | _ => detect_language text
    end;
  let language := detected_language detected_lang in
  speech_rate ← analyze_speech_rate text total_duration language segments;
  pauses ← analyze_pauses total_duration segments;
  vocabulary ← analyze_vocabulary text language;
  fluency ← analyze_fluency text total_duration segments;
  let fb := generate_feedback detected_lang speech_rate pauses vocabulary fluency in
  let overall_score :=
    _score_speech_rate speech_rate language * 0.25
    + _score_pauses pauses * 0.15
    + _score_vocabulary vocabulary * 0.25
    + fluency_score fluency * 0.35 in
  mret {| language := detected_lang;
          speech_rate := speech_rate;
          pauses := pauses;
          vocabulary := vocabulary;
          fluency := fluency;
          overall_score := py_round overall_score 1;
          feedback := fb.1;
          recommendations := fb.2 |}.
End Methods.

End SpeechAnalysisService.

(* ===================================================================== *)
(** * utils/metrics.py *)
(* ===================================================================== *)

Module Metrics.

(** [calculate_ttr(words)]. *)
Definition calculate_ttr (words : list str) : result Q :=
  match words with
  | [] => mret 0.0
  | _ =>
      let unique_words : gset str := list_to_set words in
      truediv (Qnat (size unique_words)) (Qnat (length words))
  end.

(** [calculate_fluency_score(filler_ratio, repetition_ratio,
    false_start_count, total_words)]. *)
Definition calculate_fluency_score (filler_ratio repetition_ratio : Q)
  (false_start_count total_words : Z) : Q :=
  let score := 100.0 in
  let filler_penalty := filler_ratio * 2000 in
  let repetition_penalty := repetition_ratio * 1500 in
  let false_start_penalty := inject_Z (false_start_count * 5) in
  let score :=
    if (100 <? total_words)%Z && Qltb (filler_ratio + repetition_ratio) 0.05
    then score + 10 else score in
  pymax 0 (score - filler_penalty - repetition_penalty - false_start_penalty).

(** [calculate_wpm_score(wpm)].  The four bounds come from
    [app.common.constants]; the docstrings give 150-165 for the ideal range
    and 140-180 for the optimal one. *)
Section WpmScore.
Variables OPTIMAL_WPM_MIN OPTIMAL_WPM_MAX IDEAL_WPM_MIN IDEAL_WPM_MAX : Q.

Definition calculate_wpm_score (wpm : Q) : Q :=
  if Qleb IDEAL_WPM_MIN wpm && Qleb wpm IDEAL_WPM_MAX then 100.0
  else if Qleb OPTIMAL_WPM_MIN wpm && Qleb wpm OPTIMAL_WPM_MAX then
    if Qltb wpm IDEAL_WPM_MIN then
      let distance := IDEAL_WPM_MIN - wpm in 100 - distance * 2
    else
      let distance := wpm - IDEAL_WPM_MAX in 100 - distance * 2
  else if Qltb wpm OPTIMAL_WPM_MIN then
    let distance := OPTIMAL_WPM_MIN - wpm in pymax 0 (80 - distance)
  else
    let distance := wpm - OPTIMAL_WPM_MAX in pymax 0 (80 - distance).
End WpmScore.

(** [calculate_pause_score(pause_count, total_duration, long_pause_count)]. *)
Definition calculate_pause_score (pause_count : nat) (total_duration : Q)
  (long_pause_count : nat) : result Q :=
  if Qleb total_duration 0 then mret 50.0
  else
    minutes ← truediv total_duration 60.0;
    pauses_per_minute ← truediv (Qnat pause_count) minutes;
    let base_score :=
      if Qleb 2 pauses_per_minute && Qleb pauses_per_minute 4 then 100.0
      else if Qleb 1 pauses_per_minute && Qltb pauses_per_minute 2 then 80.0
      else if Qltb 4 pauses_per_minute && Qleb pauses_per_minute 6 then 80.0
      else 60.0 in
    let long_pause_penalty := Qnat (long_pause_count * 5) in
    mret (pymax 0 (base_score - long_pause_penalty)).

(** [calculate_vocabulary_score(ttr, complex_word_ratio,
    content_word_count)]. *)
Definition calculate_vocabulary_score (ttr complex_word_ratio : Q)
  (content_word_count : nat) : Q :=
  let diversity_weight := 0.5 in
  let complexity_weight := 0.3 in
  let volume_weight := 0.2 in
  let diversity_score := pymin 100 (ttr * 200) in
  let complexity_score :=
    if Qleb 0.1 complex_word_ratio && Qleb complex_word_ratio 0.2 then 100.0
    else if Qltb complex_word_ratio 0.1 then complex_word_ratio * 1000
    else pymax 50 (100 - (complex_word_ratio - 0.2) * 200) in
  let volume_score := pymin 100 (Qnat (content_word_count * 2)) in
  diversity_score * diversity_weight
  + complexity_score * complexity_weight
  + volume_score * volume_weight.

(** [calculate_overall_score] with the default weights. *)
Definition calculate_overall_score (speech_rate_score pause_score
  vocabulary_score fluency_score : Q) (weights : option (Q * Q * Q * Q)) : Q :=
  let weights := default (0.25, 0.20, 0.25, 0.30) weights in
  let '(w_rate, w_pause, w_vocab, w_fluency) := weights in
  speech_rate_score * w_rate + pause_score * w_pause
  + vocabulary_score * w_vocab + fluency_score * w_fluency.

(** [calculate_wpm(word_count, duration_seconds)]. *)
Definition calculate_wpm (word_count : nat) (duration_seconds : Q) : result Q :=
  if Qleb duration_seconds 0 then mret 0.0
  else
    minutes ← truediv duration_seconds 60.0;
    truediv (Qnat word_count) minutes.

(** [calculate_syllables_per_second(syllable_count, duration_seconds)]. *)
Definition calculate_syllables_per_second (syllable_count : nat)
  (duration_seconds : Q) : result Q :=
  if Qleb duration_seconds 0 then mret 0.0
  else truediv (Qnat syllable_count) duration_seconds.

End Metrics.

(* ===================================================================== *)
(** * utils/text.py *)
(* ===================================================================== *)

Module TextUtils.

Definition exceptions : gmap str nat :=
  list_to_map (map (fun w => (u8 w, 1%nat))
    [ "the"; "be"; "are"; "were"; "have"; "give"; "live";
      "love"; "move"; "come" ]%string).

Fixpoint vowel_runs (vowels : str) (count : nat) (prev_was_vowel : bool)
  (word : str) : nat :=
  match word with
  | [] => count
  | char :: rest =>
      let is_vowel := mem char vowels in
      let count :=
        if is_vowel && negb prev_was_vowel then S count else count in
      vowel_runs vowels count is_vowel rest
  end.

Section Functions.
Variable U : unicode_db.

Definition _count_syllables_english (word : str) : nat :=
  let word := strip U (lower U word) in
  match word with
  | [] => 0%nat
  | _ =>
      match exceptions !! word with
      | Some n => n
      | None =>
          let vowels := u8 "aeiouy" in
          let count := vowel_runs vowels 0 false word in
          let count :=
            if endswith word (u8 "e") && (1 <? count)%nat
            then (count - 1)%nat else count in
          let count :=
            if (2 <? length word)%nat && endswith word (u8 "le")
               && match word !! (length word - 3)%nat with
                  | Some c => negb (mem c vowels)
                  | None => false
                  end
            then S count else count in
          let count :=
            if endswith word (u8 "ed") && (1 <? count)%nat
            then
              if negb (endswith word (u8 "ted"))
                 && negb (endswith word (u8 "ded"))
              then (count - 1)%nat else count
            else count in
          Nat.max 1 count
      end
  end.
End Functions.

(** The vowels and the diphthongs of [_count_syllables_portuguese]. *)
Definition PT_VOWELS : str := Eval vm_compute in u8 "aeiouáàâãéêíóôõú".

Definition DIPHTHONGS : list str := Eval vm_compute in map u8
  [ "ai"; "au"; "ei"; "eu"; "iu"; "oi"; "ou"; "ui";
    "ão"; "ãe"; "õe";
    "ai"; "au"; "ei"; "eu"; "iu"; "oi"; "ou"; "ui" ]%string.

(** The [while] loop of [_count_syllables_portuguese]: a vowel that opens
    a pair of the table is stepped over together with the character after
    it. *)
Fixpoint pt_scan (count : nat) (prev_was_vowel : bool) (word : str) : nat :=
  match word with
  | [] => count
  | char :: rest =>
      if mem char PT_VOWELS then
        let counted := if prev_was_vowel then count else S count in
        match rest with
        | next :: after =>
            if existsb (str_eqb [char; next]) DIPHTHONGS
            then pt_scan counted true after
            else pt_scan counted true rest
        | [] => pt_scan counted true rest
        end
      else pt_scan count false rest
  end.

(** [re.sub(r"\s+", " ", s)]: every run of whitespace becomes one space. *)
Fixpoint collapse_spaces (U : unicode_db) (in_run : bool) (s : str) : str :=
  match s with
  | [] => []
  | c :: rest =>
      if is_space U c
      then if in_run then collapse_spaces U true rest
           else 32%N :: collapse_spaces U true rest
      else c :: collapse_spaces U false rest
  end.

(** [re.split(r'[.!?]+', text)]: the pieces between the runs of
    delimiters, empty ones at the two ends included. *)
Fixpoint resplit_runs (delims : str) (cur : str) (in_run : bool) (s : str)
  : list str :=
  match s with
  | [] => [rev cur]
  | c :: rest =>
      if mem c delims
      then if in_run then resplit_runs delims [] true rest
           else rev cur :: resplit_runs delims [] true rest
      else resplit_runs delims (c :: cur) false rest
  end.

Section Tokenizer.
(** The interpreter's Unicode tables, [unicodedata.normalize("NFC", .)]
    and the table [STOPWORDS] of [app.common.constants]. *)
Variable U : unicode_db.
Variable nfc : str -> str.
Variable STOPWORDS : gmap string (gset str).

Definition normalize_text (text : str) (lowercase : bool) : str :=
  match text with
  | [] => []
  | _ =>
      let normalized := nfc text in
      let normalized := if lowercase then lower U normalized else normalized in
      let normalized := collapse_spaces U false normalized in
      strip U normalized
  end.

(** The characters [re.sub] keeps: those outside [[^\w\s']] (or
    [[^\w\s]]). *)
Definition remove_punctuation (text : str) (keep_apostrophes : bool) : str :=
  List.filter (fun c => is_word U c || is_space U c
                        || (keep_apostrophes && (c =? 39)%N)) text.

Definition tokenize (text : str) (remove_stopwords : bool) (language : string)
  : list str :=
  let cleaned := normalize_text text true in
  let cleaned := remove_punctuation cleaned true in
  let words := split U cleaned in
  let words := List.filter (fun w => negb (bool_decide (w = []))) words in
  if remove_stopwords then
    let stopwords := default ∅ (STOPWORDS !! language) in
    List.filter (fun w => bool_decide (w ∉ stopwords)) words
  else words.

Definition count_words (text : str) : nat :=
  length (tokenize text false "pt-BR").

Definition _count_syllables_portuguese (word : str) : nat :=
  let word := lower U word in
  Nat.max 1 (pt_scan 0 false word).

Definition count_syllables (word : str) (language : string) : nat :=
  let word := strip U (lower U word) in
  match word with
  | [] => 0%nat
  | _ =>
      if String.prefix "pt" language
      then _count_syllables_portuguese word
      else _count_syllables_english U word
  end.

Definition count_syllables_in_text (text : str) (language : string) : nat :=
  let words := tokenize text false "pt-BR" in
  list_sum (map (fun word => count_syllables word language) words).

Definition extract_sentences (text : str) : list str :=
  let sentences := resplit_runs (u8 ".!?") [] false text in
  map (strip U)
      (List.filter (fun s => negb (bool_decide (strip U s = []))) sentences).

Definition get_unique_words (text : str) (language : string) : gset str :=
  list_to_set (tokenize text true language).
End Tokenizer.

(** [find_repeated_patterns(words, min_length, max_length)], for lengths
    that are not negative.  The dictionary [patterns] keeps its keys in
    the order of their first insertion; [list.sort] is stable, also with
    [reverse=True]. *)
Definition windows (words : list str) (length : nat) : list (list str) :=
  map (fun i => firstn length (skipn i words))
      (seq 0 (List.length words + 1 - length)).

Fixpoint bump (pattern : list str) (patterns : list (list str * nat))
  : list (list str * nat) :=
  match patterns with
  | [] => [(pattern, 1%nat)]
  | (p, c) :: rest =>
      if bool_decide (p = pattern) then (p, S c) :: rest
      else (p, c) :: bump pattern rest
  end.

Fixpoint insert_by_count (x : list str * nat) (l : list (list str * nat))
  : list (list str * nat) :=
  match l with
  | [] => [x]
  | y :: rest =>
      if (y.2 <=? x.2)%nat then x :: l else y :: insert_by_count x rest
  end.

Definition sort_by_count (l : list (list str * nat)) : list (list str * nat) :=
  fold_right insert_by_count [] l.

Definition find_repeated_patterns (words : list str)
  (min_length max_length : nat) : list (list str * nat) :=
  let patterns :=
    fold_left
      (fun patterns length =>
         fold_left (fun patterns pattern => bump pattern patterns)
                   (windows words length) patterns)
      (seq min_length (max_length + 1 - min_length)) [] in
  let repeated := List.filter (fun pc => (1 <? pc.2)%nat) patterns in
  sort_by_count repeated.

End TextUtils.

(* ===================================================================== *)
(** * Auxiliary definitions for the statements *)
(* ===================================================================== *)

Import SpeechAnalysisService.

Ltac monad_step := cbn [mbind mret result_bind result_ret fst snd].

(** One branch of a block of [generate_feedback]: what it appends. *)
Ltac appends_branch :=
  cbn [say recommend fst snd]; rewrite <- ?app_assoc; cbn [app];
  eexists _, _;
  split; [first [reflexivity | symmetry; apply app_nil_r] |];
  split; [first [reflexivity | symmetry; apply app_nil_r] |];
  cbn [length]; repeat split; try lia; repeat constructor.

Ltac appended :=
  cbn [say recommend fst snd]; rewrite <- ?app_assoc; cbn [app].

(** ** The scan of [re.findall] *)

Abbreviation all_word U w := (forallb (is_word U) w).

(** What the scan has before it after stepping over [w]. *)
Definition prev_after (prev : option N) (w : str) : option N :=
  match last w with Some c => Some c | None => prev end.

(** A text that is empty or starts with a non-word character: where a run
    of word characters ends. *)
Definition ends_run (U : unicode_db) (tl : str) : Prop :=
  match tl with [] => True | d :: _ => is_word U d = false end.

(** A character that is no letter of the pattern, in upper or in lower
    case: a digit, a punctuation mark, a symbol, a space. *)
Definition non_letter (U : unicode_db) (c : N) : bool :=
  forallb (fun d => negb (word_class d)) (lower_cp U c).

(** ** The local variables of [analyze_speech_rate] *)

Definition rate_total_duration (total_duration : Q) : Q :=
  if Qleb total_duration 0 then 1.0 else total_duration.

Definition rate_pause_duration (segments : option (list segment)) : Q :=
  fold_left (fun pause_duration gap =>
               if Qleb MIN_PAUSE_DURATION gap
               then pause_duration + gap else pause_duration)
            (segment_gaps segments) 0.0.

Definition rate_speech_duration (total_duration : Q)
  (segments : option (list segment)) : Q :=
  pymax 0.1 (rate_total_duration total_duration - rate_pause_duration segments).

(** ** The results on a transcript without words *)

Definition empty_vocabulary : VocabularyMetrics :=
  {| total_words := 0; unique_words := 0;
     vocabulary_richness := 0.0; average_word_length := 0.0;
     complex_words_count := 0; complex_words_ratio := 0.0;
     filler_words_count := 0; filler_words_ratio := 0.0;
     lexical_density := 0.0 |}.

Definition unknown_language : LanguageDetection :=
  {| detected_language := "unknown"; confidence := 0.0;
     portuguese_score := 0.0; english_score := 0.0 |}.

(** ** The kinds of feedback lines *)

Definition is_language_line (m : message) : bool :=
  match m with MsgLanguage _ => true | _ => false end.

Definition is_pace_line (m : message) : bool :=
  match m with MsgPaceFast | MsgPaceSlow | MsgPaceOk => true | _ => false end.

Definition is_wpm_line (m : message) : bool :=
  match m with
  | MsgRateBelow _ _ | MsgRateAbove _ _ | MsgRateIdeal _ => true
  | _ => false
  end.

Definition is_fluency_line (m : message) : bool :=
  match m with
  | MsgFluencyExcellent | MsgFluencyGood | MsgFluencyPoor => true
  | _ => false
  end.

(** ** Concrete inputs *)

(** Inputs on which [difflib] is never consulted use this ratio. *)
Definition ratio_unused : str -> str -> Q := fun _ _ => 0.

(** The segments of the specification's example, [0,2] and [2.5,5]. *)
Definition spec_segments : option (list segment) :=
  Some [ {[ "start"%string := 0; "end"%string := 2 ]};
         {[ "start"%string := 2.5; "end"%string := 5 ]} ].

(** Two segments 0.3 s apart. *)
Definition pause_example : option (list segment) :=
  Some [ {[ "start"%string := 0; "end"%string := 0 ]};
         {[ "start"%string := 0.3; "end"%string := 0.4 ]} ].

(** Two segments 2.5 s apart: a pause that is also a hesitation. *)
Definition long_gap : option (list segment) :=
  Some [ {[ "start"%string := 0; "end"%string := 1 ]};
         {[ "start"%string := 3.5; "end"%string := 4 ]} ].

(** Two segments 0.256 s apart. *)
Definition short_gap : option (list segment) :=
  Some [ {[ "start"%string := 0; "end"%string := 1 ]};
         {[ "start"%string := 1.256; "end"%string := 2 ]} ].

(** ** The tables of the class, as the methods read them *)

(** [SPEECH_RATE_THRESHOLDS.get(language, SPEECH_RATE_THRESHOLDS['pt-BR'])]
    and the same for [IDEAL_SPEAKING_RATE]. *)
Definition thresholds_of (language : string) : rate_thresholds :=
  default {| slow := 180; fast := 250 |} (SPEECH_RATE_THRESHOLDS !! language).

Definition ideal_rate_of (language : string) : ideal_rate :=
  default {| rate_min := 140; rate_max := 170 |}
          (IDEAL_SPEAKING_RATE !! language).

(** The pace the rate analyzer gives to an articulation rate. *)
Definition rate_classification (articulation_rate_spm : Q) (language : string)
  : string :=
  if Qltb articulation_rate_spm (slow (thresholds_of language)) then "slow"
  else if Qltb (fast (thresholds_of language)) articulation_rate_spm then "fast"
  else "medium".

(** Segments that give no gap: none, or fewer than two. *)
Definition few_segments (segments : option (list segment)) : bool :=
  match segments with
  | Some l => (length l <=? 1)%nat
  | None => true
  end.

(** The results a recognized language hint forces. *)
Definition forced_portuguese : LanguageDetection :=
  {| detected_language := "pt-BR"; confidence := 1.0;
     portuguese_score := 100.0; english_score := 0.0 |}.

Definition forced_english : LanguageDetection :=
  {| detected_language := "en-US"; confidence := 1.0;
     portuguese_score := 0.0; english_score := 100.0 |}.

Definition portuguese_hints : list str :=
  map u8 ["pt"; "pt-br"; "portuguese"]%string.

Definition english_hints : list str :=
  map u8 ["en"; "en-us"; "english"]%string.

(** The locale of the feedback for a detected language. *)
Definition locale_of (language : string) : locale :=
  if String.eqb language "en-US" then English else Portuguese.

(** The marker words of each language found in a text. *)
Definition portuguese_matches (U : unicode_db) (text : str) : nat :=
  size ((list_to_set (_extract_words U text) : gset str) ∩ PORTUGUESE_MARKERS).

Definition english_matches (U : unicode_db) (text : str) : nat :=
  size ((list_to_set (_extract_words U text) : gset str) ∩ ENGLISH_MARKERS).

(** What a block of [generate_feedback] appends to the two lists: at most
    [lines] lines and [advices] recommendations, all in the locale [loc],
    and at least [plain] lines more than recommendations. *)
Definition appends (loc : locale) (plain lines advices : nat) (st st' : out)
  : Prop :=
  exists a b,
    st'.1 = st.1 ++ a /\ st'.2 = st.2 ++ b
    /\ (length b + plain <= length a)%nat
    /\ (length a <= lines)%nat /\ (length b <= advices)%nat
    /\ Forall (fun line => line.1 = loc) a
    /\ Forall (fun line => line.1 = loc) b.

(** The vowels that only the table of the engine has. *)
Definition ENGINE_ONLY_VOWELS : str := Eval vm_compute in u8 "èìòùîûäëïöü".

Definition no_space (U : unicode_db) (c : N) : bool := negb (is_space U c).

(** No two whitespace characters side by side. *)
Fixpoint single_spaced (U : unicode_db) (s : str) : bool :=
  match s with
  | c :: rest =>
      match rest with
      | d :: _ => negb (is_space U c && is_space U d)
      | [] => true
      end && single_spaced U rest
  | [] => true
  end.

(** No whitespace at the two ends. *)
Definition trimmed (U : unicode_db) (s : str) : Prop :=
  (forall c r, s = c :: r -> is_space U c = false)
  /\ (forall c r, s = r ++ [c] -> is_space U c = false).

(** A character of a token: a word character or an apostrophe, and no
    whitespace. *)
Definition token_char (U : unicode_db) (c : N) : bool :=
  (is_word U c || (c =? 39)%N) && negb (is_space U c).

(** The number of positions at which [pattern] occurs in [words]. *)
Definition occurrences (words pattern : list str) : nat :=
  count_if (fun i => bool_decide (firstn (length pattern) (skipn i words)
                                  = pattern))
           (seq 0 (length words + 1 - length pattern)).

(** The count that the dictionary [patterns] holds for a key. *)
Fixpoint tally (pattern : list str) (patterns : list (list str * nat)) : nat :=
  match patterns with
  | [] => 0
  | (p, c) :: rest => if bool_decide (p = pattern) then c else tally pattern rest
  end.

(** What [str.lower] yields is in lower case: lowering one of its
    characters again changes nothing.  A property of the interpreter's
    tables. *)
Definition lower_stable (U : unicode_db) : Prop :=
  forall c d : N, In d (lower_cp U c) -> lower_cp U d = [d].

(* ===================================================================== *)
(** * Arithmetic of the numeric model *)
(* ===================================================================== *)

Section NumFacts.

Lemma Qleb_true (a b : Q) : Qleb a b = true <-> a <= b.
Proof. apply Qle_bool_iff. Qed.

Lemma Qleb_false (a b : Q) : Qleb a b = false <-> b < a.
Proof.
  unfold Qleb. rewrite <- not_true_iff_false, Qle_bool_iff.
  split; [apply Qnot_le_lt | apply Qlt_not_le].
Qed.

Lemma Qltb_true (a b : Q) : Qltb a b = true <-> a < b.
Proof. unfold Qltb. rewrite negb_true_iff. apply Qleb_false. Qed.

Lemma Qltb_false (a b : Q) : Qltb a b = false <-> b <= a.
Proof. unfold Qltb. rewrite negb_false_iff. apply Qleb_true. Qed.

Lemma Qnat_nonneg (n : nat) : 0 <= Qnat n.
Proof.
  unfold Qnat. change 0 with (inject_Z 0). rewrite <- Zle_Qle. lia.
Qed.

Lemma Qnat_pos (n : nat) : (0 < n)%nat -> 0 < Qnat n.
Proof.
  intros H. unfold Qnat. change 0 with (inject_Z 0). rewrite <- Zlt_Qlt. lia.
Qed.

Lemma Qnat_le (n m : nat) : (n <= m)%nat -> Qnat n <= Qnat m.
Proof. intros H. unfold Qnat. rewrite <- Zle_Qle. lia. Qed.

Lemma Qnat_S (n : nat) : Qnat (S n) == Qnat n + 1.
Proof.
  unfold Qnat. rewrite Nat2Z.inj_succ. unfold Z.succ.
  rewrite inject_Z_plus. reflexivity.
Qed.

(** [max] and [min] of two numbers. *)
Lemma pymax_l (a b : Q) : a <= pymax a b.
Proof.
  unfold pymax. destruct (Qltb a b) eqn:E.
  - apply Qltb_true in E. lra.
  - lra.
Qed.

Lemma pymax_r (a b : Q) : b <= pymax a b.
Proof.
  unfold pymax. destruct (Qltb a b) eqn:E.
  - lra.
  - apply Qltb_false in E. lra.
Qed.

Lemma pymax_lub (a b c : Q) : a <= c -> b <= c -> pymax a b <= c.
Proof. intros. unfold pymax. destruct (Qltb a b); assumption. Qed.

Lemma pymin_l (a b : Q) : pymin a b <= a.
Proof.
  unfold pymin. destruct (Qltb b a) eqn:E.
  - apply Qltb_true in E. lra.
  - lra.
Qed.

Lemma pymin_r (a b : Q) : pymin a b <= b.
Proof.
  unfold pymin. destruct (Qltb b a) eqn:E.
  - lra.
  - apply Qltb_false in E. lra.
Qed.

Lemma pymin_glb (a b c : Q) : c <= a -> c <= b -> c <= pymin a b.
Proof. intros. unfold pymin. destruct (Qltb b a); assumption. Qed.

(** The clamp [max(0, min(100, x))]. *)
Lemma clamp_range (x : Q) : 0 <= pymax 0 (pymin 100 x) <= 100.
Proof.
  split; [apply pymax_l |].
  apply pymax_lub; [lra | apply pymin_l].
Qed.

(** ** Rounding *)

Lemma round_half_even_cases (x : Q) :
  round_half_even x = Qfloor x \/ round_half_even x = (Qfloor x + 1)%Z.
Proof.
  unfold round_half_even.
  destruct (Qcompare _ _); [destruct (Z.even _) | |]; auto.
Qed.

Lemma round_half_even_mono (x y : Q) :
  x <= y -> (round_half_even x <= round_half_even y)%Z.
Proof.
  intros Hxy.
  pose proof (Qfloor_resp_le _ _ Hxy) as Hf.
  destruct (Z.eq_dec (Qfloor x) (Qfloor y)) as [E | NE].
  - unfold round_half_even. rewrite <- E.
    destruct (Qcompare_spec (x - inject_Z (Qfloor x)) (1 # 2)) as [Hx | Hx | Hx];
    destruct (Qcompare_spec (y - inject_Z (Qfloor x)) (1 # 2)) as [Hy | Hy | Hy];
    try destruct (Z.even (Qfloor x)); try lia; exfalso; lra.
  - destruct (round_half_even_cases x), (round_half_even_cases y); lia.
Qed.

Lemma round_half_even_Z (z : Z) : round_half_even (inject_Z z) = z.
Proof.
  unfold round_half_even. rewrite Qfloor_Z.
  destruct (Qcompare_spec (inject_Z z - inject_Z z) (1 # 2)) as [H | H | H];
    [exfalso; lra | reflexivity | exfalso; lra].
Qed.

Global Instance round_half_even_proper : Proper (Qeq ==> eq) round_half_even.
Proof.
  intros x y E. unfold round_half_even.
  rewrite (Qfloor_comp _ _ E).
  assert (E' : x - inject_Z (Qfloor y) == y - inject_Z (Qfloor y))
    by (rewrite E; reflexivity).
  rewrite (Qcompare_comp _ _ E' (1 # 2) (1 # 2) (Qeq_refl _)). reflexivity.
Qed.

Lemma pow10_pos (n : nat) : 0 < pow10 n.
Proof.
  unfold pow10. change 0 with (inject_Z 0). rewrite <- Zlt_Qlt.
  apply Z.pow_pos_nonneg; lia.
Qed.

Global Instance py_round_proper : Proper (Qeq ==> eq ==> Qeq) py_round.
Proof.
  intros x y E n m <-. unfold py_round.
  assert (E' : x * pow10 n == y * pow10 n) by (rewrite E; reflexivity).
  rewrite (round_half_even_proper _ _ E'). reflexivity.
Qed.

Lemma py_round_mono (x y : Q) (n : nat) :
  x <= y -> py_round x n <= py_round y n.
Proof.
  intros Hxy. unfold py_round.
  pose proof (pow10_pos n) as Hp.
  assert (H : x * pow10 n <= y * pow10 n) by nra.
  apply round_half_even_mono in H. rewrite Zle_Qle in H.
  apply Qle_shift_div_l; [assumption |].
  unfold Qdiv. rewrite <- Qmult_assoc, (Qmult_comm (/ _)), Qmult_inv_r by lra.
  lra.
Qed.

(** An integer is its own rounding, to any number of decimals. *)
Lemma py_round_Z (z : Z) (n : nat) : py_round (inject_Z z) n == inject_Z z.
Proof.
  unfold py_round, pow10. rewrite <- inject_Z_mult, round_half_even_Z.
  rewrite inject_Z_mult.
  pose proof (pow10_pos n) as Hp. unfold pow10 in Hp.
  field. lra.
Qed.

Lemma py_round_range (lo hi : Z) (x : Q) (n : nat) :
  inject_Z lo <= x <= inject_Z hi ->
  inject_Z lo <= py_round x n <= inject_Z hi.
Proof.
  intros [H1 H2]. split.
  - rewrite <- (py_round_Z lo n). apply py_round_mono; assumption.
  - rewrite <- (py_round_Z hi n). apply py_round_mono; assumption.
Qed.

Lemma py_round_0_100 (x : Q) (n : nat) :
  0 <= x <= 100 -> 0 <= py_round x n <= 100.
Proof. intros H. apply (py_round_range 0 100). exact H. Qed.

Lemma py_round_nonneg (x : Q) (n : nat) : 0 <= x -> 0 <= py_round x n.
Proof.
  intros H. rewrite <- (py_round_Z 0 n). apply py_round_mono. exact H.
Qed.

Global Instance Qltb_proper : Proper (Qeq ==> Qeq ==> eq) Qltb.
Proof. intros a b E c d F. unfold Qltb. rewrite E, F. reflexivity. Qed.

Global Instance pymax_proper : Proper (Qeq ==> Qeq ==> Qeq) pymax.
Proof.
  intros a b E c d F. unfold pymax. rewrite E, F.
  destruct (Qltb b d); assumption.
Qed.

Global Instance pymin_proper : Proper (Qeq ==> Qeq ==> Qeq) pymin.
Proof.
  intros a b E c d F. unfold pymin. rewrite E, F.
  destruct (Qltb d b); assumption.
Qed.

(** ** Sums and maxima of lists *)

Lemma fold_plus_acc (xs : list Q) (a : Q) :
  fold_left Qplus xs a == a + pysum xs.
Proof.
  unfold pysum. revert a. induction xs as [| x xs IH]; intros a; simpl.
  - lra.
  - rewrite IH, (IH (0 + x)). lra.
Qed.

Lemma pysum_cons (x : Q) (xs : list Q) : pysum (x :: xs) == x + pysum xs.
Proof. unfold pysum at 1. simpl. rewrite fold_plus_acc. lra. Qed.

Lemma pysum_lower (c : Q) (xs : list Q) :
  Forall (fun x => c <= x) xs -> Qnat (length xs) * c <= pysum xs.
Proof.
  induction 1 as [| x xs Hx _ IH].
  - change (Qnat (length [])) with 0. unfold pysum. simpl. lra.
  - rewrite pysum_cons. cbn [length]. rewrite Qnat_S. nra.
Qed.

Lemma pysum_upper (c : Q) (xs : list Q) :
  Forall (fun x => x <= c) xs -> pysum xs <= Qnat (length xs) * c.
Proof.
  induction 1 as [| x xs Hx _ IH].
  - change (Qnat (length [])) with 0. unfold pysum. simpl. lra.
  - rewrite pysum_cons. cbn [length]. rewrite Qnat_S. nra.
Qed.

Lemma fold_pymax_upper (xs : list Q) (a : Q) :
  a <= fold_left pymax xs a /\ Forall (fun x => x <= fold_left pymax xs a) xs.
Proof.
  revert a. induction xs as [| x xs IH]; intros a; simpl.
  - split; [lra | constructor].
  - destruct (IH (pymax a x)) as [H1 H2]. split.
    + pose proof (pymax_l a x). lra.
    + constructor; [| exact H2]. pose proof (pymax_r a x). lra.
Qed.

End NumFacts.

(** ** Running a computation that may raise *)

Lemma truediv_ok (a b : Q) : ~ b == 0 -> truediv a b = Ok (a / b).
Proof.
  intros H. unfold truediv.
  destruct (Qeq_bool b 0) eqn:E; [| reflexivity].
  apply Qeq_bool_eq in E. contradiction.
Qed.

Lemma truediv_nat_ok (a : Q) (n : nat) :
  (0 < n)%nat -> truediv a (Qnat n) = Ok (a / Qnat n).
Proof.
  intros H. apply truediv_ok. pose proof (Qnat_pos n H). lra.
Qed.

Lemma bind_ok {A B : Type} (m : result A) (f : A -> result B) (a : A) :
  m = Ok a -> (m ≫= f) = f a.
Proof. intros ->. reflexivity. Qed.

Lemma Qdiv_nonneg (a b : Q) : 0 <= a -> 0 < b -> 0 <= a / b.
Proof. intros Ha Hb. apply Qle_shift_div_l; [assumption | lra]. Qed.

Lemma Qdiv_le_1 (a b : Q) : a <= b -> 0 < b -> a / b <= 1.
Proof. intros Ha Hb. apply Qle_shift_div_r; [assumption | lra]. Qed.

(** A smaller positive divisor gives a larger quotient. *)
Lemma Qdiv_antitone (a b c : Q) :
  0 <= a -> 0 < c -> c <= b -> a / b <= a / c.
Proof.
  intros Ha Hc Hcb.
  assert (Hq : 0 <= a / c) by (apply Qdiv_nonneg; assumption).
  apply Qle_shift_div_r; [lra |].
  assert (E : a == (a / c) * c) by (field; lra).
  rewrite E at 1. nra.
Qed.

(* ===================================================================== *)
(** * The word pattern: [re.findall] against the runs of word characters *)
(* ===================================================================== *)

Section RegexFacts.
Variable U : unicode_db.
Variable class : N -> bool.
Hypothesis class_is_word : forall c, class c = true -> is_word U c = true.

Lemma prev_after_cons (prev : option N) (c : N) (w : str) :
  prev_after prev (c :: w) = prev_after (Some c) w.
Proof.
  unfold prev_after. destruct w as [| d w]; [reflexivity |].
  rewrite last_cons_cons. destruct (last (d :: w)) eqn:E; [reflexivity |].
  apply last_None in E. discriminate.
Qed.

Lemma prev_after_word (prev : option N) (w : str) :
  opt_word U prev = true -> all_word U w = true ->
  opt_word U (prev_after prev w) = true.
Proof.
  revert prev. induction w as [| c w IH]; intros prev Hp Hw; [exact Hp |].
  rewrite prev_after_cons. simpl in Hw. apply andb_true_iff in Hw as [Hc Hw].
  apply IH; assumption.
Qed.

Lemma class_not_word (c : N) : is_word U c = false -> class c = false.
Proof.
  intros H. destruct (class c) eqn:E; [| reflexivity].
  apply class_is_word in E. congruence.
Qed.

(** A non-word character starts no match. *)
Lemma findall_nonword (prev : option N) (c : N) (rest : str) :
  is_word U c = false ->
  findall_from U class prev 0 (c :: rest) = findall_from U class (Some c) 0 rest.
Proof.
  intros Hc. cbn [findall_from]. unfold match_at.
  destruct (boundary U prev (head (c :: rest))); [| reflexivity].
  cbn [span]. rewrite (class_not_word c Hc). reflexivity.
Qed.

(** Stepping over a match. *)
Lemma findall_skip (prev : option N) (w rest : str) :
  findall_from U class prev (length w) (w ++ rest)
  = findall_from U class (prev_after prev w) 0 rest.
Proof.
  revert prev. induction w as [| c w IH]; intros prev; [reflexivity |].
  rewrite prev_after_cons. cbn [length app findall_from]. apply IH.
Qed.

(** No match starts inside a run of word characters. *)
Lemma findall_inside (prev : option N) (w rest : str) :
  opt_word U prev = true -> all_word U w = true ->
  findall_from U class prev 0 (w ++ rest)
  = findall_from U class (prev_after prev w) 0 rest.
Proof.
  revert prev. induction w as [| c w IH]; intros prev Hp Hw; [reflexivity |].
  simpl in Hw. apply andb_true_iff in Hw as [Hc Hw].
  rewrite prev_after_cons. cbn [app findall_from]. unfold match_at.
  cbn [head]. unfold boundary. rewrite Hp. cbn [opt_word]. rewrite Hc.
  cbn [xorb]. apply IH; assumption.
Qed.

Lemma span_app (p : N -> bool) (w rest : str) :
  forallb p w = true ->
  match rest with [] => True | d :: _ => p d = false end ->
  span p (w ++ rest) = (w, rest).
Proof.
  intros Hw Hr. induction w as [| c w IH].
  - destruct rest as [| d rest]; [reflexivity |]. cbn. rewrite Hr. reflexivity.
  - simpl in Hw. apply andb_true_iff in Hw as [Hc Hw].
    cbn [app span]. rewrite Hc, (IH Hw). reflexivity.
Qed.

Lemma span_split (p : N -> bool) (s : str) :
  exists run tl, s = run ++ tl /\ forallb p run = true
                 /\ match tl with [] => True | d :: _ => p d = false end.
Proof.
  induction s as [| c s (run & tl & -> & Hrun & Htl)].
  - exists [], []. auto.
  - destruct (p c) eqn:E.
    + exists (c :: run), tl. cbn. rewrite E. auto.
    + exists [], (c :: run ++ tl). auto.
Qed.

(** Inside a run of word characters no end of a candidate is a boundary. *)
Lemma backtrack_inside (k : nat) (run tl : str) :
  (k <= length run)%nat -> all_word U run = true ->
  opt_word U (head tl) = true ->
  backtrack U k run tl = None.
Proof.
  intros Hk Hrun Htl. induction k as [| k IH]; [reflexivity |].
  cbn [backtrack].
  assert (Hlast : opt_word U (last (take (S k) run)) = true).
  { destruct (lookup_lt_is_Some_2 run k ltac:(lia)) as [x Hx].
    rewrite last_lookup, length_take, Nat.min_l by lia.
    cbn [pred]. rewrite lookup_take_lt, Hx by lia. cbn.
    rewrite forallb_forall in Hrun. apply Hrun.
    apply list_elem_of_In. eapply list_elem_of_lookup_2; eassumption. }
  assert (Hhead : opt_word U (head (drop (S k) run ++ tl)) = true).
  { destruct (drop (S k) run) as [| y ys] eqn:E; [exact Htl |].
    cbn. rewrite forallb_forall in Hrun. apply Hrun.
    apply list_elem_of_In.
    assert (Hy : y ∈ drop (S k) run) by (rewrite E; left).
    apply list_elem_of_lookup in Hy as [i Hi].
    rewrite lookup_drop in Hi. eapply list_elem_of_lookup_2; eassumption. }
  unfold boundary. rewrite Hlast, Hhead. cbn [xorb]. apply IH. lia.
Qed.

(** A whole run that ends at a boundary is taken at once. *)
Lemma backtrack_whole (c : N) (w tl : str) :
  all_word U (c :: w) = true -> opt_word U (head tl) = false ->
  backtrack U (length (c :: w)) (c :: w) tl = Some (c :: w).
Proof.
  intros Hw Htl. cbn [length backtrack].
  change (S (length w)) with (length (c :: w)).
  rewrite firstn_all, drop_all. cbn [app].
  assert (Hlast : opt_word U (last (c :: w)) = true).
  { destruct (last (c :: w)) as [x |] eqn:E;
      [| apply last_None in E; discriminate].
    cbn. rewrite forallb_forall in Hw. apply Hw.
    apply list_elem_of_In. rewrite last_lookup in E.
    eapply list_elem_of_lookup_2; eassumption. }
  unfold boundary. rewrite Hlast, Htl. reflexivity.
Qed.

Lemma ends_run_head (tl : str) : ends_run U tl -> opt_word U (head tl) = false.
Proof. destruct tl; cbn; auto. Qed.

(** The attempt at the start of a maximal run of word characters: the
    run is the match when all its characters are in the class, and
    there is no match otherwise. *)
Lemma match_at_run (prev : option N) (c : N) (w tl : str) :
  opt_word U prev = false -> all_word U (c :: w) = true -> ends_run U tl ->
  match_at U class prev ((c :: w) ++ tl)
  = if forallb class (c :: w) then Some (c :: w) else None.
Proof.
  intros Hp Hw Htl. unfold match_at.
  assert (Hb : boundary U prev (head ((c :: w) ++ tl)) = true).
  { unfold boundary. rewrite Hp. cbn. simpl in Hw.
    apply andb_true_iff in Hw as [-> _]. reflexivity. }
  rewrite Hb.
  destruct (forallb class (c :: w)) eqn:Hall.
  - rewrite span_app; [apply backtrack_whole; auto using ends_run_head | exact Hall |].
    destruct tl as [| d tl]; [exact I | apply class_not_word, Htl].
  - destruct (span_split class (c :: w)) as (run & t & E & Hrun & Ht).
    destruct t as [| d t].
    { rewrite app_nil_r in E. rewrite E in Hall. congruence. }
    rewrite E, <- app_assoc, span_app; [| exact Hrun | exact Ht].
    apply backtrack_inside; [lia | |].
    + rewrite E, forallb_app in Hw. apply andb_true_iff in Hw as [H _]. exact H.
    + cbn. rewrite E, forallb_app in Hw. apply andb_true_iff in Hw as [_ H].
      simpl in H. apply andb_true_iff in H as [H _]. exact H.
Qed.

(** The runs of word characters, with a run in progress. *)
Lemma word_runs_acc_run (cur w tl : str) :
  all_word U w = true ->
  word_runs_acc U cur (w ++ tl) = word_runs_acc U (rev w ++ cur) tl.
Proof.
  revert cur. induction w as [| c w IH]; intros cur Hw; [reflexivity |].
  simpl in Hw. apply andb_true_iff in Hw as [Hc Hw].
  cbn [app word_runs_acc]. rewrite Hc, (IH _ Hw).
  cbn [rev]. rewrite <- app_assoc. reflexivity.
Qed.

(** [re.findall] returns the maximal runs of word characters all of
    whose characters are in the class, in order: a run with a character
    outside the class gives no word at all. *)
Lemma findall_from_word_runs (s : str) (prev : option N) :
  opt_word U prev = false ->
  findall_from U class prev 0 s
  = List.filter (forallb class) (word_runs U s).
Proof.
  remember (length s) as n eqn:Hn. revert s prev Hn.
  induction n as [n IH] using lt_wf_ind. intros s prev Hn Hp.
  destruct s as [| c rest]; [reflexivity |].
  destruct (is_word U c) eqn:Hc.
  - destruct (span_split (is_word U) (c :: rest)) as (w & tl & E & Hw & Htl).
    destruct w as [| c' w]; [cbn in E; subst tl; congruence |].
    injection E as <- ->.
    change (c :: w ++ tl) with ((c :: w) ++ tl).
    unfold word_runs. rewrite word_runs_acc_run by exact Hw.
    cbn [findall_from app].
    change (c :: w ++ tl) with ((c :: w) ++ tl).
    rewrite (match_at_run prev c w tl Hp Hw Htl).
    assert (Htail : findall_from U class (prev_after (Some c) w) 0 tl
                    = List.filter (forallb class) (word_runs U tl)).
    { destruct tl as [| d tl]; [reflexivity |].
      rewrite findall_nonword by exact Htl.
      unfold word_runs. cbn [word_runs_acc]. rewrite Htl.
      apply (IH (length tl)); [| reflexivity | cbn; exact Htl].
      subst n. cbn. rewrite length_app. cbn. lia. }
    rewrite app_nil_r.
    assert (Hruns : word_runs_acc U (rev (c :: w)) tl
                    = (c :: w) :: word_runs U tl).
    { destruct (rev (c :: w)) as [| x xs] eqn:Erev.
      { apply (f_equal (@length N)) in Erev. rewrite length_rev in Erev.
        discriminate. }
      assert (Eback : rev (x :: xs) = c :: w)
        by (rewrite <- Erev; apply rev_involutive).
      destruct tl as [| d tl]; unfold word_runs; cbn [word_runs_acc].
      - rewrite Eback. reflexivity.
      - cbn in Htl. rewrite Htl, Eback. reflexivity. }
    rewrite Hruns. cbn [List.filter].
    destruct (forallb class (c :: w)) eqn:Hall.
    + f_equal. replace (length (c :: w) - 1)%nat with (length w) by (cbn; lia).
      rewrite findall_skip. exact Htail.
    + rewrite findall_inside; [exact Htail | exact Hc |].
      simpl in Hw. apply andb_true_iff in Hw as [_ H]. exact H.
  - rewrite findall_nonword by exact Hc.
    unfold word_runs. cbn [word_runs_acc]. rewrite Hc.
    apply (IH (length rest)); [subst n; cbn; lia | reflexivity | exact Hc].
Qed.

Lemma findall_words_word_runs (s : str) :
  findall_words U class s = List.filter (forallb class) (word_runs U s).
Proof. apply findall_from_word_runs. reflexivity. Qed.

(** A text with no character of the class has no match. *)
Lemma findall_from_none (s : str) (prev : option N) :
  forallb (fun c => negb (class c)) s = true ->
  findall_from U class prev 0 s = [].
Proof.
  revert prev. induction s as [| c s IH]; intros prev H; [reflexivity |].
  simpl in H. apply andb_true_iff in H as [Hc Hs].
  apply negb_true_iff in Hc.
  cbn [findall_from]. unfold match_at.
  destruct (boundary U prev (head (c :: s))).
  - cbn [span]. rewrite Hc. cbn [length backtrack]. apply IH, Hs.
  - apply IH, Hs.
Qed.

End RegexFacts.

(* ===================================================================== *)
(** * Facts about the service *)
(* ===================================================================== *)


Section PauseFacts.

(** Every counted pause is a gap of at least [MIN_PAUSE_DURATION]. *)
Lemma counted_pauses_min (segments : option (list segment)) :
  Forall (fun gap => MIN_PAUSE_DURATION <= gap) (counted_pauses segments).
Proof.
  unfold counted_pauses. apply List.Forall_forall. intros gap Hin.
  apply filter_In in Hin as [_ H]. apply Qleb_true in H. exact H.
Qed.

Lemma counted_pauses_In (segments : option (list segment)) (gap : Q) :
  In gap (counted_pauses segments)
  <-> In gap (segment_gaps segments) /\ MIN_PAUSE_DURATION <= gap.
Proof.
  unfold counted_pauses. rewrite filter_In, Qleb_true. reflexivity.
Qed.

Lemma pysum_pauses_nonneg (ps : list Q) :
  Forall (fun gap => MIN_PAUSE_DURATION <= gap) ps -> 0 <= pysum ps.
Proof.
  intros H. pose proof (pysum_lower _ _ H) as Hs.
  pose proof (Qnat_nonneg (length ps)) as Hn.
  unfold MIN_PAUSE_DURATION in Hs. nra.
Qed.

(** The loop of the rate analyzer accumulates the same sum. *)
Lemma pause_duration_fold (gs : list Q) (a : Q) :
  fold_left (fun pause_duration gap =>
               if Qleb MIN_PAUSE_DURATION gap
               then pause_duration + gap else pause_duration) gs a
  == a + pysum (List.filter (fun gap => Qleb MIN_PAUSE_DURATION gap) gs).
Proof.
  revert a. induction gs as [| g gs IH]; intros a; cbn [fold_left List.filter].
  - unfold pysum. simpl. lra.
  - destruct (Qleb MIN_PAUSE_DURATION g).
    + rewrite IH, pysum_cons. lra.
    + apply IH.
Qed.

(** The mean of a non-empty list is at most its maximum. *)
Lemma mean_le_max (x : Q) (xs : list Q) :
  pysum (x :: xs) / Qnat (length (x :: xs)) <= fold_left pymax xs x.
Proof.
  destruct (fold_pymax_upper xs x) as [H1 H2].
  assert (Hall : Forall (fun y => y <= fold_left pymax xs x) (x :: xs))
    by (constructor; assumption).
  apply pysum_upper in Hall.
  apply Qle_shift_div_r; [apply Qnat_pos; cbn; lia |].
  rewrite Qmult_comm. exact Hall.
Qed.

Lemma max_pauses_nonneg (x : Q) (xs : list Q) :
  MIN_PAUSE_DURATION <= x -> 0 <= fold_left pymax xs x.
Proof.
  intros H. destruct (fold_pymax_upper xs x) as [H1 _].
  unfold MIN_PAUSE_DURATION in H. lra.
Qed.

(** [analyze_pauses] never raises, and what it returns. *)
Lemma analyze_pauses_ok (total_duration : Q) (segments : option (list segment)) :
  let ps := counted_pauses segments in
  exists average longest ppm ratio,
    analyze_pauses total_duration segments
    = Ok {| total_pauses := length ps;
            total_pause_duration := py_round (pysum ps) 2;
            average_pause_duration := py_round average 2;
            longest_pause := py_round longest 2;
            pauses_per_minute := py_round ppm 1;
            pause_ratio := py_round ratio 3 |}
    /\ 0 <= average /\ average <= longest
    /\ (if Qltb 0 total_duration
        then ppm == Qnat (length ps) / total_duration * 60
             /\ ratio == pysum ps / total_duration
        else ppm == 0 /\ ratio == 0).
Proof.
  intros ps. unfold analyze_pauses. fold ps.
  pose proof (counted_pauses_min segments) as Hmin. fold ps in Hmin.
  assert (Hstats : exists average longest,
    (if (0 <? length ps)%nat
     then average_pause ← truediv (pysum ps) (Qnat (length ps));
          longest_pause ← pymax_list ps;
          mret (average_pause, longest_pause)
     else mret (0.0, 0.0)) = Ok (average, longest)
    /\ 0 <= average /\ average <= longest).
  { destruct ps as [| x xs].
    - exists 0.0, 0.0. cbn. repeat split; lra.
    - exists (pysum (x :: xs) / Qnat (length (x :: xs))), (fold_left pymax xs x).
      change (0 <? length (x :: xs))%nat with true. cbv iota.
      rewrite truediv_nat_ok by (cbn; lia). monad_step. cbn [pymax_list].
      monad_step. split; [reflexivity |]. split.
      + apply Qdiv_nonneg; [apply pysum_pauses_nonneg, Hmin |].
        apply Qnat_pos. cbn. lia.
      + apply mean_le_max. }
  destruct Hstats as (average & longest & -> & Havg & Hlong).
  monad_step.
  destruct (Qltb 0 total_duration) eqn:Htd.
  - apply Qltb_true in Htd.
    rewrite !truediv_ok by lra. monad_step.
    eexists _, _, _, _. split; [reflexivity |].
    repeat split; auto; reflexivity.
  - monad_step. eexists _, _, _, _. split; [reflexivity |].
    repeat split; auto; reflexivity.
Qed.

End PauseFacts.

Section RateFacts.
Variable U : unicode_db.

Lemma rate_total_duration_pos (total_duration : Q) :
  0 < rate_total_duration total_duration.
Proof.
  unfold rate_total_duration. destruct (Qleb total_duration 0) eqn:E.
  - reflexivity.
  - apply Qleb_false in E. exact E.
Qed.

Lemma rate_pause_duration_sum (segments : option (list segment)) :
  rate_pause_duration segments == pysum (counted_pauses segments).
Proof.
  unfold rate_pause_duration. rewrite pause_duration_fold.
  unfold counted_pauses. lra.
Qed.

Lemma rate_pause_duration_nonneg (segments : option (list segment)) :
  0 <= rate_pause_duration segments.
Proof.
  rewrite rate_pause_duration_sum.
  apply pysum_pauses_nonneg, counted_pauses_min.
Qed.

Lemma rate_speech_duration_pos (total_duration : Q)
  (segments : option (list segment)) :
  0 < rate_speech_duration total_duration segments.
Proof.
  unfold rate_speech_duration.
  pose proof (pymax_l 0.1 (rate_total_duration total_duration
                           - rate_pause_duration segments)) as H.
  assert (0 < 0.1) by reflexivity. lra.
Qed.

(** [analyze_speech_rate] never raises, and what it returns. *)
Lemma analyze_speech_rate_ok (text : str) (total_duration : Q)
  (language : string) (segments : option (list segment)) :
  let d := rate_total_duration total_duration in
  let pd := rate_pause_duration segments in
  let sd := rate_speech_duration total_duration segments in
  let syllables := Qnat (count_syllables_text U text language) in
  let words := Qnat (length (_extract_words U text)) in
  exists cls,
    analyze_speech_rate U text total_duration language segments
    = Ok {| speaking_rate_spm := py_round (syllables / d * 60) 1;
            articulation_rate_spm := py_round (syllables / sd * 60) 1;
            words_per_minute := py_round (words / d * 60) 1;
            total_duration_seconds := py_round d 2;
            speech_duration_seconds := py_round sd 2;
            pause_duration_seconds := py_round pd 2;
            classification := cls |}.
Proof.
  intros d pd sd syllables words.
  pose proof (rate_total_duration_pos total_duration) as Hd.
  pose proof (rate_speech_duration_pos total_duration segments) as Hsd.
  unfold analyze_speech_rate.
  fold (rate_total_duration total_duration).
  fold (rate_pause_duration segments).
  fold (rate_speech_duration total_duration segments).
  fold d pd sd syllables words.
  rewrite (truediv_ok syllables d) by (subst d; lra). monad_step.
  rewrite (truediv_ok syllables sd) by (subst sd; lra). monad_step.
  rewrite (truediv_ok words d) by (subst d; lra). monad_step.
  eexists. reflexivity.
Qed.

(** With a duration of at least a tenth of a second, the time spent
    speaking is at most the whole duration. *)
Lemma speech_duration_le_total (total_duration : Q)
  (segments : option (list segment)) :
  total_duration <= 0 \/ 0.1 <= total_duration ->
  rate_speech_duration total_duration segments
  <= rate_total_duration total_duration.
Proof.
  intros Htd. unfold rate_speech_duration.
  pose proof (rate_pause_duration_nonneg segments) as Hpd.
  assert (H01 : 0.1 <= rate_total_duration total_duration).
  { unfold rate_total_duration. destruct (Qleb total_duration 0) eqn:E.
    - discriminate.
    - apply Qleb_false in E. destruct Htd; lra. }
  apply pymax_lub; lra.
Qed.

End RateFacts.

Section VocabularyFacts.
Variable U : unicode_db.

(** A set built from a list has at most as many elements. *)
Lemma size_list_to_set_le (l : list str) :
  (size (list_to_set l : gset str) <= length l)%nat.
Proof.
  induction l as [| x l IH]; cbn [list_to_set length].
  - rewrite size_empty. lia.
  - rewrite size_union_alt, size_singleton.
    assert (Hsub : (list_to_set l : gset str) ∖ {[x]} ⊆ list_to_set l)
      by (apply subseteq_difference_l; reflexivity).
    apply subseteq_size in Hsub. lia.
Qed.

Lemma analyze_vocabulary_empty (text : str) (language : string) :
  _extract_words U text = [] ->
  analyze_vocabulary U text language = Ok empty_vocabulary.
Proof. intros E. unfold analyze_vocabulary. rewrite E. reflexivity. Qed.

(** [analyze_vocabulary] never raises; the counts and the ratio it
    returns. *)
Lemma analyze_vocabulary_ok (text : str) (language : string) :
  let words := _extract_words U text in
  exists r,
    analyze_vocabulary U text language = Ok r
    /\ total_words r = length words
    /\ unique_words r = size (list_to_set words : gset str)
    /\ (words <> [] ->
        vocabulary_richness r
        = py_round (Qnat (unique_words r) / Qnat (total_words r)) 3).
Proof.
  intros words. destruct words as [| w ws] eqn:E.
  - exists empty_vocabulary. rewrite analyze_vocabulary_empty by exact E.
    repeat split. congruence.
  - unfold analyze_vocabulary. fold words. rewrite E.
    change (length (w :: ws) =? 0)%nat with false. cbv iota.
    rewrite !truediv_nat_ok by (cbn; lia). monad_step.
    eexists. split; [reflexivity |]. repeat split.
Qed.

Lemma ratio_unit (a b : nat) :
  (a <= b)%nat -> (0 < b)%nat -> 0 <= Qnat a / Qnat b <= 1.
Proof.
  intros Hab Hb. pose proof (Qnat_pos b Hb). pose proof (Qnat_nonneg a).
  pose proof (Qnat_le a b Hab).
  split; [apply Qdiv_nonneg | apply Qdiv_le_1]; assumption.
Qed.

End VocabularyFacts.

Section FluencyFacts.
Variable U : unicode_db.
Variable sequence_ratio : str -> str -> Q.

(** The hesitation rate before it is rounded: never an error, never
    negative, and zero when the duration is not positive. *)
Lemma raw_hesitation_rate_ok (total_duration : Q)
  (segments : option (list segment)) :
  exists h, raw_hesitation_rate total_duration segments = Ok h
            /\ 0 <= h /\ (total_duration <= 0 -> h == 0).
Proof.
  unfold raw_hesitation_rate.
  destruct (Qltb 0 total_duration) eqn:E.
  - apply Qltb_true in E. rewrite truediv_ok by lra. monad_step.
    eexists. split; [reflexivity |]. split; [| intros; lra].
    match goal with |- 0 <= ?a / _ * 60 =>
      pose proof (Qdiv_nonneg a total_duration (Qnat_nonneg _) E) end.
    lra.
  - exists 0.0. split; [reflexivity |]. split; [discriminate | reflexivity].
Qed.

(** [analyze_fluency] never raises, and what it returns. *)
Lemma analyze_fluency_ok (text : str) (total_duration : Q)
  (segments : option (list segment)) :
  let words := _extract_words U text in
  let repetitions := count_adjacent is_repetition words in
  let self_corrections :=
    count_adjacent (is_self_correction sequence_ratio) words in
  let incomplete := count_if (is_incomplete U) (resplit (u8 ".!?") text) in
  exists h penalty,
    raw_hesitation_rate total_duration segments = Ok h
    /\ analyze_fluency U sequence_ratio text total_duration segments
       = Ok {| fluency_score := py_round (pymax 0 (pymin 100 (100 - penalty))) 1;
               hesitation_rate := py_round h 2;
               repetition_count := repetitions;
               self_corrections_count := self_corrections;
               incomplete_sentences := incomplete |}
    /\ (if (0 <? length words)%nat
        then penalty == Qnat repetitions / Qnat (length words) * 20
                        + Qnat self_corrections / Qnat (length words) * 15
                        + h * 5 + Qnat incomplete * 3
        else penalty = 0).
Proof.
  intros words repetitions self_corrections incomplete.
  destruct (raw_hesitation_rate_ok total_duration segments) as (h & Hh & _).
  exists h. unfold analyze_fluency.
  fold words repetitions self_corrections incomplete.
  rewrite Hh. monad_step.
  destruct (0 <? length words)%nat eqn:En.
  - apply Nat.ltb_lt in En.
    rewrite !truediv_nat_ok by exact En. monad_step.
    eexists. split; [reflexivity |]. split; [reflexivity |]. lra.
  - monad_step. exists 0. repeat split.
Qed.

Lemma fluency_score_range (text : str) (total_duration : Q)
  (segments : option (list segment)) (f : FluencyMetrics) :
  analyze_fluency U sequence_ratio text total_duration segments = Ok f ->
  0 <= fluency_score f <= 100.
Proof.
  destruct (analyze_fluency_ok text total_duration segments)
    as (h & penalty & _ & -> & _).
  intros [= <-]. cbn [fluency_score].
  apply py_round_0_100, clamp_range.
Qed.

End FluencyFacts.

Section LanguageFacts.
Variable U : unicode_db.

Lemma size_PORTUGUESE_MARKERS : size PORTUGUESE_MARKERS = 51%nat.
Proof. vm_compute. reflexivity. Qed.

Lemma size_ENGLISH_MARKERS : size ENGLISH_MARKERS = 44%nat.
Proof. vm_compute. reflexivity. Qed.

(** The two scores are always defined and never negative. *)
Lemma language_scores_ok (text : str) :
  exists pt en, language_scores U text = Ok (pt, en) /\ 0 <= pt /\ 0 <= en.
Proof.
  unfold language_scores.
  rewrite size_PORTUGUESE_MARKERS, size_ENGLISH_MARKERS.
  rewrite truediv_nat_ok by lia. monad_step.
  rewrite truediv_nat_ok by lia. monad_step.
  rewrite truediv_nat_ok by lia. monad_step.
  eexists _, _. split; [reflexivity |].
  assert (H51 : 0 < Qnat 51) by (apply Qnat_pos; lia).
  assert (H44 : 0 < Qnat 44) by (apply Qnat_pos; lia).
  assert (Hlen : 0 < Qnat (Nat.max (length text) 1)) by (apply Qnat_pos; lia).
  split.
  - match goal with |- 0 <= ?a / ?b * 100 + pymin (?c / ?d * 100) 5 =>
      pose proof (Qdiv_nonneg a b (Qnat_nonneg _) H51);
      pose proof (Qdiv_nonneg c d (Qnat_nonneg _) Hlen);
      assert (0 <= pymin (c / d * 100) 5)
        by (apply pymin_glb; [lra | discriminate])
    end.
    lra.
  - match goal with |- 0 <= ?a / ?b * 100 =>
      pose proof (Qdiv_nonneg a b (Qnat_nonneg _) H44) end.
    lra.
Qed.

Lemma detect_language_empty (text : str) :
  _extract_words U text = [] ->
  detect_language U text = Ok unknown_language.
Proof. intros E. unfold detect_language. rewrite E. reflexivity. Qed.

(** [detect_language] never raises; the decision it takes on a text
    with at least one word, from the two scores. *)
Lemma detect_language_ok (text : str) :
  _extract_words U text <> [] ->
  exists pt en r,
    language_scores U text = Ok (pt, en)
    /\ detect_language U text = Ok r
    /\ portuguese_score r = py_round pt 2
    /\ english_score r = py_round en 2
    /\ (en < pt -> 5 < pt ->
        detected_language r = "pt-BR"%string
        /\ confidence r = py_round (pymin (pt / (pt + en + 0.1)) 0.99) 2)
    /\ (pt < en -> 5 < en ->
        detected_language r = "en-US"%string
        /\ confidence r = py_round (pymin (en / (pt + en + 0.1)) 0.99) 2)
    /\ (pt == en \/ (pt <= 5 /\ en <= 5) ->
        detected_language r = "pt-BR"%string
        /\ confidence r = py_round 0.5 2).
Proof.
  intros Hne.
  destruct (language_scores_ok text) as (pt & en & Hs & Hpt & Hen).
  exists pt, en. unfold detect_language.
  destruct (_extract_words U text) as [| w ws] eqn:E; [congruence |].
  change (length (w :: ws) =? 0)%nat with false. cbv iota.
  rewrite Hs. monad_step.
  destruct (Qltb en pt && Qltb 5 pt) eqn:C1.
  - apply andb_true_iff in C1 as [C1 C1']. apply Qltb_true in C1, C1'.
    rewrite truediv_ok by lra. monad_step.
    eexists. split; [reflexivity |]. split; [reflexivity |]. cbn.
    repeat split; intros; try reflexivity; exfalso; lra.
  - assert (C1' : pt <= en \/ pt <= 5).
    { apply andb_false_iff in C1 as [C1 | C1]; apply Qltb_false in C1; auto. }
    destruct (Qltb pt en && Qltb 5 en) eqn:C2.
    + apply andb_true_iff in C2 as [C2 C2']. apply Qltb_true in C2, C2'.
      rewrite truediv_ok by lra. monad_step.
      eexists. split; [reflexivity |]. split; [reflexivity |]. cbn.
      repeat split; intros; try reflexivity; exfalso; lra.
    + assert (C2' : en <= pt \/ en <= 5).
      { apply andb_false_iff in C2 as [C2 | C2]; apply Qltb_false in C2; auto. }
      monad_step.
      eexists. split; [reflexivity |]. split; [reflexivity |]. cbn.
      repeat split; intros; try reflexivity; exfalso; lra.
Qed.

Lemma confidence_half : py_round 0.5 2 == 0.5.
Proof. reflexivity. Qed.

End LanguageFacts.

Section FeedbackFacts.

Lemma feedback_pace_line (loc : locale) (sr : SpeechRateMetrics) (st : out) :
  exists m, is_pace_line m = true
            /\ (feedback_pace loc sr st).1 = st.1 ++ [(loc, m)].
Proof.
  unfold feedback_pace.
  destruct (String.eqb (classification sr) "fast");
    [| destruct (String.eqb (classification sr) "slow")];
    eexists; (split; [| appended; reflexivity]); reflexivity.
Qed.

Lemma feedback_wpm_line (loc : locale) (ideal : ideal_rate)
  (sr : SpeechRateMetrics) (st : out) :
  exists m, is_wpm_line m = true
            /\ (feedback_wpm loc ideal sr st).1 = st.1 ++ [(loc, m)].
Proof.
  unfold feedback_wpm.
  destruct (Qltb (words_per_minute sr) (rate_min ideal));
    [| destruct (Qltb (rate_max ideal) (words_per_minute sr))];
    eexists; (split; [| appended; reflexivity]); reflexivity.
Qed.

Lemma feedback_pauses_more (loc : locale) (sr : SpeechRateMetrics)
  (p : PauseMetrics) (st : out) :
  exists more, (feedback_pauses loc sr p st).1 = st.1 ++ more.
Proof.
  unfold feedback_pauses.
  destruct (Qltb 0.3 (pause_ratio p));
    [| destruct (Qltb (pause_ratio p) 0.1 && Qltb 10 (total_duration_seconds sr))];
    destruct (Qltb 3.0 (longest_pause p));
    appended; eexists; try reflexivity; symmetry; apply app_nil_r.
Qed.

Lemma feedback_vocabulary_more (loc : locale) (v : VocabularyMetrics)
  (st : out) :
  exists more, (feedback_vocabulary loc v st).1 = st.1 ++ more.
Proof.
  unfold feedback_vocabulary.
  destruct (Qltb (vocabulary_richness v) 0.4);
    [| destruct (Qltb 0.7 (vocabulary_richness v))];
    destruct (Qltb 0.1 (filler_words_ratio v));
    destruct (Qltb 0.15 (complex_words_ratio v));
    appended; eexists; try reflexivity; symmetry; apply app_nil_r.
Qed.

Lemma feedback_fluency_line (loc : locale) (f : FluencyMetrics) (st : out) :
  exists m more, is_fluency_line m = true
                 /\ (feedback_fluency loc f st).1 = st.1 ++ (loc, m) :: more.
Proof.
  unfold feedback_fluency.
  destruct (Qleb 80 (fluency_score f));
    [| destruct (Qleb 60 (fluency_score f))];
    destruct (3 <? repetition_count f)%nat;
    destruct (2 <? self_corrections_count f)%nat;
    appended; eexists _, _; (split; [| reflexivity]); reflexivity.
Qed.

(** The shape of the feedback list: the language line, the pace line and
    the rate line open it, and a fluency line follows. *)
Lemma generate_feedback_shape (ld : LanguageDetection)
  (sr : SpeechRateMetrics) (p : PauseMetrics) (v : VocabularyMetrics)
  (f : FluencyMetrics) :
  exists loc pace wpm middle level rest,
    (generate_feedback ld sr p v f).1
    = (loc, MsgLanguage (confidence ld)) :: (loc, pace) :: (loc, wpm)
      :: middle ++ (loc, level) :: rest
    /\ is_pace_line pace = true /\ is_wpm_line wpm = true
    /\ is_fluency_line level = true.
Proof.
  unfold generate_feedback.
  set (loc := if String.eqb (detected_language ld) "en-US"
              then English else Portuguese).
  set (ideal := default _ _).
  set (st0 := say loc (MsgLanguage (confidence ld)) ([], [])).
  destruct (feedback_pace_line loc sr st0) as (pace & Hpace & E1).
  set (st1 := feedback_pace loc sr st0) in *.
  destruct (feedback_wpm_line loc ideal sr st1) as (wpm & Hwpm & E2).
  set (st2 := feedback_wpm loc ideal sr st1) in *.
  destruct (feedback_pauses_more loc sr p st2) as (more3 & E3).
  set (st3 := feedback_pauses loc sr p st2) in *.
  destruct (feedback_vocabulary_more loc v st3) as (more4 & E4).
  set (st4 := feedback_vocabulary loc v st3) in *.
  destruct (feedback_fluency_line loc f st4) as (level & rest & Hlevel & E5).
  exists loc, pace, wpm, (more3 ++ more4), level, rest.
  split; [| auto].
  rewrite E5, E4, E3, E2, E1. subst st0. cbn [say fst app].
  rewrite <- !app_assoc. reflexivity.
Qed.

End FeedbackFacts.

Section ScoreFacts.

Lemma _score_speech_rate_range (sr : SpeechRateMetrics) (language : string) :
  0 <= _score_speech_rate sr language <= 100.
Proof.
  unfold _score_speech_rate. set (ideal := default _ _).
  destruct (Qleb (rate_min ideal) (words_per_minute sr)
            && Qleb (words_per_minute sr) (rate_max ideal)) eqn:E.
  - split; discriminate.
  - split; [apply pymax_l |]. apply pymax_lub; [discriminate |].
    destruct (Qltb (words_per_minute sr) (rate_min ideal)) eqn:E1.
    + apply Qltb_true in E1. lra.
    + apply Qltb_false in E1.
      apply andb_false_iff in E as [E | E]; apply Qleb_false in E; lra.
Qed.

Lemma _score_pauses_range (p : PauseMetrics) : 0 <= _score_pauses p <= 100.
Proof.
  unfold _score_pauses.
  set (base := if Qleb 0.1 (pause_ratio p) && Qleb (pause_ratio p) 0.25
               then 100.0
               else if Qltb (pause_ratio p) 0.1 then 80.0
                    else pymax 0 (100 - (pause_ratio p - 0.25) * 200)).
  assert (Hbase : 0 <= base <= 100).
  { subst base.
    destruct (Qleb 0.1 (pause_ratio p) && Qleb (pause_ratio p) 0.25) eqn:E;
      [split; discriminate |].
    destruct (Qltb (pause_ratio p) 0.1) eqn:E1; [split; discriminate |].
    apply Qltb_false in E1.
    split; [apply pymax_l |]. apply pymax_lub; [discriminate |].
    apply andb_false_iff in E as [E | E]; apply Qleb_false in E; lra. }
  split; [apply pymax_l |].
  apply pymax_lub; [discriminate |].
  destruct (Qltb 3.0 (longest_pause p)); lra.
Qed.

Lemma _score_vocabulary_range (v : VocabularyMetrics) :
  0 <= _score_vocabulary v <= 100.
Proof. unfold _score_vocabulary. apply clamp_range. Qed.

(** The weights add up to one. *)
Lemma weighted_sum_range (a b c d : Q) :
  0 <= a <= 100 -> 0 <= b <= 100 -> 0 <= c <= 100 -> 0 <= d <= 100 ->
  0 <= a * 0.25 + b * 0.15 + c * 0.25 + d * 0.35 <= 100.
Proof. intros. lra. Qed.

End ScoreFacts.

Section ComprehensiveFacts.
Variable U : unicode_db.
Variable sequence_ratio : str -> str -> Q.

Lemma detect_language_total (text : str) :
  exists r, detect_language U text = Ok r.
Proof.
  destruct (_extract_words U text) as [| w ws] eqn:E.
  - eexists. apply detect_language_empty, E.
  - destruct (detect_language_ok U text) as (pt & en & r & _ & H & _).
    + congruence.
    + eauto.
Qed.

(** [analyze_comprehensive] never raises: every input is analysed. *)
Lemma analyze_comprehensive_ok (text : str) (total_duration : Q)
  (segments : option (list segment)) (language_hint : option str) :
  exists ld sr p v f,
    analyze_speech_rate U text total_duration (detected_language ld) segments
    = Ok sr
    /\ analyze_pauses total_duration segments = Ok p
    /\ analyze_vocabulary U text (detected_language ld) = Ok v
    /\ analyze_fluency U sequence_ratio text total_duration segments = Ok f
    /\ analyze_comprehensive U sequence_ratio text total_duration segments
         language_hint
       = Ok {| language := ld; speech_rate := sr; pauses := p;
               vocabulary := v; fluency := f;
               overall_score :=
                 py_round (_score_speech_rate sr (detected_language ld) * 0.25
                           + _score_pauses p * 0.15
                           + _score_vocabulary v * 0.25
                           + fluency_score f * 0.35) 1;
               feedback := (generate_feedback ld sr p v f).1;
               recommendations := (generate_feedback ld sr p v f).2 |}.
Proof.
  unfold analyze_comprehensive.
  match goal with |- context [mbind _ ?m] =>
    assert (Hld : exists ld, m = Ok ld) end.
  { destruct language_hint as [[| c hint] |];
      try apply detect_language_total.
    destruct (existsb _ _); [eauto |].
    destruct (existsb _ _); [eauto |]. apply detect_language_total. }
  destruct Hld as (ld & ->). monad_step. exists ld.
  destruct (analyze_speech_rate_ok U text total_duration
              (detected_language ld) segments) as (cls & Hsr).
  destruct (analyze_pauses_ok total_duration segments)
    as (avg & longest & ppm & ratio & Hp & _).
  destruct (analyze_vocabulary_ok U text (detected_language ld))
    as (v & Hv & _).
  destruct (analyze_fluency_ok U sequence_ratio text total_duration segments)
    as (h & penalty & _ & Hf & _).
  rewrite Hsr, Hp, Hv, Hf. monad_step.
  eexists _, _, _, _. repeat split; reflexivity.
Qed.

End ComprehensiveFacts.

(* ===================================================================== *)
(** * The properties of the specification *)
(* ===================================================================== *)

(** ** Score bounds *)

(** Every score the engine computes lies in [[0,100]], on every input: the
    rate, pause and vocabulary sub-scores, the fluency score and the
    overall score of [analyze_comprehensive]. *)
Lemma engine_scores_in_range (U : unicode_db) (sequence_ratio : str -> str -> Q)
  (text : str) (total_duration : Q) (segments : option (list segment))
  (language_hint : option str) :
  exists r,
    analyze_comprehensive U sequence_ratio text total_duration segments
      language_hint = Ok r
    /\ 0 <= _score_speech_rate (speech_rate r)
              (detected_language (language r)) <= 100
    /\ 0 <= _score_pauses (pauses r) <= 100
    /\ 0 <= _score_vocabulary (vocabulary r) <= 100
    /\ 0 <= fluency_score (fluency r) <= 100
    /\ 0 <= overall_score r <= 100.
Proof.
  destruct (analyze_comprehensive_ok U sequence_ratio text total_duration
              segments language_hint)
    as (ld & sr & p & v & f & _ & _ & _ & Hf & ->).
  eexists. split; [reflexivity |]. cbn [speech_rate pauses vocabulary fluency
                                         language overall_score].
  pose proof (_score_speech_rate_range sr (detected_language ld)) as H1.
  pose proof (_score_pauses_range p) as H2.
  pose proof (_score_vocabulary_range v) as H3.
  pose proof (fluency_score_range U sequence_ratio _ _ _ _ Hf) as H4.
  repeat (split; [tauto |]).
  apply py_round_0_100, weighted_sum_range; assumption.
Qed.

(** The other scoring helpers of utils/metrics.py stay in [[0,100]] on the
    inputs of their documentation: ratios in [[0,1]], counts that are not
    negative, and an ideal range inside the optimal one, at most 50 words per
    minute from its ends. *)
Lemma calculate_wpm_score_range (omin omax imin imax wpm : Q) :
  omin <= imin -> imax <= omax -> imin - omin <= 50 -> omax - imax <= 50 ->
  0 <= Metrics.calculate_wpm_score omin omax imin imax wpm <= 100.
Proof.
  intros H1 H2 H3 H4. unfold Metrics.calculate_wpm_score.
  destruct (Qleb imin wpm && Qleb wpm imax) eqn:Ei; [split; discriminate |].
  destruct (Qleb omin wpm && Qleb wpm omax) eqn:Eo.
  - apply andb_true_iff in Eo as [Eo1 Eo2]. apply Qleb_true in Eo1, Eo2.
    destruct (Qltb wpm imin) eqn:El.
    + apply Qltb_true in El. split; lra.
    + apply Qltb_false in El.
      apply andb_false_iff in Ei as [Ei | Ei]; apply Qleb_false in Ei;
        split; lra.
  - destruct (Qltb wpm omin) eqn:El.
    + apply Qltb_true in El. split; [apply pymax_l |].
      apply pymax_lub; [discriminate | lra].
    + apply Qltb_false in El. split; [apply pymax_l |].
      apply pymax_lub; [discriminate |].
      apply andb_false_iff in Eo as [Eo | Eo]; apply Qleb_false in Eo; lra.
Qed.

Lemma calculate_pause_score_range (pause_count : nat) (total_duration : Q)
  (long_pause_count : nat) :
  exists score,
    Metrics.calculate_pause_score pause_count total_duration long_pause_count
    = Ok score
    /\ 0 <= score <= 100.
Proof.
  unfold Metrics.calculate_pause_score.
  destruct (Qleb total_duration 0) eqn:E.
  - exists 50.0. split; [reflexivity | split; discriminate].
  - apply Qleb_false in E.
    rewrite truediv_ok by discriminate. monad_step.
    assert (Hm : 0 < total_duration / 60.0)
      by (apply Qlt_shift_div_l; [reflexivity | lra]).
    rewrite truediv_ok by lra. monad_step.
    eexists. split; [reflexivity |]. split; [apply pymax_l |].
    apply pymax_lub; [discriminate |].
    pose proof (Qnat_nonneg (long_pause_count * 5)) as Hp.
    repeat match goal with |- context [if ?b then _ else _] => destruct b end;
      lra.
Qed.

Lemma calculate_vocabulary_score_range (ttr complex_word_ratio : Q)
  (content_word_count : nat) :
  0 <= ttr -> 0 <= complex_word_ratio ->
  0 <= Metrics.calculate_vocabulary_score ttr complex_word_ratio
         content_word_count <= 100.
Proof.
  intros Ht Hc. unfold Metrics.calculate_vocabulary_score.
  set (d := pymin 100 (ttr * 200)).
  set (v := pymin 100 (Qnat (content_word_count * 2))).
  assert (Hd : 0 <= d <= 100)
    by (split; [apply pymin_glb; [discriminate | lra] | apply pymin_l]).
  assert (Hv : 0 <= v <= 100).
  { split; [apply pymin_glb; [discriminate | apply Qnat_nonneg] | apply pymin_l]. }
  destruct (Qleb 0.1 complex_word_ratio && Qleb complex_word_ratio 0.2) eqn:E1.
  - lra.
  - destruct (Qltb complex_word_ratio 0.1) eqn:E2.
    + apply Qltb_true in E2. lra.
    + apply Qltb_false in E2.
      apply andb_false_iff in E1 as [E1 | E1]; apply Qleb_false in E1;
        [lra |].
      pose proof (pymax_l 50 (100 - (complex_word_ratio - 0.2) * 200)).
      assert (pymax 50 (100 - (complex_word_ratio - 0.2) * 200) <= 100)
        by (apply pymax_lub; [discriminate | lra]).
      lra.
Qed.

Lemma calculate_overall_score_range (a b c d : Q) :
  0 <= a <= 100 -> 0 <= b <= 100 -> 0 <= c <= 100 -> 0 <= d <= 100 ->
  0 <= Metrics.calculate_overall_score a b c d None <= 100.
Proof. intros. unfold Metrics.calculate_overall_score. cbn. lra. Qed.

(** [calculate_fluency_score] is bounded below, and above by 110 on ratios
    and counts that are not negative. *)
Lemma calculate_fluency_score_bounds (filler_ratio repetition_ratio : Q)
  (false_start_count total_words : Z) :
  0 <= filler_ratio -> 0 <= repetition_ratio -> (0 <= false_start_count)%Z ->
  0 <= Metrics.calculate_fluency_score filler_ratio repetition_ratio
         false_start_count total_words <= 110.
Proof.
  intros Hf Hr Hc. unfold Metrics.calculate_fluency_score.
  split; [apply pymax_l |]. apply pymax_lub; [discriminate |].
  assert (Hp : 0 <= inject_Z (false_start_count * 5)).
  { change 0 with (inject_Z 0). rewrite <- Zle_Qle. lia. }
  destruct ((100 <? total_words)%Z && Qltb (filler_ratio + repetition_ratio) 0.05);
    lra.
Qed.

(** C1.  The claim bounds every score by 100, the standalone helper
    [calculate_fluency_score] of utils/metrics.py included.  With no filler,
    no repetition, no false start and 101 words the helper adds its bonus of
    10 to the starting score of 100 and returns 110: above the bound, and
    above the "between 0 and 100" of its own documentation. *)
Theorem calculate_fluency_score_exceeds_100 :
  Metrics.calculate_fluency_score 0 0 0 101 == 110
  /\ ~ Metrics.calculate_fluency_score 0 0 0 101 <= 100.
Proof.
  split.
  - reflexivity.
  - intros H. vm_compute in H. apply H. reflexivity.
Qed.

(** ** Language detection *)




(** ** Fluency *)

(** On a text whose adjacent words are all identical [difflib] is not
    consulted: the result is the same for every ratio function. *)
Lemma analyze_fluency_aaa (U : unicode_db) (sequence_ratio : str -> str -> Q) :
  analyze_fluency U sequence_ratio (u8 "a a a") 10 None
  = analyze_fluency U ratio_unused (u8 "a a a") 10 None.
Proof. reflexivity. Qed.




(** ** Speaking rate and articulation rate *)




(** ** Syllables of English words *)

(** The counter of the engine never returns less than one. *)
Lemma engine_syllable_floor (U : unicode_db) (word : str) :
  (1 <= SpeechAnalysisService._count_syllables_english U word)%nat.
Proof. unfold SpeechAnalysisService._count_syllables_english. lia. Qed.

(** The engine has no table of exceptions; on the words of the table of
    utils/text.py its rules give one syllable all the same. *)
Lemma engine_on_exception_words (U : unicode_db) :
  Forall (fun w => SpeechAnalysisService._count_syllables_english U (u8 w) = 1%nat)
    [ "the"; "be"; "are"; "were"; "have"; "give"; "live";
      "love"; "move"; "come" ]%string.
Proof. repeat constructor. Qed.

(** The rule for a final "le" after a consonant is in the engine. *)
Lemma engine_le_rule (U : unicode_db) :
  SpeechAnalysisService._count_syllables_english U (u8 "table") = 2%nat.
Proof. reflexivity. Qed.

(** C5.  The claim gives the counter of the engine the correction for a
    final "ed".  On "jumped" (no "t" or "d" before the ending) the counter
    of the engine counts the two runs of vowels and returns 2: it has no
    such correction, and no table of exceptions either.  The counter of the
    same name in utils/text.py applies the correction and returns 1. *)
Theorem engine_counter_has_no_ed_rule (U : unicode_db) :
  SpeechAnalysisService._count_syllables_english U (u8 "jumped") = 2%nat
  /\ count_syllables U (u8 "jumped") "en-US" = 2%nat
  /\ TextUtils._count_syllables_english U (u8 "jumped") = 1%nat.
Proof. repeat split. Qed.

(** ** Durations that are not positive *)

(** C6, as stated, fails: with a duration of 0 and one gap of 2.5 s the
    pauses per minute and the hesitation rate are 0, where a duration of
    1.0 s gives 60 for both. *)
Lemma pause_rates_not_normalized :
  exists p p1 f f1,
    analyze_pauses 0 long_gap = Ok p
    /\ analyze_pauses 1.0 long_gap = Ok p1
    /\ analyze_fluency latin1_db ratio_unused (u8 "bom dia") 0 long_gap = Ok f
    /\ analyze_fluency latin1_db ratio_unused (u8 "bom dia") 1.0 long_gap = Ok f1
    /\ pauses_per_minute p == 0 /\ pauses_per_minute p1 == 60
    /\ hesitation_rate f == 0 /\ hesitation_rate f1 == 60
    /\ ~ pauses_per_minute p == pauses_per_minute p1
    /\ ~ hesitation_rate f == hesitation_rate f1.
Proof.
  eexists _, _, _, _.
  do 8 (split; [vm_compute; reflexivity |]).
  split; intros H; vm_compute in H; discriminate H.
Qed.

(** C6, amended.  A duration that is not positive is never rejected.  The
    rate analyzer replaces it by 1.0: its whole result, the speaking rate
    and the words per minute included, is the one of a duration of 1.0 s.
    The pause analyzer and the fluency analyzer do not: they report 0
    pauses per minute, a pause ratio of 0 and a hesitation rate of 0. *)
Theorem nonpositive_duration (U : unicode_db)
  (sequence_ratio : str -> str -> Q) (text : str) (total_duration : Q)
  (segments : option (list segment)) (language_hint : option str) :
  total_duration <= 0 ->
  (exists r, analyze_comprehensive U sequence_ratio text total_duration
               segments language_hint = Ok r)
  /\ (forall language,
       analyze_speech_rate U text total_duration language segments
       = analyze_speech_rate U text 1.0 language segments)
  /\ (exists p, analyze_pauses total_duration segments = Ok p
                /\ pauses_per_minute p == 0 /\ pause_ratio p == 0)
  /\ (exists f, analyze_fluency U sequence_ratio text total_duration segments
                = Ok f
                /\ hesitation_rate f == 0).
Proof.
  intros Htd.
  assert (Hle : Qleb total_duration 0 = true) by (apply Qleb_true, Htd).
  assert (Hlt : Qltb 0 total_duration = false) by (apply Qltb_false, Htd).
  split; [| split; [| split]].
  - destruct (analyze_comprehensive_ok U sequence_ratio text total_duration
                segments language_hint)
      as (ld & sr & p & v & f & _ & _ & _ & _ & H).
    eexists. exact H.
  - intros language. unfold analyze_speech_rate. rewrite Hle. reflexivity.
  - destruct (analyze_pauses_ok total_duration segments)
      as (avg & longest & ppm & ratio & Hp & _ & _ & Hr).
    rewrite Hlt in Hr. destruct Hr as [Hppm Hratio].
    eexists. split; [exact Hp |]. cbn [pauses_per_minute pause_ratio].
    rewrite Hppm, Hratio. split; apply (py_round_Z 0).
  - destruct (analyze_fluency_ok U sequence_ratio text total_duration segments)
      as (h & penalty & Hh & Hf & _).
    destruct (raw_hesitation_rate_ok total_duration segments)
      as (h' & Hh' & _ & Hzero).
    rewrite Hh in Hh'. injection Hh' as <-.
    eexists. split; [exact Hf |]. cbn [hesitation_rate].
    rewrite (Hzero Htd). apply (py_round_Z 0).
Qed.

Lemma nonpositive_duration_witness :
  (exists r, analyze_comprehensive latin1_db ratio_unused (u8 "bom dia") 0
               spec_segments None = Ok r)
  /\ analyze_speech_rate latin1_db (u8 "bom dia") 0 "pt-BR" spec_segments
     = analyze_speech_rate latin1_db (u8 "bom dia") 1.0 "pt-BR" spec_segments.
Proof.
  destruct (nonpositive_duration latin1_db ratio_unused (u8 "bom dia") 0
              spec_segments None) as (H1 & H2 & _).
  - vm_compute. discriminate.
  - split; [exact H1 | apply H2].
Defined.

(** ** Vocabulary *)

(** C7.  [analyze_vocabulary] never raises; it returns at most as many
    unique words as words and a type-token ratio in [[0,1]]; for a
    transcript with no word every metric it returns is zero.  The helper
    [calculate_ttr] never raises either, and its ratio is in [[0,1]], zero
    for the empty list. *)
Theorem vocabulary_invariants (U : unicode_db) (text : str)
  (language : string) (words : list str) :
  (exists r,
     analyze_vocabulary U text language = Ok r
     /\ (unique_words r <= total_words r)%nat
     /\ 0 <= vocabulary_richness r <= 1
     /\ (_extract_words U text = [] -> r = empty_vocabulary))
  /\ (exists t,
        Metrics.calculate_ttr words = Ok t
        /\ 0 <= t <= 1
        /\ (words = [] -> t == 0)).
Proof.
  split.
  - destruct (analyze_vocabulary_ok U text language) as (r & Hr & Ht & Hu & Hrich).
    exists r. split; [exact Hr |].
    assert (Hle : (unique_words r <= total_words r)%nat).
    { rewrite Ht, Hu. apply size_list_to_set_le. }
    split; [exact Hle |].
    destruct (_extract_words U text) as [| w ws] eqn:E.
    + rewrite analyze_vocabulary_empty in Hr by exact E. injection Hr as <-.
      split; [split; discriminate | reflexivity].
    + split; [| discriminate].
      rewrite Hrich by discriminate.
      apply (py_round_range 0 1), ratio_unit; [exact Hle |].
      rewrite Ht. cbn. lia.
  - destruct words as [| w ws].
    + exists 0.0. split; [reflexivity |]. split; [split; discriminate | reflexivity].
    + unfold Metrics.calculate_ttr.
      rewrite truediv_nat_ok by (cbn; lia).
      eexists. split; [reflexivity |]. split; [| discriminate].
      apply ratio_unit; [apply size_list_to_set_le | cbn; lia].
Qed.

Lemma vocabulary_invariants_witness :
  exists r,
    analyze_vocabulary latin1_db (u8 "123 456") "pt-BR" = Ok r
    /\ r = empty_vocabulary.
Proof.
  destruct (vocabulary_invariants latin1_db (u8 "123 456") "pt-BR" [])
    as [(r & Hr & _ & _ & Hzero) _].
  exists r. split; [exact Hr |]. apply Hzero. vm_compute. reflexivity.
Defined.

(** ** Pauses *)




(** ** Word extraction *)

Lemma between_spec (lo hi c : N) :
  between lo hi c = true <-> (lo <= c <= hi)%N.
Proof.
  unfold between. rewrite andb_true_iff, !N.leb_le. reflexivity.
Qed.

(** Every letter of the pattern is a word character. *)
Lemma word_class_is_word (U : unicode_db) (c : N) :
  word_class c = true -> is_word U c = true.
Proof.
  unfold word_class. intros H. apply orb_true_iff in H as [H | H].
  - unfold is_word, latin1_alnum. rewrite H.
    apply between_spec in H.
    replace (c <? 256)%N with true by (symmetry; apply N.ltb_lt; lia).
    rewrite !orb_true_r. reflexivity.
  - unfold mem, ACCENTED_LETTERS in H.
    apply existsb_exists in H as (d & Hd & E).
    apply N.eqb_eq in E. subst d. cbn [In] in Hd.
    repeat (destruct Hd as [<- | Hd]; [reflexivity |]). destruct Hd.
Qed.

Lemma lower_non_letters (U : unicode_db) (text : str) :
  forallb (non_letter U) text = true ->
  forallb (fun d => negb (word_class d)) (lower U text) = true.
Proof.
  induction text as [| c text IH]; [reflexivity |].
  cbn [forallb lower flat_map]. intros H.
  apply andb_true_iff in H as [Hc Ht].
  rewrite forallb_app. apply andb_true_iff. split; [exact Hc | apply IH, Ht].
Qed.

(** The digits and the symbols of ASCII are such characters. *)
Lemma ascii_non_letter (U : unicode_db) (c : N) :
  (c < 128)%N -> between 65 90 c = false -> between 97 122 c = false ->
  non_letter U c = true.
Proof.
  intros Hc Hup Hlow. unfold non_letter, lower_cp. rewrite Hup.
  replace (between 192 214 c) with false
    by (symmetry; apply not_true_iff_false; rewrite between_spec; lia).
  replace (between 216 222 c) with false
    by (symmetry; apply not_true_iff_false; rewrite between_spec; lia).
  replace (c <? 256)%N with true by (symmetry; apply N.ltb_lt; lia).
  cbn. unfold word_class. rewrite Hlow.
  replace (mem c _) with false; [reflexivity |].
  symmetry. apply not_true_iff_false. unfold mem, ACCENTED_LETTERS.
  rewrite existsb_exists.
  intros (d & Hd & E). apply N.eqb_eq in E. subst d. cbn [In] in Hd.
  repeat (destruct Hd as [<- | Hd]; [lia |]). destruct Hd.
Qed.

Lemma _extract_words_non_letters (U : unicode_db) (text : str) :
  forallb (non_letter U) text = true -> _extract_words U text = [].
Proof.
  intros H. unfold _extract_words, findall_words.
  apply findall_from_none, lower_non_letters, H.
Qed.

(** C9, as stated, fails: "don't" and "covid-19" are tokens, with no
    space inside, that contain a character that is no letter; the apostrophe
    and the hyphen are no word characters, so the runs of letters beside
    them are matched and kept as words: the tokens are not dropped. *)
Lemma token_with_non_letter_not_dropped :
  split latin1_db (u8 "don't") = [u8 "don't"]
  /\ forallb word_class (lower latin1_db (u8 "don't")) = false
  /\ _extract_words latin1_db (u8 "don't") = [u8 "don"; u8 "t"]
  /\ _extract_words latin1_db (u8 "don't") <> []
  /\ split latin1_db (u8 "covid-19") = [u8 "covid-19"]
  /\ forallb word_class (lower latin1_db (u8 "covid-19")) = false
  /\ _extract_words latin1_db (u8 "covid-19") = [u8 "covid"]
  /\ _extract_words latin1_db (u8 "covid-19") <> [].
Proof.
  repeat split; try (vm_compute; reflexivity); vm_compute; discriminate.
Qed.

(** C9, amended.  The words extracted are the maximal runs of word
    characters (letters, digits, underscore) of the lowered text all of
    whose characters are letters of the pattern: a run with a digit, an
    underscore or a letter outside the pattern gives no word at all, and a
    character that is no word character only separates runs.  A transcript
    made only of digits and symbols has no word, as the empty transcript:
    the language is "unknown" with zero confidence and scores, every
    vocabulary metric is zero, the rate metrics are those of the empty
    transcript, and the fluency score is 100. *)
Theorem symbols_only_transcript (U : unicode_db)
  (sequence_ratio : str -> str -> Q) (text : str) (language : string)
  (total_duration : Q) (segments : option (list segment)) :
  forallb (non_letter U) text = true ->
  (forall t, _extract_words U t
             = List.filter (forallb word_class) (word_runs U (lower U t)))
  /\ _extract_words U text = []
  /\ _extract_words U [] = []
  /\ detect_language U text = Ok unknown_language
  /\ detect_language U [] = Ok unknown_language
  /\ analyze_vocabulary U text language = Ok empty_vocabulary
  /\ analyze_vocabulary U [] language = Ok empty_vocabulary
  /\ analyze_speech_rate U text total_duration language segments
     = analyze_speech_rate U [] total_duration language segments
  /\ (exists f f0,
        analyze_fluency U sequence_ratio text total_duration segments = Ok f
        /\ analyze_fluency U sequence_ratio [] total_duration segments = Ok f0
        /\ fluency_score f == 100 /\ fluency_score f0 == 100).
Proof.
  intros H.
  pose proof (_extract_words_non_letters U text H) as E.
  assert (E0 : _extract_words U [] = []) by reflexivity.
  split.
  { intros t. unfold _extract_words.
    apply findall_words_word_runs. apply word_class_is_word. }
  split; [exact E |]. split; [exact E0 |].
  split; [apply detect_language_empty, E |].
  split; [apply detect_language_empty, E0 |].
  split; [apply analyze_vocabulary_empty, E |].
  split; [apply analyze_vocabulary_empty, E0 |].
  split.
  { unfold analyze_speech_rate, count_syllables_text. rewrite E, E0. reflexivity. }
  destruct (analyze_fluency_ok U sequence_ratio text total_duration segments)
    as (h & penalty & _ & Hf & Hp).
  destruct (analyze_fluency_ok U sequence_ratio [] total_duration segments)
    as (h0 & penalty0 & _ & Hf0 & Hp0).
  rewrite E in Hp. rewrite E0 in Hp0. cbn in Hp, Hp0. subst penalty penalty0.
  eexists _, _. split; [exact Hf |]. split; [exact Hf0 |].
  split; reflexivity.
Qed.

Lemma symbols_only_transcript_witness :
  _extract_words latin1_db (u8 "123. 456!") = []
  /\ detect_language latin1_db (u8 "123. 456!") = Ok unknown_language
  /\ analyze_vocabulary latin1_db (u8 "123. 456!") "pt-BR" = Ok empty_vocabulary.
Proof.
  destruct (symbols_only_transcript latin1_db ratio_unused (u8 "123. 456!")
              "pt-BR" 10 None)
    as (_ & H1 & _ & H2 & _ & H3 & _).
  - vm_compute. reflexivity.
  - split; [exact H1 |]. split; [exact H2 | exact H3].
Defined.

(** The count of incomplete sentences is no part of that agreement: the
    two pieces "123" and " 456" are counted, and the score is 100 all the
    same since no penalty applies without a word. *)
Example symbols_only_incomplete_sentences :
  exists f,
    analyze_fluency latin1_db ratio_unused (u8 "123. 456") 10 None = Ok f
    /\ incomplete_sentences f = 2%nat /\ fluency_score f == 100.
Proof. eexists. repeat split; vm_compute; reflexivity. Qed.

(** An apostrophe is no word character: it ends a run, and the letters on
    its two sides are two words. *)
Example extract_words_apostrophe :
  _extract_words latin1_db (u8 "Don't use abc123 or e_mail")
  = map u8 ["don"; "t"; "use"; "or"]%string.
Proof. vm_compute. reflexivity. Qed.

(** ** Feedback *)

(** C10.  For every metrics input the feedback list is not empty: it
    opens with the language line, the pace line and the words-per-minute
    line, a fluency line follows, and so it has at least four entries. *)
Theorem feedback_has_four_lines (ld : LanguageDetection)
  (sr : SpeechRateMetrics) (p : PauseMetrics) (v : VocabularyMetrics)
  (f : FluencyMetrics) :
  let fb := (generate_feedback ld sr p v f).1 in
  fb <> []
  /\ (4 <= length fb)%nat
  /\ existsb (fun line => is_language_line line.2) fb = true
  /\ existsb (fun line => is_pace_line line.2) fb = true
  /\ existsb (fun line => is_wpm_line line.2) fb = true
  /\ existsb (fun line => is_fluency_line line.2) fb = true.
Proof.
  intros fb.
  destruct (generate_feedback_shape ld sr p v f)
    as (loc & pace & wpm & middle & level & rest & E & Hpace & Hwpm & Hlevel).
  fold fb in E. rewrite E.
  split; [discriminate |].
  split; [cbn [length]; rewrite length_app; cbn [length]; lia |].
  split; [reflexivity |].
  split.
  { apply existsb_exists. exists (loc, pace).
    split; [right; left; reflexivity | exact Hpace]. }
  split.
  { apply existsb_exists. exists (loc, wpm).
    split; [do 2 right; left; reflexivity | exact Hwpm]. }
  apply existsb_exists. exists (loc, level).
  split; [| exact Hlevel].
  do 3 right. apply in_or_app. right. left. reflexivity.
Qed.


(* ===================================================================== *)
(** * Further properties of the code *)
(* ===================================================================== *)

(** ** Words and syllables in the engine *)

Lemma forallb_rev {A : Type} (p : A -> bool) (l : list A) :
  forallb p (rev l) = forallb p l.
Proof.
  induction l as [| x l IH]; [reflexivity |].
  cbn [rev forallb]. rewrite forallb_app, IH. cbn.
  rewrite andb_true_r. apply andb_comm.
Qed.

Lemma word_runs_acc_words (U : unicode_db) (cur s : str) :
  forallb (is_word U) cur = true ->
  Forall (fun w => w <> [] /\ forallb (is_word U) w = true)
         (word_runs_acc U cur s).
Proof.
  revert cur. induction s as [| c s IH]; intros cur Hcur; cbn [word_runs_acc].
  - destruct cur as [| x xs]; constructor; [| constructor].
    split.
    + intros E. apply (f_equal (@length N)) in E.
      rewrite length_rev in E. discriminate.
    + rewrite forallb_rev. exact Hcur.
  - destruct (is_word U c) eqn:Hc.
    + apply IH. cbn. rewrite Hc. exact Hcur.
    + destruct cur as [| x xs]; [apply IH; reflexivity |].
      constructor; [| apply IH; reflexivity].
      split.
      * intros E. apply (f_equal (@length N)) in E.
        rewrite length_rev in E. discriminate.
      * rewrite forallb_rev. exact Hcur.
Qed.

(** A letter of the pattern is its own lower case and is no space. *)
Lemma word_class_lower (U : unicode_db) (c : N) :
  word_class c = true -> lower_cp U c = [c] /\ is_space U c = false.
Proof.
  unfold word_class. intros H. apply orb_true_iff in H as [H | H].
  - apply between_spec in H. unfold lower_cp, is_space, between.
    repeat match goal with
           | |- context [(?a <=? ?b)%N] =>
               destruct (N.leb_spec a b); try lia
           | |- context [(?a <? ?b)%N] =>
               destruct (N.ltb_spec a b); try lia
           | |- context [(?a =? ?b)%N] =>
               destruct (N.eqb_spec a b); try lia
           end; cbn; auto.
  - unfold mem, ACCENTED_LETTERS in H.
    apply existsb_exists in H as (d & Hd & E).
    apply N.eqb_eq in E. subst d. cbn [In] in Hd.
    repeat (destruct Hd as [<- | Hd]; [split; reflexivity |]). destruct Hd.
Qed.

Lemma lower_letters (U : unicode_db) (w : str) :
  forallb word_class w = true -> lower U w = w.
Proof.
  induction w as [| c w IH]; [reflexivity |]. cbn [forallb lower flat_map].
  intros H. apply andb_true_iff in H as [Hc Hw].
  destruct (word_class_lower U c Hc) as [-> _]. cbn [app].
  f_equal. apply IH, Hw.
Qed.

Lemma lstrip_head (U : unicode_db) (c : N) (w : str) :
  is_space U c = false -> lstrip U (c :: w) = c :: w.
Proof. intros H. cbn. rewrite H. reflexivity. Qed.

(** Stripping changes nothing in a text without whitespace. *)
Lemma strip_no_space (U : unicode_db) (w : str) :
  forallb (fun c => negb (is_space U c)) w = true -> strip U w = w.
Proof.
  intros H. unfold strip.
  assert (Hl : forall v, forallb (fun c => negb (is_space U c)) v = true ->
                         lstrip U v = v).
  { intros [| c v] Hv; [reflexivity |]. simpl in Hv.
    apply andb_true_iff in Hv as [Hc _]. apply negb_true_iff in Hc.
    apply lstrip_head, Hc. }
  rewrite (Hl w H), Hl, rev_involutive; [reflexivity |].
  rewrite forallb_rev. exact H.
Qed.

Lemma filter_all {A : Type} (p : A -> bool) (l : list A) :
  forallb p l = true -> List.filter p l = l.
Proof.
  induction l as [| x l IH]; [reflexivity |]. cbn. intros H.
  apply andb_true_iff in H as [-> Hl]. f_equal. apply IH, Hl.
Qed.

Lemma letters_no_space (U : unicode_db) (w : str) :
  forallb word_class w = true ->
  forallb (fun c => negb (is_space U c)) w = true
  /\ forallb (is_word U) w = true.
Proof.
  induction w as [| c w IH]; [split; reflexivity |]. cbn [forallb].
  intros H. apply andb_true_iff in H as [Hc Hw].
  destruct (IH Hw) as [H1 H2].
  destruct (word_class_lower U c Hc) as [_ Hs].
  rewrite Hs, H1, H2, (word_class_is_word U c Hc). split; reflexivity.
Qed.

Lemma _extract_words_letters (U : unicode_db) (text : str) :
  Forall (fun w => w <> [] /\ forallb word_class w = true)
         (_extract_words U text).
Proof.
  unfold _extract_words.
  rewrite (findall_words_word_runs U word_class (word_class_is_word U)).
  apply List.Forall_forall. intros w Hw.
  apply filter_In in Hw as [Hin Hall].
  pose proof (word_runs_acc_words U [] (lower U text) eq_refl) as Hruns.
  rewrite List.Forall_forall in Hruns.
  destruct (Hruns w Hin) as [Hne _]. split; assumption.
Qed.

(** The engine counts at least one syllable in a word of letters. *)
Lemma count_syllables_letters (U : unicode_db) (w : str) (language : string) :
  w <> [] -> forallb word_class w = true ->
  (1 <= count_syllables U w language)%nat.
Proof.
  intros Hne Hw. unfold count_syllables.
  destruct (letters_no_space U w Hw) as [Hs Hword].
  rewrite (lower_letters U w Hw), (strip_no_space U w Hs).
  destruct w as [| c w]; [congruence |].
  rewrite (filter_all _ _ Hword).
  destruct (String.eqb language "en-US").
  - unfold SpeechAnalysisService._count_syllables_english. lia.
  - unfold SpeechAnalysisService._count_syllables_portuguese. lia.
Qed.

Lemma list_sum_at_least (A : Type) (f : A -> nat) (l : list A) :
  Forall (fun x => (1 <= f x)%nat) l -> (length l <= list_sum (map f l))%nat.
Proof.
  induction 1 as [| x l Hx _ IH]; [cbn; lia |].
  cbn [length map].
  change (list_sum (f x :: map f l)) with (f x + list_sum (map f l))%nat.
  lia.
Qed.

Lemma count_syllables_text_words (U : unicode_db) (text : str)
  (language : string) :
  (length (_extract_words U text) <= count_syllables_text U text language)%nat.
Proof.
  unfold count_syllables_text. apply list_sum_at_least.
  eapply List.Forall_impl; [| apply _extract_words_letters].
  intros w [Hne Hw]. cbn beta. apply count_syllables_letters; assumption.
Qed.

(** The whole result of the rate analyzer. *)
Lemma analyze_speech_rate_eq (U : unicode_db) (text : str)
  (total_duration : Q) (language : string) (segments : option (list segment)) :
  let d := rate_total_duration total_duration in
  let sd := rate_speech_duration total_duration segments in
  let syllables := Qnat (count_syllables_text U text language) in
  let words := Qnat (length (_extract_words U text)) in
  analyze_speech_rate U text total_duration language segments
  = Ok {| speaking_rate_spm := py_round (syllables / d * 60) 1;
          articulation_rate_spm := py_round (syllables / sd * 60) 1;
          words_per_minute := py_round (words / d * 60) 1;
          total_duration_seconds := py_round d 2;
          speech_duration_seconds := py_round sd 2;
          pause_duration_seconds := py_round (rate_pause_duration segments) 2;
          classification :=
            rate_classification (syllables / sd * 60) language |}.
Proof.
  intros d sd syllables words.
  pose proof (rate_total_duration_pos total_duration) as Hd.
  pose proof (rate_speech_duration_pos total_duration segments) as Hsd.
  unfold analyze_speech_rate.
  fold (rate_total_duration total_duration).
  fold (rate_pause_duration segments).
  fold (rate_speech_duration total_duration segments).
  fold d sd syllables words.
  rewrite (truediv_ok syllables d) by (subst d; lra). monad_step.
  rewrite (truediv_ok syllables sd) by (subst sd; lra). monad_step.
  rewrite (truediv_ok words d) by (subst d; lra). monad_step.
  reflexivity.
Qed.

(** The slow threshold of every language is 180 or 200. *)
Lemma thresholds_of_cases (language : string) :
  thresholds_of language = {| slow := 180; fast := 250 |}
  \/ thresholds_of language = {| slow := 200; fast := 280 |}.
Proof.
  unfold thresholds_of, SPEECH_RATE_THRESHOLDS.
  destruct (decide (language = "pt-BR"%string)) as [-> | Hpt]; [left; reflexivity |].
  destruct (decide (language = "en-US"%string)) as [-> | Hen]; [right; reflexivity |].
  left. rewrite lookup_insert_ne by congruence.
  rewrite lookup_singleton_ne by congruence. reflexivity.
Qed.

(** X1.  [count_syllables] of the engine returns 0 exactly for a word
    that has no word character left once lowered and stripped (an empty
    word, spaces, punctuation), and at least 1 for every other word, in
    Portuguese and in English. *)
Theorem engine_count_syllables_floor (U : unicode_db) (word : str)
  (language : string) :
  (count_syllables U word language = 0%nat
   <-> List.filter (is_word U) (strip U (lower U word)) = [])
  /\ (List.filter (is_word U) (strip U (lower U word)) <> []
      -> (1 <= count_syllables U word language)%nat).
Proof.
  assert (H : count_syllables U word language = 0%nat
              <-> List.filter (is_word U) (strip U (lower U word)) = []).
  { unfold count_syllables.
    destruct (strip U (lower U word)) as [| c w]; [split; reflexivity |].
    destruct (List.filter (is_word U) (c :: w)) as [| d v];
      [split; reflexivity |].
    split; [| discriminate].
    destruct (String.eqb language "en-US").
    - unfold SpeechAnalysisService._count_syllables_english. lia.
    - unfold SpeechAnalysisService._count_syllables_portuguese. lia. }
  split; [exact H |]. intros Hne.
  destruct (count_syllables U word language) eqn:E; [| lia].
  exfalso. apply Hne, H. reflexivity.
Qed.

Lemma engine_count_syllables_floor_witness :
  (1 <= count_syllables latin1_db (u8 " Fala! ") "pt-BR")%nat.
Proof.
  apply (engine_count_syllables_floor latin1_db (u8 " Fala! ") "pt-BR").
  vm_compute. discriminate.
Defined.

(** X2.  Every word the engine extracts is a non-empty run of letters of
    the pattern, already in lower case. *)
Theorem extracted_words_are_letters (U : unicode_db) (text : str) :
  Forall (fun w => w <> [] /\ forallb word_class w = true /\ lower U w = w)
         (_extract_words U text).
Proof.
  eapply List.Forall_impl; [| apply _extract_words_letters].
  intros w [Hne Hw]. cbn beta.
  split; [exact Hne |]. split; [exact Hw | apply lower_letters, Hw].
Qed.

(** X3.  The engine counts at least one syllable per extracted word, so
    the syllables of a text are at least its words and the speaking rate
    returned is at least the words per minute returned. *)
Theorem speaking_rate_at_least_wpm (U : unicode_db) (text : str)
  (total_duration : Q) (language : string) (segments : option (list segment)) :
  exists r,
    analyze_speech_rate U text total_duration language segments = Ok r
    /\ (length (_extract_words U text)
        <= count_syllables_text U text language)%nat
    /\ words_per_minute r <= speaking_rate_spm r.
Proof.
  eexists. split; [apply analyze_speech_rate_eq |].
  pose proof (count_syllables_text_words U text language) as Hle.
  split; [exact Hle |]. cbn [words_per_minute speaking_rate_spm].
  apply py_round_mono.
  pose proof (rate_total_duration_pos total_duration) as Hd.
  apply Qnat_le in Hle.
  assert (H : Qnat (length (_extract_words U text))
                / rate_total_duration total_duration
              <= Qnat (count_syllables_text U text language)
                 / rate_total_duration total_duration).
  { apply Qle_shift_div_l; [exact Hd |].
    unfold Qdiv. rewrite <- Qmult_assoc, (Qmult_comm (/ _)), Qmult_inv_r by lra.
    lra. }
  lra.
Qed.

(** X4.  A transcript without words has speaking rate, articulation rate
    and words per minute zero and is classified as slow, for every
    duration, language and list of segments. *)
Theorem wordless_transcript_is_slow (U : unicode_db) (text : str)
  (total_duration : Q) (language : string) (segments : option (list segment)) :
  _extract_words U text = [] ->
  exists r,
    analyze_speech_rate U text total_duration language segments = Ok r
    /\ speaking_rate_spm r == 0 /\ articulation_rate_spm r == 0
    /\ words_per_minute r == 0
    /\ classification r = "slow"%string.
Proof.
  intros E. eexists. split; [apply analyze_speech_rate_eq |].
  cbn [speaking_rate_spm articulation_rate_spm words_per_minute classification].
  unfold count_syllables_text. rewrite E. cbn [map list_sum length].
  change (Qnat 0) with 0.
  pose proof (rate_total_duration_pos total_duration) as Hd.
  pose proof (rate_speech_duration_pos total_duration segments) as Hsd.
  assert (Z1 : 0 / rate_total_duration total_duration * 60 == 0)
    by (field; lra).
  assert (Z2 : 0 / rate_speech_duration total_duration segments * 60 == 0)
    by (field; lra).
  rewrite Z1. split; [apply (py_round_Z 0) |].
  split; [rewrite Z2; apply (py_round_Z 0) |].
  split; [apply (py_round_Z 0) |].
  unfold rate_classification.
  replace (Qltb _ (slow (thresholds_of language))) with true; [reflexivity |].
  symmetry. apply Qltb_true. rewrite Z2.
  destruct (thresholds_of_cases language) as [-> | ->]; reflexivity.
Qed.

Lemma wordless_transcript_is_slow_witness :
  exists r,
    analyze_speech_rate latin1_db (u8 "123 456") 10 "en-US" None = Ok r
    /\ classification r = "slow"%string.
Proof.
  destruct (wordless_transcript_is_slow latin1_db (u8 "123 456") 10 "en-US" None)
    as (r & Hr & _ & _ & _ & Hc).
  - vm_compute. reflexivity.
  - exists r. split; [exact Hr | exact Hc].
Defined.


(** ** Segments, vocabulary and fluency counts *)

Lemma few_segments_gaps (segments : option (list segment)) :
  few_segments segments = true -> segment_gaps segments = [].
Proof.
  destruct segments as [l |]; [| reflexivity].
  unfold few_segments, segment_gaps. intros H. apply Nat.leb_le in H.
  destruct (Nat.ltb_spec 1 (length l)); [lia | reflexivity].
Qed.

Lemma py_round_zero (x : Q) (n : nat) : x == 0 -> py_round x n == 0.
Proof. intros ->. apply (py_round_Z 0). Qed.

(** X5.  Without segments, or with fewer than two, there is no pause
    signal: the pause analyzer returns zero in every field, the fluency
    analyzer a hesitation rate of zero and the rate analyzer a pause
    duration of zero, for every duration. *)
Theorem few_segments_no_pause (U : unicode_db)
  (sequence_ratio : str -> str -> Q) (text : str) (total_duration : Q)
  (language : string) (segments : option (list segment)) :
  few_segments segments = true ->
  (exists p,
     analyze_pauses total_duration segments = Ok p
     /\ total_pauses p = 0%nat
     /\ total_pause_duration p == 0 /\ average_pause_duration p == 0
     /\ longest_pause p == 0 /\ pauses_per_minute p == 0
     /\ pause_ratio p == 0)
  /\ (exists f,
        analyze_fluency U sequence_ratio text total_duration segments = Ok f
        /\ hesitation_rate f == 0)
  /\ (exists r,
        analyze_speech_rate U text total_duration language segments = Ok r
        /\ pause_duration_seconds r == 0).
Proof.
  intros Hfew. pose proof (few_segments_gaps segments Hfew) as Hgaps.
  split; [| split].
  - unfold analyze_pauses, counted_pauses. rewrite Hgaps.
    cbn [List.filter length Nat.ltb Nat.leb]. monad_step.
    destruct (Qltb 0 total_duration) eqn:E.
    + apply Qltb_true in E. rewrite !truediv_ok by lra. monad_step.
      eexists. split; [reflexivity |].
      cbn [total_pauses total_pause_duration average_pause_duration
           longest_pause pauses_per_minute pause_ratio].
      split; [reflexivity |].
      repeat split; apply py_round_zero; try reflexivity;
        change (Qnat 0) with 0; unfold pysum; cbn [fold_left]; field; lra.
    + monad_step. eexists. split; [reflexivity |].
      repeat split; reflexivity.
  - destruct (analyze_fluency_ok U sequence_ratio text total_duration segments)
      as (h & penalty & Hh & Hf & _).
    eexists. split; [exact Hf |]. cbn [hesitation_rate].
    apply py_round_zero.
    unfold raw_hesitation_rate in Hh. rewrite Hgaps in Hh.
    change (count_if _ []) with 0%nat in Hh.
    destruct (Qltb 0 total_duration) eqn:E.
    + apply Qltb_true in E. rewrite truediv_ok in Hh by lra.
      injection Hh as <-. change (Qnat 0) with 0. field. lra.
    + injection Hh as <-. reflexivity.
  - eexists. split; [apply analyze_speech_rate_eq |].
    cbn [pause_duration_seconds]. apply py_round_zero.
    unfold rate_pause_duration. rewrite Hgaps. reflexivity.
Qed.

Lemma few_segments_no_pause_witness :
  exists p,
    analyze_pauses 10
      (Some [ {[ "start"%string := 0; "end"%string := 9 ]} ]) = Ok p
    /\ total_pauses p = 0%nat /\ pause_ratio p == 0.
Proof.
  destruct (few_segments_no_pause latin1_db ratio_unused (u8 "bom dia") 10
              "pt-BR" (Some [ {[ "start"%string := 0; "end"%string := 9 ]} ]))
    as ((p & Hp & Hn & _ & _ & _ & _ & Hr) & _).
  - reflexivity.
  - exists p. split; [exact Hp |]. split; [exact Hn | exact Hr].
Defined.

Lemma count_if_le {A : Type} (p : A -> bool) (l : list A) :
  (count_if p l <= length l)%nat.
Proof.
  unfold count_if. induction l as [| x l IH]; cbn; [lia |].
  destruct (p x); cbn; lia.
Qed.

Lemma filter_length_le {A : Type} (p : A -> bool) (l : list A) :
  (length (List.filter p l) <= length l)%nat.
Proof. apply (count_if_le p l). Qed.

(** X6.  In the result of the vocabulary analyzer the complex words and
    the filler words are at most the words, the three ratios (complex
    words, fillers, lexical density) lie in [[0,1]], and the average word
    length of a transcript with words is at least 1. *)
Theorem vocabulary_ratios (U : unicode_db) (text : str) (language : string) :
  exists r,
    analyze_vocabulary U text language = Ok r
    /\ (complex_words_count r <= total_words r)%nat
    /\ (filler_words_count r <= total_words r)%nat
    /\ 0 <= complex_words_ratio r <= 1
    /\ 0 <= filler_words_ratio r <= 1
    /\ 0 <= lexical_density r <= 1
    /\ (_extract_words U text <> [] -> 1 <= average_word_length r).
Proof.
  destruct (_extract_words U text) as [| w ws] eqn:E.
  - exists empty_vocabulary. rewrite analyze_vocabulary_empty by exact E.
    split; [reflexivity |]. cbn.
    repeat split; try lia; try discriminate. congruence.
  - pose proof (_extract_words_letters U text) as Hletters.
    unfold analyze_vocabulary. rewrite E in *.
    set (words := w :: ws) in *.
    assert (Hn : (0 < length words)%nat) by (subst words; cbn; lia).
    replace (length words =? 0)%nat with false
      by (symmetry; apply Nat.eqb_neq; lia).
    repeat (rewrite truediv_nat_ok by exact Hn; monad_step).
    eexists. split; [reflexivity |].
    cbn [total_words complex_words_count filler_words_count
         complex_words_ratio filler_words_ratio lexical_density
         average_word_length].
    split; [apply filter_length_le |].
    split; [apply count_if_le |].
    split; [apply (py_round_range 0 1), ratio_unit;
            [apply filter_length_le | exact Hn] |].
    split; [apply (py_round_range 0 1), ratio_unit;
            [apply count_if_le | exact Hn] |].
    split; [apply (py_round_range 0 1), ratio_unit;
            [apply count_if_le | exact Hn] |].
    intros _. rewrite <- (py_round_Z 1 2). apply py_round_mono.
    apply Qle_shift_div_l; [apply Qnat_pos, Hn |].
    change (inject_Z 1) with 1. rewrite Qmult_1_l. apply Qnat_le.
    apply list_sum_at_least.
    eapply List.Forall_impl; [| exact Hletters].
    intros v [Hne _]. cbn beta. destruct v; [congruence | cbn; lia].
Qed.

Lemma count_adjacent_exclusive (p q : str -> str -> bool) (words : list str) :
  (forall a b, p a b = true -> q a b = false) ->
  (count_adjacent p words + count_adjacent q words <= length words - 1)%nat.
Proof.
  intros Hpq. induction words as [| a words IH]; [cbn; lia |].
  destruct words as [| b words]; [cbn; lia |].
  cbn [count_adjacent length] in *.
  destruct (p a b) eqn:Ep.
  - rewrite (Hpq a b Ep). lia.
  - destruct (q a b); lia.
Qed.

Lemma resplit_acc_length (delims cur s : str) :
  length (resplit_acc delims cur s)
  = S (count_if (fun c => mem c delims) s).
Proof.
  revert cur. induction s as [| c s IH]; intros cur; [reflexivity |].
  cbn [resplit_acc]. unfold count_if. cbn [List.filter].
  destruct (mem c delims); cbn [length]; rewrite IH; reflexivity.
Qed.

(** X7.  In the result of the fluency analyzer a pair of adjacent words
    is a repetition or a self-correction, never both: the two counts
    together are below the number of words.  The incomplete sentences are
    at most the pieces of the text, one more than its characters ".", "!"
    and "?"; the hesitation rate is not negative. *)
Theorem fluency_counts (U : unicode_db) (sequence_ratio : str -> str -> Q)
  (text : str) (total_duration : Q) (segments : option (list segment)) :
  exists f,
    analyze_fluency U sequence_ratio text total_duration segments = Ok f
    /\ (repetition_count f + self_corrections_count f
        <= length (_extract_words U text) - 1)%nat
    /\ (incomplete_sentences f
        <= S (count_if (fun c => mem c (u8 ".!?")) text))%nat
    /\ 0 <= hesitation_rate f.
Proof.
  destruct (analyze_fluency_ok U sequence_ratio text total_duration segments)
    as (h & penalty & Hh & Hf & _).
  eexists. split; [exact Hf |].
  cbn [repetition_count self_corrections_count incomplete_sentences
       hesitation_rate].
  split.
  { apply count_adjacent_exclusive. intros a b Hrep.
    unfold is_repetition in Hrep. unfold is_self_correction.
    rewrite Hrep. reflexivity. }
  split.
  { unfold resplit. rewrite <- (resplit_acc_length (u8 ".!?") [] text).
    apply count_if_le. }
  destruct (raw_hesitation_rate_ok total_duration segments)
    as (h' & Hh' & Hpos & _).
  rewrite Hh in Hh'. injection Hh' as <-.
  apply py_round_nonneg, Hpos.
Qed.


(** ** Language detection and the language hint *)

(** The two scores, from the numbers of marker words. *)
Lemma language_scores_eq (U : unicode_db) (text : str) :
  exists bonus,
    language_scores U text
    = Ok (Qnat (portuguese_matches U text) / Qnat 51 * 100 + bonus,
          Qnat (english_matches U text) / Qnat 44 * 100)
    /\ 0 <= bonus <= 5.
Proof.
  unfold language_scores.
  rewrite size_PORTUGUESE_MARKERS, size_ENGLISH_MARKERS.
  assert (Hlen : 0 < Qnat (Nat.max (length text) 1)) by (apply Qnat_pos; lia).
  rewrite truediv_nat_ok by lia. monad_step.
  rewrite truediv_nat_ok by lia. monad_step.
  rewrite truediv_nat_ok by lia. monad_step.
  eexists. split; [reflexivity |]. split.
  - apply pymin_glb; [| discriminate].
    match goal with |- 0 <= ?c / ?d * 100 =>
      pose proof (Qdiv_nonneg c d (Qnat_nonneg _) Hlen) end.
    lra.
  - apply pymin_r.
Qed.

Lemma matches_le_markers (U : unicode_db) (text : str) :
  (portuguese_matches U text <= 51)%nat /\ (english_matches U text <= 44)%nat.
Proof.
  unfold portuguese_matches, english_matches.
  rewrite <- size_PORTUGUESE_MARKERS, <- size_ENGLISH_MARKERS.
  split; apply subseteq_size, intersection_subseteq_r.
Qed.

Lemma py_round_cap (x : Q) : 0 <= x -> 0 <= py_round (pymin x 0.99) 2 <= 0.99.
Proof.
  intros Hx. split.
  - apply py_round_nonneg, pymin_glb; [exact Hx | discriminate].
  - assert (E : py_round 0.99 2 == 0.99) by reflexivity.
    rewrite <- E at 2. apply py_round_mono, pymin_r.
Qed.

(** The three branches of the decision cover every pair of scores. *)
Lemma decision_cases (pt en : Q) :
  (en < pt /\ 5 < pt) \/ (pt < en /\ 5 < en)
  \/ (pt == en \/ (pt <= 5 /\ en <= 5)).
Proof.
  destruct (Qlt_le_dec en pt) as [A | A];
    destruct (Qlt_le_dec 5 pt) as [B | B];
    destruct (Qlt_le_dec pt en) as [C | C];
    destruct (Qlt_le_dec 5 en) as [D | D];
    try (left; split; assumption);
    try (right; left; split; assumption);
    right; right;
    try (right; split; lra);
    left; apply Qle_antisym; assumption.
Qed.

Lemma detect_language_wellformed (U : unicode_db) (text : str) :
  exists r,
    detect_language U text = Ok r
    /\ (detected_language r = "pt-BR"%string
        \/ detected_language r = "en-US"%string
        \/ detected_language r = "unknown"%string)
    /\ (detected_language r = "unknown"%string <-> _extract_words U text = [])
    /\ 0 <= confidence r <= 0.99
    /\ 0 <= portuguese_score r <= 105
    /\ 0 <= english_score r <= 100.
Proof.
  destruct (_extract_words U text) as [| w ws] eqn:E.
  - exists unknown_language. rewrite detect_language_empty by exact E.
    split; [reflexivity |]. cbn.
    repeat split; auto; discriminate.
  - destruct (detect_language_ok U text)
      as (pt & en & r & Hs & Hr & Hps & Hes & H1 & H2 & H3); [congruence |].
    destruct (language_scores_eq U text) as (bonus & Hs' & Hb).
    rewrite Hs in Hs'. injection Hs' as Hpt Hen.
    destruct (matches_le_markers U text) as [Mp Me].
    assert (Bp : 0 <= Qnat (portuguese_matches U text) / Qnat 51 <= 1)
      by (apply ratio_unit; [exact Mp | lia]).
    assert (Be : 0 <= Qnat (english_matches U text) / Qnat 44 <= 1)
      by (apply ratio_unit; [exact Me | lia]).
    assert (Rp : 0 <= pt <= 105) by (rewrite Hpt; lra).
    assert (Re : 0 <= en <= 100) by (rewrite Hen; lra).
    exists r. split; [exact Hr |].
    assert (Hlang : (detected_language r = "pt-BR"%string
                     \/ detected_language r = "en-US"%string)
                    /\ 0 <= confidence r <= 0.99).
    { destruct (decision_cases pt en) as [[A B] | [[A B] | C]].
      - destruct (H1 A B) as [-> ->]. split; [auto |].
        apply py_round_cap, Qdiv_nonneg; lra.
      - destruct (H2 A B) as [-> ->]. split; [auto |].
        apply py_round_cap, Qdiv_nonneg; lra.
      - destruct (H3 C) as [-> ->]. split; [auto |]. split; discriminate. }
    destruct Hlang as [Hl Hc].
    split; [tauto |].
    split.
    { split; [| discriminate]. intros Hu.
      destruct Hl as [Hl | Hl]; rewrite Hl in Hu; discriminate. }
    split; [exact Hc |].
    rewrite Hps, Hes.
    split; [apply (py_round_range 0 105), Rp | apply (py_round_range 0 100), Re].
Qed.

(** X8.  The result of [detect_language] is always well formed: the
    language is "pt-BR", "en-US" or "unknown", and "unknown" exactly when
    the text has no word; the confidence lies in [[0, 0.99]]; the
    Portuguese score lies in [[0,105]] and the English score in
    [[0,100]]. *)
Theorem detect_language_invariants (U : unicode_db) (text : str) :
  exists r,
    detect_language U text = Ok r
    /\ (detected_language r = "pt-BR"%string
        \/ detected_language r = "en-US"%string
        \/ detected_language r = "unknown"%string)
    /\ (detected_language r = "unknown"%string <-> _extract_words U text = [])
    /\ 0 <= confidence r <= 0.99
    /\ 0 <= portuguese_score r <= 105
    /\ 0 <= english_score r <= 100.
Proof. exact (detect_language_wellformed U text). Qed.

(** X9.  English is detected only from at least three different English
    marker words: with fewer, whatever else the text holds, a text with
    words is reported as Portuguese. *)
Theorem english_needs_three_markers (U : unicode_db) (text : str) :
  exists r,
    detect_language U text = Ok r
    /\ (detected_language r = "en-US"%string
        -> (3 <= english_matches U text)%nat)
    /\ (_extract_words U text <> [] -> (english_matches U text < 3)%nat
        -> detected_language r = "pt-BR"%string).
Proof.
  destruct (detect_language_wellformed U text)
    as (r & Hr & Hlang & Hunk & _).
  exists r. split; [exact Hr |].
  assert (Hen : detected_language r = "en-US"%string
                -> (3 <= english_matches U text)%nat).
  { intros Hl.
    destruct (_extract_words U text) as [| w ws] eqn:E.
    { rewrite detect_language_empty in Hr by exact E. injection Hr as <-.
      discriminate Hl. }
    destruct (detect_language_ok U text)
      as (pt & en & r' & Hs & Hr' & _ & _ & H1 & H2 & H3); [congruence |].
    rewrite Hr in Hr'. injection Hr' as <-.
    destruct (language_scores_eq U text) as (bonus & Hs' & Hb).
    rewrite Hs in Hs'. injection Hs' as Hpt Hen.
    destruct (decision_cases pt en) as [[A B] | [[A B] | C]].
    - destruct (H1 A B) as [Hl' _]. rewrite Hl in Hl'. discriminate.
    - destruct (le_lt_dec 3 (english_matches U text)) as [Hok | Hlt];
        [exact Hok | exfalso].
      assert (Hq : Qnat (english_matches U text) <= Qnat 2)
        by (apply Qnat_le; lia).
      assert (H44 : 0 < Qnat 44) by (apply Qnat_pos; lia).
      assert (Qnat (english_matches U text) / Qnat 44 <= Qnat 2 / Qnat 44).
      { apply Qle_shift_div_l; [exact H44 |].
        unfold Qdiv. rewrite <- Qmult_assoc, (Qmult_comm (/ _)), Qmult_inv_r by lra.
        lra. }
      assert (Qnat 2 / Qnat 44 * 100 < 5) by reflexivity.
      rewrite Hen in B. lra.
    - destruct (H3 C) as [Hl' _]. rewrite Hl in Hl'. discriminate. }
  split; [exact Hen |].
  intros Hne Hlt.
  destruct Hlang as [Hl | [Hl | Hl]]; [exact Hl | | ].
  - apply Hen in Hl. lia.
  - apply Hunk in Hl. contradiction.
Qed.

Lemma str_existsb_In (x : str) (l : list str) :
  existsb (str_eqb x) l = true <-> In x l.
Proof.
  rewrite existsb_exists. unfold str_eqb. split.
  - intros (y & Hy & E). apply bool_decide_eq_true in E. subst y. exact Hy.
  - intros H. exists x. split; [exact H | apply bool_decide_eq_true; reflexivity].
Qed.

Lemma english_hint_not_portuguese (x : str) :
  In x english_hints -> existsb (str_eqb x) portuguese_hints = false.
Proof.
  intros H. apply not_true_iff_false. rewrite str_existsb_In. intros H'.
  unfold english_hints, portuguese_hints in *. cbn [map In] in *.
  destruct H as [<- | [<- | [<- | []]]];
    destruct H' as [E | [E | [E | []]]]; vm_compute in E; discriminate E.
Qed.

(** The language the whole analysis works with. *)
Lemma analyze_comprehensive_language (U : unicode_db)
  (sequence_ratio : str -> str -> Q) (text : str) (total_duration : Q)
  (segments : option (list segment)) (language_hint : option str) :
  exists r,
    analyze_comprehensive U sequence_ratio text total_duration segments
      language_hint = Ok r
    /\ match language_hint with
       | Some ((_ :: _) as hint) =>
           if existsb (str_eqb (lower U hint)) portuguese_hints
           then language r = forced_portuguese
           else if existsb (str_eqb (lower U hint)) english_hints
                then language r = forced_english
                else detect_language U text = Ok (language r)
       | _ => detect_language U text = Ok (language r)
       end.
Proof.
  unfold analyze_comprehensive.
  match goal with |- context [mbind _ ?m] =>
    assert (Hld : exists ld, m = Ok ld
      /\ match language_hint with
         | Some ((_ :: _) as hint) =>
             if existsb (str_eqb (lower U hint)) portuguese_hints
             then ld = forced_portuguese
             else if existsb (str_eqb (lower U hint)) english_hints
                  then ld = forced_english
                  else detect_language U text = Ok ld
         | _ => detect_language U text = Ok ld
         end) end.
  { destruct (detect_language_total U text) as (d & Hd).
    destruct language_hint as [[| c hint] |]; try (exists d; split; assumption).
    fold portuguese_hints english_hints.
    destruct (existsb _ portuguese_hints); [eexists; split; reflexivity |].
    destruct (existsb _ english_hints); [eexists; split; reflexivity |].
    exists d; split; assumption. }
  destruct Hld as (ld & -> & Hcase). monad_step.
  destruct (analyze_speech_rate_ok U text total_duration
              (detected_language ld) segments) as (cls & Hsr).
  destruct (analyze_pauses_ok total_duration segments)
    as (avg & longest & ppm & ratio & Hp & _).
  destruct (analyze_vocabulary_ok U text (detected_language ld))
    as (v & Hv & _).
  destruct (analyze_fluency_ok U sequence_ratio text total_duration segments)
    as (h & penalty & _ & Hf & _).
  rewrite Hsr, Hp, Hv, Hf. monad_step.
  eexists. split; [reflexivity |]. cbn [language]. exact Hcase.
Qed.

(** X10.  A language hint that is, in any letter case, one of "pt",
    "pt-br", "portuguese" forces Portuguese, and one of "en", "en-us",
    "english" forces English, with confidence 1 and scores 100 and 0,
    whatever the text; without a hint, with an empty one or with any other
    one the language is the one [detect_language] finds. *)
Theorem language_hint_forces_language (U : unicode_db)
  (sequence_ratio : str -> str -> Q) (text : str) (total_duration : Q)
  (segments : option (list segment)) (language_hint : option str) :
  exists r,
    analyze_comprehensive U sequence_ratio text total_duration segments
      language_hint = Ok r
    /\ (forall hint, language_hint = Some hint ->
        In (lower U hint) portuguese_hints -> language r = forced_portuguese)
    /\ (forall hint, language_hint = Some hint ->
        In (lower U hint) english_hints -> language r = forced_english)
    /\ (language_hint = None \/ language_hint = Some []
        \/ (exists hint, language_hint = Some hint
                         /\ ~ In (lower U hint) portuguese_hints
                         /\ ~ In (lower U hint) english_hints)
        -> detect_language U text = Ok (language r)).
Proof.
  destruct (analyze_comprehensive_language U sequence_ratio text total_duration
              segments language_hint) as (r & Hr & Hcase).
  exists r. split; [exact Hr |].
  split; [| split].
  - intros hint -> Hin.
    destruct hint as [| c hint];
      [destruct Hin as [E | [E | [E | []]]]; discriminate E |].
    cbv beta iota in Hcase.
    apply str_existsb_In in Hin. rewrite Hin in Hcase. exact Hcase.
  - intros hint -> Hin.
    destruct hint as [| c hint];
      [destruct Hin as [E | [E | [E | []]]]; discriminate E |].
    cbv beta iota in Hcase.
    rewrite (english_hint_not_portuguese _ Hin) in Hcase.
    apply str_existsb_In in Hin. rewrite Hin in Hcase. exact Hcase.
  - intros [-> | [-> | (hint & -> & Hp & He)]]; try exact Hcase.
    destruct hint as [| c hint]; [exact Hcase |].
    cbv beta iota in Hcase.
    rewrite <- str_existsb_In in Hp, He.
    apply not_true_is_false in Hp, He. rewrite Hp, He in Hcase. exact Hcase.
Qed.


Lemma language_hint_forces_language_witness :
  exists r,
    analyze_comprehensive latin1_db ratio_unused (u8 "bom dia") 10 None
      (Some (u8 "EN-us")) = Ok r
    /\ language r = forced_english.
Proof.
  destruct (language_hint_forces_language latin1_db ratio_unused (u8 "bom dia")
              10 None (Some (u8 "EN-us"))) as (r & Hr & _ & Hen & _).
  exists r. split; [exact Hr |].
  apply (Hen (u8 "EN-us")); [reflexivity |].
  vm_compute. right. left. reflexivity.
Defined.

(** ** The scores of the engine *)

Lemma ideal_rate_of_cases (language : string) :
  (language = "en-US"%string
   /\ ideal_rate_of language = {| rate_min := 150; rate_max := 180 |})
  \/ (language <> "en-US"%string
      /\ ideal_rate_of language = {| rate_min := 140; rate_max := 170 |}).
Proof.
  unfold ideal_rate_of, IDEAL_SPEAKING_RATE.
  destruct (decide (language = "en-US"%string)) as [-> | Hen];
    [left; split; reflexivity |].
  right. split; [exact Hen |].
  destruct (decide (language = "pt-BR"%string)) as [-> | Hpt]; [reflexivity |].
  rewrite lookup_insert_ne by congruence.
  rewrite lookup_singleton_ne by congruence. reflexivity.
Qed.

Lemma pymax_zero (x : Q) : x <= 0 -> pymax 0 x == 0.
Proof.
  intros H. unfold pymax. destruct (Qltb 0 x) eqn:E; [| reflexivity].
  apply Qltb_true in E. lra.
Qed.

(** X12.  The rate score is 100 exactly when the words per minute lie in
    the ideal band of the language, 150 to 180 for "en-US" and 140 to 170
    for every other language string, and it is 0 from 50 words per minute
    outside the band on. *)
Theorem rate_score_perfect_band (sr : SpeechRateMetrics) (language : string) :
  let ideal := ideal_rate_of language in
  let wpm := words_per_minute sr in
  (_score_speech_rate sr language == 100
   <-> rate_min ideal <= wpm <= rate_max ideal)
  /\ (wpm <= rate_min ideal - 50 \/ rate_max ideal + 50 <= wpm
      -> _score_speech_rate sr language == 0)
  /\ (language = "en-US"%string
      -> ideal = {| rate_min := 150; rate_max := 180 |})
  /\ (language <> "en-US"%string
      -> ideal = {| rate_min := 140; rate_max := 170 |}).
Proof.
  intros ideal wpm.
  assert (Hband : rate_min ideal <= rate_max ideal).
  { subst ideal. destruct (ideal_rate_of_cases language) as [[_ ->] | [_ ->]];
      discriminate. }
  unfold _score_speech_rate. fold (ideal_rate_of language). fold ideal wpm.
  split; [| split; [| split]].
  - destruct (Qleb (rate_min ideal) wpm && Qleb wpm (rate_max ideal)) eqn:E.
    + apply andb_true_iff in E as [E1 E2]. apply Qleb_true in E1, E2.
      split; [intros _; split; assumption | intros _; reflexivity].
    + assert (Hout : wpm < rate_min ideal \/ rate_max ideal < wpm).
      { apply andb_false_iff in E as [E | E]; apply Qleb_false in E; auto. }
      split; [| intros [A B]; exfalso; destruct Hout; lra].
      intros H. exfalso.
      match type of H with pymax 0 ?x == 100 =>
        assert (Hx : x < 100) end.
      { destruct (Qltb wpm (rate_min ideal)) eqn:E1.
        - apply Qltb_true in E1. lra.
        - apply Qltb_false in E1. destruct Hout; lra. }
      unfold pymax in H. destruct (Qltb 0 _); [lra | discriminate H].
  - intros Hfar.
    replace (Qleb (rate_min ideal) wpm && Qleb wpm (rate_max ideal)) with false.
    + apply pymax_zero.
      destruct (Qltb wpm (rate_min ideal)) eqn:E1.
      * apply Qltb_true in E1. destruct Hfar; lra.
      * apply Qltb_false in E1. destruct Hfar; lra.
    + symmetry. apply andb_false_iff.
      destruct Hfar; [left | right]; apply Qleb_false; lra.
  - intros Hl. subst ideal.
    destruct (ideal_rate_of_cases language) as [[_ H] | [H _]];
      [exact H | contradiction].
  - intros Hl. subst ideal.
    destruct (ideal_rate_of_cases language) as [[H _] | [_ H]];
      [contradiction | exact H].
Qed.

(** X13.  The pause score is 100 exactly when the pause ratio lies in
    [[0.1, 0.25]] and the longest pause is at most 3 s; a longest pause
    above 3 s leaves at most 90. *)
Theorem pause_score_perfect (p : PauseMetrics) :
  (_score_pauses p == 100
   <-> 0.1 <= pause_ratio p <= 0.25 /\ longest_pause p <= 3)
  /\ (3 < longest_pause p -> _score_pauses p <= 90).
Proof.
  unfold _score_pauses.
  set (base := if Qleb 0.1 (pause_ratio p) && Qleb (pause_ratio p) 0.25
               then 100.0
               else if Qltb (pause_ratio p) 0.1 then 80.0
                    else pymax 0 (100 - (pause_ratio p - 0.25) * 200)).
  assert (Hbase : 0 <= base <= 100
                  /\ (base == 100 <-> 0.1 <= pause_ratio p <= 0.25)).
  { subst base.
    destruct (Qleb 0.1 (pause_ratio p) && Qleb (pause_ratio p) 0.25) eqn:E.
    - apply andb_true_iff in E as [E1 E2]. apply Qleb_true in E1, E2.
      split; [split; discriminate |].
      split; [intros _; split; assumption | intros _; reflexivity].
    - assert (Hout : pause_ratio p < 0.1 \/ 0.25 < pause_ratio p).
      { apply andb_false_iff in E as [E | E]; apply Qleb_false in E; auto. }
      destruct (Qltb (pause_ratio p) 0.1) eqn:E1.
      + split; [split; discriminate |].
        split; [intros H; discriminate H | intros [A B]; destruct Hout; lra].
      + apply Qltb_false in E1.
        pose proof (pymax_l 0 (100 - (pause_ratio p - 0.25) * 200)) as Hl.
        assert (Hu : pymax 0 (100 - (pause_ratio p - 0.25) * 200) < 100).
        { unfold pymax. destruct (Qltb 0 _); [destruct Hout; lra | reflexivity]. }
        split; [split; lra |].
        split; [intros H; lra | intros [A B]; destruct Hout; lra]. }
  destruct Hbase as [[Hb0 Hb1] Hiff].
  destruct (Qltb 3.0 (longest_pause p)) eqn:El.
  - apply Qltb_true in El.
    assert (Hs : pymax 0 (base - 10) <= 90) by (apply pymax_lub; lra).
    split; [| intros _; exact Hs].
    split; [intros H; lra | intros [_ H]; lra].
  - apply Qltb_false in El.
    assert (Hs : pymax 0 base == base).
    { unfold pymax. destruct (Qltb 0 base) eqn:E0; [reflexivity |].
      apply Qltb_false in E0. lra. }
    split; [| intros H; lra].
    rewrite Hs, Hiff. split; [intros H; split; [exact H | lra] | tauto].
Qed.

Lemma pymin_mono (a a' b b' : Q) :
  a <= a' -> b <= b' -> pymin a b <= pymin a' b'.
Proof.
  intros Ha Hb. apply pymin_glb.
  - pose proof (pymin_l a b). lra.
  - pose proof (pymin_r a b). lra.
Qed.

Lemma pymax_mono (a a' b b' : Q) :
  a <= a' -> b <= b' -> pymax a b <= pymax a' b'.
Proof.
  intros Ha Hb. apply pymax_lub.
  - pose proof (pymax_l a' b'). lra.
  - pose proof (pymax_r a' b'). lra.
Qed.

(** X14.  The vocabulary score never falls when the type-token ratio or
    the ratio of complex words grows, and never rises when the ratio of
    filler words grows. *)
Theorem vocabulary_score_monotone (v v' : VocabularyMetrics) :
  vocabulary_richness v <= vocabulary_richness v' ->
  complex_words_ratio v <= complex_words_ratio v' ->
  filler_words_ratio v' <= filler_words_ratio v ->
  _score_vocabulary v <= _score_vocabulary v'.
Proof.
  intros Hr Hc Hf. unfold _score_vocabulary.
  apply pymax_mono; [lra |]. apply pymin_mono; [lra |].
  pose proof (pymin_mono (complex_words_ratio v * 50)
                (complex_words_ratio v' * 50) 15 15 ltac:(lra) ltac:(lra)).
  lra.
Qed.

Lemma vocabulary_score_monotone_witness :
  _score_vocabulary empty_vocabulary
  <= _score_vocabulary
       {| total_words := 4; unique_words := 4; vocabulary_richness := 1.0;
          average_word_length := 4.0; complex_words_count := 0;
          complex_words_ratio := 0.0; filler_words_count := 0;
          filler_words_ratio := 0.0; lexical_density := 1.0 |}.
Proof.
  apply vocabulary_score_monotone; cbn; discriminate.
Defined.

(** ** The two lists of the feedback *)

Lemma appends_trans (loc : locale) (p1 l1 a1 p2 l2 a2 : nat) (st st1 st2 : out) :
  appends loc p1 l1 a1 st st1 -> appends loc p2 l2 a2 st1 st2 ->
  appends loc (p1 + p2) (l1 + l2) (a1 + a2) st st2.
Proof.
  intros (a & b & E1 & E2 & H1 & H2 & H3 & H4 & H5)
         (a' & b' & E1' & E2' & H1' & H2' & H3' & H4' & H5').
  exists (a ++ a'), (b ++ b').
  rewrite E1', E2', E1, E2, <- !app_assoc, !length_app.
  repeat split; try lia; apply Forall_app; split; assumption.
Qed.

Lemma feedback_pace_appends (loc : locale) (sr : SpeechRateMetrics) (st : out) :
  appends loc 0 1 1 st (feedback_pace loc sr st).
Proof.
  unfold feedback_pace, appends. destruct st as [fb rec].
  destruct (String.eqb (classification sr) "fast");
    [| destruct (String.eqb (classification sr) "slow")];
    appends_branch.
Qed.

Lemma feedback_wpm_appends (loc : locale) (ideal : ideal_rate)
  (sr : SpeechRateMetrics) (st : out) :
  appends loc 1 1 0 st (feedback_wpm loc ideal sr st).
Proof.
  unfold feedback_wpm, appends. destruct st as [fb rec].
  destruct (Qltb (words_per_minute sr) (rate_min ideal));
    [| destruct (Qltb (rate_max ideal) (words_per_minute sr))];
    appends_branch.
Qed.

Lemma feedback_pauses_appends (loc : locale) (sr : SpeechRateMetrics)
  (p : PauseMetrics) (st : out) :
  appends loc 0 2 1 st (feedback_pauses loc sr p st).
Proof.
  unfold feedback_pauses, appends. destruct st as [fb rec].
  destruct (Qltb 0.3 (pause_ratio p));
    [| destruct (Qltb (pause_ratio p) 0.1 && Qltb 10 (total_duration_seconds sr))];
    destruct (Qltb 3.0 (longest_pause p));
    appends_branch.
Qed.

Lemma feedback_vocabulary_appends (loc : locale) (v : VocabularyMetrics)
  (st : out) :
  appends loc 0 3 2 st (feedback_vocabulary loc v st).
Proof.
  unfold feedback_vocabulary, appends. destruct st as [fb rec].
  destruct (Qltb (vocabulary_richness v) 0.4);
    [| destruct (Qltb 0.7 (vocabulary_richness v))];
    destruct (Qltb 0.1 (filler_words_ratio v));
    destruct (Qltb 0.15 (complex_words_ratio v));
    appends_branch.
Qed.

Lemma feedback_fluency_appends (loc : locale) (f : FluencyMetrics) (st : out) :
  appends loc 1 3 2 st (feedback_fluency loc f st).
Proof.
  unfold feedback_fluency, appends. destruct st as [fb rec].
  destruct (Qleb 80 (fluency_score f));
    [| destruct (Qleb 60 (fluency_score f))];
    destruct (3 <? repetition_count f)%nat;
    destruct (2 <? self_corrections_count f)%nat;
    appends_branch.
Qed.

(** X15.  [generate_feedback] writes every line and every recommendation
    in one language, English exactly when the detected language is
    "en-US"; it returns at most 11 lines and at most 6 recommendations, and
    at least three lines more than recommendations, since a recommendation
    is only ever appended together with a line. *)
Theorem feedback_and_recommendations (ld : LanguageDetection)
  (sr : SpeechRateMetrics) (p : PauseMetrics) (v : VocabularyMetrics)
  (f : FluencyMetrics) :
  let result := generate_feedback ld sr p v f in
  let loc := locale_of (detected_language ld) in
  Forall (fun line => line.1 = loc) result.1
  /\ Forall (fun line => line.1 = loc) result.2
  /\ (length result.1 <= 11)%nat
  /\ (length result.2 <= 6)%nat
  /\ (length result.2 + 3 <= length result.1)%nat.
Proof.
  intros result loc.
  assert (H : appends loc 3 11 6 ([], []) result).
  { subst result. unfold generate_feedback. fold (locale_of (detected_language ld)).
    fold loc.
    set (ideal := default _ _).
    set (st0 := say loc (MsgLanguage (confidence ld)) ([], [])).
    assert (H0 : appends loc 1 1 0 ([], []) st0).
    { subst st0. unfold appends. appends_branch. }
    pose proof (feedback_pace_appends loc sr st0) as H1.
    set (st1 := feedback_pace loc sr st0) in *.
    pose proof (feedback_wpm_appends loc ideal sr st1) as H2.
    set (st2 := feedback_wpm loc ideal sr st1) in *.
    pose proof (feedback_pauses_appends loc sr p st2) as H3.
    set (st3 := feedback_pauses loc sr p st2) in *.
    pose proof (feedback_vocabulary_appends loc v st3) as H4.
    set (st4 := feedback_vocabulary loc v st3) in *.
    pose proof (feedback_fluency_appends loc f st4) as H5.
    pose proof (appends_trans _ _ _ _ _ _ _ _ _ _
                  (appends_trans _ _ _ _ _ _ _ _ _ _
                     (appends_trans _ _ _ _ _ _ _ _ _ _
                        (appends_trans _ _ _ _ _ _ _ _ _ _
                           (appends_trans _ _ _ _ _ _ _ _ _ _ H0 H1) H2) H3) H4)
                  H5) as H.
    exact H. }
  destruct H as (a & b & E1 & E2 & H1 & H2 & H3 & H4 & H5).
  cbn [fst snd app] in E1, E2. rewrite E1, E2.
  repeat split; try assumption; lia.
Qed.


(** ** The overall score *)

(** X11.  [analyze_comprehensive] never raises, and its overall score is a
    weighted mean of the four sub-scores: it lies in [[0,100]], and between
    any two bounds of the four sub-scores, rounded to one decimal. *)
Theorem overall_score_between_subscores (U : unicode_db)
  (sequence_ratio : str -> str -> Q) (text : str) (total_duration : Q)
  (segments : option (list segment)) (language_hint : option str) :
  exists r,
    analyze_comprehensive U sequence_ratio text total_duration segments
      language_hint = Ok r
    /\ 0 <= overall_score r <= 100
    /\ forall lo hi : Q,
         lo <= _score_speech_rate (speech_rate r)
                 (detected_language (language r)) <= hi ->
         lo <= _score_pauses (pauses r) <= hi ->
         lo <= _score_vocabulary (vocabulary r) <= hi ->
         lo <= fluency_score (fluency r) <= hi ->
         py_round lo 1 <= overall_score r <= py_round hi 1.
Proof.
  destruct (analyze_comprehensive_ok U sequence_ratio text total_duration
              segments language_hint)
    as (ld & sr & p & v & f & _ & _ & _ & Hf & ->).
  eexists. split; [reflexivity |].
  cbn [speech_rate pauses vocabulary fluency language overall_score].
  split.
  - pose proof (_score_speech_rate_range sr (detected_language ld)) as H1.
    pose proof (_score_pauses_range p) as H2.
    pose proof (_score_vocabulary_range v) as H3.
    pose proof (fluency_score_range U sequence_ratio _ _ _ _ Hf) as H4.
    apply py_round_0_100, weighted_sum_range; assumption.
  - intros lo hi H1 H2 H3 H4. split; apply py_round_mono; lra.
Qed.

(** ** The helpers of utils/metrics.py *)



(** X18.  Whatever the four bounds of [app.common.constants] are,
    [calculate_wpm_score] never exceeds 100 and is 100 exactly on the
    ideal range. *)
Theorem wpm_score_perfect (omin omax imin imax wpm : Q) :
  Metrics.calculate_wpm_score omin omax imin imax wpm <= 100
  /\ (Metrics.calculate_wpm_score omin omax imin imax wpm == 100
      <-> imin <= wpm <= imax).
Proof.
  unfold Metrics.calculate_wpm_score.
  destruct (Qleb imin wpm && Qleb wpm imax) eqn:Ei.
  - apply andb_true_iff in Ei as [E1 E2]. apply Qleb_true in E1, E2.
    split; [discriminate |]. split; [intros _; split; assumption | reflexivity].
  - assert (Hout : wpm < imin \/ imax < wpm).
    { apply andb_false_iff in Ei as [E | E]; apply Qleb_false in E; auto. }
    assert (Hlt : forall x, x < 100 ->
                   x <= 100 /\ (x == 100 <-> imin <= wpm <= imax)).
    { intros x Hx. split; [lra |].
      split; [intros H; lra | intros [A B]; destruct Hout; lra]. }
    assert (Hmax : forall d, 0 < d -> pymax 0 (80 - d) < 100).
    { intros d Hd. unfold pymax. destruct (Qltb 0 (80 - d)); [lra | reflexivity]. }
    destruct (Qleb omin wpm && Qleb wpm omax) eqn:Eo.
    + destruct (Qltb wpm imin) eqn:El.
      * apply Qltb_true in El. apply Hlt. lra.
      * apply Qltb_false in El. apply Hlt. destruct Hout; lra.
    + destruct (Qltb wpm omin) eqn:El.
      * apply Qltb_true in El. apply Hlt, Hmax. lra.
      * apply Qltb_false in El. apply Hlt, Hmax.
        apply andb_false_iff in Eo as [E | E]; apply Qleb_false in E; lra.
Qed.




(** X21.  On ratios and a count that are not negative
    [calculate_fluency_score] exceeds 100 only with its bonus: with at most
    100 words, or with fillers and repetitions making up 5% or more, it
    stays in [[0,100]]; it is 0 from 5% of fillers on without the bonus. *)
Theorem fluency_score_helper (filler_ratio repetition_ratio : Q)
  (false_start_count total_words : Z) :
  0 <= filler_ratio -> 0 <= repetition_ratio -> (0 <= false_start_count)%Z ->
  let score := Metrics.calculate_fluency_score filler_ratio repetition_ratio
                 false_start_count total_words in
  0 <= score <= 110
  /\ (100 < score
      -> (100 < total_words)%Z /\ filler_ratio + repetition_ratio < 0.05)
  /\ (0.05 <= filler_ratio -> score == 0).
Proof.
  intros Hf Hr Hc score. subst score. unfold Metrics.calculate_fluency_score.
  assert (Hp : 0 <= inject_Z (false_start_count * 5)).
  { change 0 with (inject_Z 0). rewrite <- Zle_Qle. lia. }
  destruct ((100 <? total_words)%Z && Qltb (filler_ratio + repetition_ratio) 0.05)
    eqn:E.
  - apply andb_true_iff in E as [E1 E2].
    apply Z.ltb_lt in E1. apply Qltb_true in E2.
    split; [split; [apply pymax_l | apply pymax_lub; lra] |].
    split; [intros _; split; assumption |].
    intros H. lra.
  - split; [split; [apply pymax_l | apply pymax_lub; lra] |].
    split.
    + intros H. exfalso.
      assert (pymax 0 (100.0 - filler_ratio * 2000 - repetition_ratio * 1500
                       - inject_Z (false_start_count * 5)) <= 100)
        by (apply pymax_lub; lra).
      lra.
    + intros H. apply pymax_zero. lra.
Qed.

Lemma fluency_score_helper_witness :
  0 <= Metrics.calculate_fluency_score 0.01 0.01 1 200 <= 110.
Proof.
  apply (fluency_score_helper 0.01 0.01 1 200); [discriminate | discriminate | lia].
Defined.




(** ** The text utilities of utils/text.py *)

Lemma diphthong_second_vowel (c n : N) :
  existsb (str_eqb [c; n]) TextUtils.DIPHTHONGS = true ->
  mem n TextUtils.PT_VOWELS = true.
Proof.
  intros H. apply str_existsb_In in H. unfold TextUtils.DIPHTHONGS in H.
  cbn [In] in H.
  repeat (destruct H as [H | H]; [injection H as _ <-; reflexivity |]).
  destruct H.
Qed.

Lemma pt_scan_vowel_runs (k : nat) :
  forall (word : str) (count : nat) (prev : bool),
    (length word <= k)%nat ->
    TextUtils.pt_scan count prev word
    = TextUtils.vowel_runs TextUtils.PT_VOWELS count prev word.
Proof.
  induction k as [| k IH]; intros [| char rest] count prev Hk;
    try reflexivity.
  - cbn in Hk. lia.
  - cbn [length] in Hk.
    cbn [TextUtils.pt_scan TextUtils.vowel_runs].
    destruct (mem char TextUtils.PT_VOWELS) eqn:Ev; cbn [andb].
    + assert (Hc : (if prev then count else S count)
                   = (if negb prev then S count else count))
        by (destruct prev; reflexivity).
      rewrite Hc.
      destruct rest as [| next after]; [apply IH; cbn; lia |].
      destruct (existsb _ _) eqn:Ed; [| apply IH; lia].
      apply diphthong_second_vowel in Ed.
      cbn [TextUtils.vowel_runs]. rewrite Ed. cbn [andb negb].
      apply IH. cbn [length] in Hk. lia.
    + apply IH. lia.
Qed.

(** X23.  The table of diphthongs of [_count_syllables_portuguese] in
    utils/text.py never changes a count: the second letter of each pair is
    a vowel, so the function counts the runs of adjacent vowels of the
    lowered word, with a floor of 1, and a hiatus counts as one
    syllable. *)
Theorem diphthong_table_has_no_effect (U : unicode_db) (word : str) :
  TextUtils._count_syllables_portuguese U word
  = Nat.max 1 (TextUtils.vowel_runs TextUtils.PT_VOWELS 0 false (lower U word)).
Proof.
  unfold TextUtils._count_syllables_portuguese.
  rewrite (pt_scan_vowel_runs (length (lower U word))) by lia.
  reflexivity.
Qed.

Lemma vowel_tables_agree (c : N) :
  mem c ENGINE_ONLY_VOWELS = false ->
  mem c PORTUGUESE_VOWELS = mem c TextUtils.PT_VOWELS.
Proof.
  assert (E : PORTUGUESE_VOWELS
              = ltac:(let v := eval vm_compute in PORTUGUESE_VOWELS in exact v))
    by (vm_compute; reflexivity).
  rewrite E. clear E.
  unfold mem, ENGINE_ONLY_VOWELS, TextUtils.PT_VOWELS. cbn [existsb].
  intros H.
  repeat match goal with
         | |- context [N.eqb c ?k] =>
             destruct (N.eqb_spec c k) as [Heq | ?];
             [rewrite Heq in *;
              first [reflexivity | cbv in H; discriminate H] |]
         end.
  reflexivity.
Qed.

Lemma pt_loop_vowel_runs (word : str) (count : nat) (prev : bool) :
  forallb (fun c => negb (mem c ENGINE_ONLY_VOWELS)) word = true ->
  pt_loop count prev word
  = TextUtils.vowel_runs TextUtils.PT_VOWELS count prev word.
Proof.
  revert count prev. induction word as [| c word IH]; intros count prev H;
    [reflexivity |].
  cbn [forallb] in H. apply andb_true_iff in H as [Hc Hw].
  apply negb_true_iff in Hc.
  cbn [pt_loop TextUtils.vowel_runs]. rewrite (vowel_tables_agree c Hc).
  apply IH, Hw.
Qed.

Lemma prefix_pt_not_english (language : string) :
  String.prefix "pt" language = true -> String.eqb language "en-US" = false.
Proof.
  intros H. destruct (String.eqb_spec language "en-US") as [-> | _];
    [discriminate H | reflexivity].
Qed.

(** X24.  On a word of letters as the engine extracts them, and for a
    language code that starts with "pt", the syllable counter of the
    engine and the one of utils/text.py agree, unless the word has one of
    the vowels [è ì ò ù î û ä ë ï ö ü], which only the engine knows. *)
Theorem portuguese_counters_agree (U : unicode_db) (word : str)
  (language : string) :
  word <> [] -> forallb word_class word = true ->
  forallb (fun c => negb (mem c ENGINE_ONLY_VOWELS)) word = true ->
  String.prefix "pt" language = true ->
  count_syllables U word language = TextUtils.count_syllables U word language.
Proof.
  intros Hne Hw Hv Hpt.
  unfold count_syllables, TextUtils.count_syllables.
  destruct (letters_no_space U word Hw) as [Hs Hword].
  rewrite (lower_letters U word Hw), (strip_no_space U word Hs).
  destruct word as [| c w]; [congruence |].
  rewrite (filter_all _ _ Hword), Hpt, (prefix_pt_not_english _ Hpt).
  unfold TextUtils._count_syllables_portuguese.
  rewrite (pt_scan_vowel_runs (length (lower U (c :: w)))) by lia.
  unfold SpeechAnalysisService._count_syllables_portuguese.
  rewrite (lower_letters U _ Hw), (pt_loop_vowel_runs _ _ _ Hv).
  reflexivity.
Qed.

Lemma portuguese_counters_agree_witness :
  count_syllables latin1_db (u8 "saudade") "pt-BR"
  = TextUtils.count_syllables latin1_db (u8 "saudade") "pt-BR".
Proof.
  apply (portuguese_counters_agree latin1_db (u8 "saudade") "pt-BR").
  - vm_compute. discriminate.
  - vm_compute. reflexivity.
  - vm_compute. reflexivity.
  - reflexivity.
Defined.

(** *** Whitespace *)

Lemma is_space_32 (U : unicode_db) : is_space U 32 = true.
Proof. reflexivity. Qed.

Lemma lstrip_split (U : unicode_db) (s : str) :
  exists a,
    s = a ++ lstrip U s
    /\ forallb (is_space U) a = true
    /\ (forall c r, lstrip U s = c :: r -> is_space U c = false).
Proof.
  induction s as [| c s IH].
  - exists []. repeat split. intros c r H. discriminate H.
  - cbn [lstrip]. destruct (is_space U c) eqn:E.
    + destruct IH as (a & Ha & Hs & Hh). exists (c :: a).
      split; [cbn [app]; f_equal; exact Ha |].
      split; [cbn [forallb]; rewrite E; exact Hs | exact Hh].
    + exists []. split; [reflexivity |]. split; [reflexivity |].
      intros c' r H. injection H as <- _. exact E.
Qed.

Lemma trimmed_nil (U : unicode_db) : trimmed U [].
Proof.
  split; intros c r H; [discriminate H |].
  destruct r; discriminate H.
Qed.

(** [strip] takes whitespace off the two ends, and nothing else. *)
Lemma strip_split (U : unicode_db) (s : str) :
  exists a b,
    s = a ++ strip U s ++ b
    /\ forallb (is_space U) a = true
    /\ forallb (is_space U) b = true
    /\ trimmed U (strip U s).
Proof.
  destruct (lstrip_split U s) as (a & Ha & Hsa & Hha).
  destruct (lstrip_split U (rev (lstrip U s))) as (b & Hb & Hsb & Hhb).
  assert (Hy : lstrip U s = strip U s ++ rev b).
  { unfold strip. rewrite <- rev_app_distr, <- Hb, rev_involutive.
    reflexivity. }
  exists a, (rev b). split; [rewrite <- Hy; exact Ha |].
  split; [exact Hsa |]. split; [rewrite forallb_rev; exact Hsb |].
  split.
  - intros c r E. rewrite E in Hy. apply (Hha c (r ++ rev b)). exact Hy.
  - intros c r E. unfold strip in E.
    apply (f_equal (@rev N)) in E.
    rewrite rev_involutive, rev_app_distr in E. cbn [rev app] in E.
    apply (Hhb c (rev r)). exact E.
Qed.

Lemma trimmed_strip (U : unicode_db) (s : str) : trimmed U s -> strip U s = s.
Proof.
  destruct s as [| c r]; [reflexivity |]. intros [Hh Hl]. unfold strip.
  rewrite (lstrip_head U c r) by (apply (Hh c r); reflexivity).
  destruct (rev (c :: r)) as [| d t] eqn:E.
  - apply (f_equal (@rev N)) in E. rewrite rev_involutive in E.
    discriminate E.
  - assert (E' : c :: r = rev t ++ [d]).
    { apply (f_equal (@rev N)) in E. rewrite rev_involutive in E. exact E. }
    rewrite (lstrip_head U d t) by (apply (Hl d (rev t)); exact E').
    rewrite <- E. apply rev_involutive.
Qed.

Lemma single_spaced_app_r (U : unicode_db) (a m : str) :
  single_spaced U (a ++ m) = true -> single_spaced U m = true.
Proof.
  induction a as [| x a IH]; [auto |]. cbn [app single_spaced].
  intros H. apply andb_true_iff in H as [_ H]. apply IH, H.
Qed.

Lemma single_spaced_app_l (U : unicode_db) (m b : str) :
  single_spaced U (m ++ b) = true -> single_spaced U m = true.
Proof.
  induction m as [| x m IH]; [reflexivity |]. cbn [app single_spaced].
  intros H. apply andb_true_iff in H as [H1 H2].
  rewrite (IH H2), andb_true_r.
  destruct m as [| d m]; [reflexivity | exact H1].
Qed.

Lemma filter_spaces (U : unicode_db) (a : str) :
  forallb (is_space U) a = true -> List.filter (no_space U) a = [].
Proof.
  induction a as [| c a IH]; [reflexivity |]. cbn [forallb List.filter].
  intros H. apply andb_true_iff in H as [Hc Ha].
  change (no_space U c) with (negb (is_space U c)). rewrite Hc.
  apply IH, Ha.
Qed.

Lemma collapse_spaces_chars (U : unicode_db) (s : str) :
  forall (b : bool) (c : N),
    In c (TextUtils.collapse_spaces U b s) -> is_space U c = true -> c = 32%N.
Proof.
  induction s as [| x s IH]; intros b c Hin Hc; [destruct Hin |].
  cbn [TextUtils.collapse_spaces] in Hin.
  destruct (is_space U x) eqn:E.
  - destruct b; [apply (IH true c Hin Hc) |].
    destruct Hin as [<- | Hin]; [reflexivity | apply (IH true c Hin Hc)].
  - destruct Hin as [<- | Hin]; [congruence | apply (IH false c Hin Hc)].
Qed.

Lemma collapse_spaces_single (U : unicode_db) (s : str) :
  forall b : bool,
    single_spaced U (TextUtils.collapse_spaces U b s) = true
    /\ (b = true ->
        forall c r, TextUtils.collapse_spaces U b s = c :: r ->
                    is_space U c = false).
Proof.
  induction s as [| x s IH]; intros b.
  - split; [reflexivity |]. intros _ c r H. discriminate H.
  - cbn [TextUtils.collapse_spaces]. destruct (is_space U x) eqn:E.
    + destruct (IH true) as [H1 H2]. destruct b; [split; [exact H1 | exact H2] |].
      split; [| discriminate]. cbn [single_spaced]. rewrite H1, andb_true_r.
      destruct (TextUtils.collapse_spaces U true s) as [| d t] eqn:Ec;
        [reflexivity |].
      rewrite (H2 eq_refl d t eq_refl), andb_false_r. reflexivity.
    + destruct (IH false) as [H1 _]. split.
      * cbn [single_spaced]. rewrite H1, E, andb_true_r.
        destruct (TextUtils.collapse_spaces U false s); reflexivity.
      * intros _ c r H. injection H as <- _. exact E.
Qed.

Lemma collapse_spaces_letters (U : unicode_db) (s : str) (b : bool) :
  List.filter (no_space U) (TextUtils.collapse_spaces U b s)
  = List.filter (no_space U) s.
Proof.
  revert b. induction s as [| x s IH]; intros b; [reflexivity |].
  cbn [TextUtils.collapse_spaces List.filter].
  change (no_space U x) with (negb (is_space U x)).
  destruct (is_space U x) eqn:E; cbn [negb].
  - destruct b; [apply IH |]. cbn [List.filter].
    change (no_space U 32) with (negb (is_space U 32)).
    rewrite is_space_32. cbn [negb]. apply IH.
  - cbn [List.filter]. change (no_space U x) with (negb (is_space U x)).
    rewrite E. cbn [negb]. f_equal. apply IH.
Qed.


(** *** Tokens *)

Lemma forallb_filter {A : Type} (p : A -> bool) (l : list A) :
  forallb p (List.filter p l) = true.
Proof.
  induction l as [| x l IH]; [reflexivity |]. cbn [List.filter].
  destruct (p x) eqn:E; [cbn [forallb]; rewrite E; exact IH | exact IH].
Qed.

Lemma Forall_filter {A : Type} (P : A -> Prop) (p : A -> bool) (l : list A) :
  Forall P l -> Forall P (List.filter p l).
Proof.
  intros H. apply List.Forall_forall. intros x Hx.
  apply filter_In in Hx as [Hx _].
  rewrite List.Forall_forall in H. apply H, Hx.
Qed.

Lemma split_acc_tokens (U : unicode_db) (q : N -> bool) (s : str) :
  forall cur : str,
    forallb (fun c => q c && negb (is_space U c)) cur = true ->
    forallb (fun c => q c || is_space U c) s = true ->
    Forall (fun w => w <> []
                     /\ forallb (fun c => q c && negb (is_space U c)) w = true)
           (split_acc U cur s).
Proof.
  assert (Hcur : forall cur : str,
             cur <> [] ->
             forallb (fun c => q c && negb (is_space U c)) cur = true ->
             rev cur <> []
             /\ forallb (fun c => q c && negb (is_space U c)) (rev cur) = true).
  { intros cur Hne Hq. split; [| rewrite forallb_rev; exact Hq].
    intros E. apply (f_equal (@rev N)) in E. rewrite rev_involutive in E.
    exact (Hne E). }
  induction s as [| c s IH]; intros cur Hq Hs; cbn [split_acc].
  - destruct cur as [| d cur]; [constructor |].
    constructor; [apply Hcur; [discriminate | exact Hq] | constructor].
  - cbn [forallb] in Hs. apply andb_true_iff in Hs as [Hc Hs].
    destruct (is_space U c) eqn:E.
    + destruct cur as [| d cur]; [apply IH; [reflexivity | exact Hs] |].
      constructor; [apply Hcur; [discriminate | exact Hq] |].
      apply IH; [reflexivity | exact Hs].
    + apply IH; [| exact Hs]. cbn [forallb]. rewrite E, Hq.
      rewrite orb_false_r in Hc. rewrite Hc. reflexivity.
Qed.

Lemma tokenize_plain (U : unicode_db) (nfc : str -> str)
  (STOPWORDS : gmap string (gset str)) (text : str) (language : string) :
  Forall (fun w => w <> [] /\ forallb (token_char U) w = true)
         (TextUtils.tokenize U nfc STOPWORDS text false language).
Proof.
  unfold TextUtils.tokenize. apply Forall_filter.
  apply (split_acc_tokens U (fun c => is_word U c || (c =? 39)%N));
    [reflexivity |].
  unfold TextUtils.remove_punctuation.
  set (cleaned := TextUtils.normalize_text U nfc text true).
  pose proof (forallb_filter
                (fun c => is_word U c || is_space U c || (true && (c =? 39)%N))
                cleaned) as H.
  rewrite forallb_forall in H. apply forallb_forall. intros c Hc.
  specialize (H c Hc). cbn [andb] in H.
  destruct (is_word U c), (is_space U c), (c =? 39)%N; auto.
Qed.

Lemma tokenize_stopwords (U : unicode_db) (nfc : str -> str)
  (STOPWORDS : gmap string (gset str)) (text : str) (language : string) :
  TextUtils.tokenize U nfc STOPWORDS text true language
  = List.filter
      (fun w => bool_decide (w ∉ default ∅ (STOPWORDS !! language)))
      (TextUtils.tokenize U nfc STOPWORDS text false language).
Proof. reflexivity. Qed.


(** X27.  [get_unique_words] holds exactly the tokens that are not stop
    words of the language, and never more words than [count_words]
    counts. *)
Theorem unique_words_bounded (U : unicode_db) (nfc : str -> str)
  (STOPWORDS : gmap string (gset str)) (text : str) (language : string) :
  (size (TextUtils.get_unique_words U nfc STOPWORDS text language)
   <= TextUtils.count_words U nfc STOPWORDS text)%nat
  /\ forall w,
       w ∈ TextUtils.get_unique_words U nfc STOPWORDS text language
       <-> In w (TextUtils.tokenize U nfc STOPWORDS text false language)
           /\ w ∉ default ∅ (STOPWORDS !! language).
Proof.
  unfold TextUtils.get_unique_words, TextUtils.count_words. split.
  - etransitivity; [apply size_list_to_set_le |].
    rewrite tokenize_stopwords. apply filter_length_le.
  - intros w. rewrite elem_of_list_to_set, list_elem_of_In.
    rewrite tokenize_stopwords, filter_In, bool_decide_eq_true.
    reflexivity.
Qed.

(** *** Sentences *)

Lemma resplit_runs_pieces (delims : str) (s : str) :
  forall (cur : str) (b : bool),
    forallb (fun c => negb (mem c delims)) cur = true ->
    Forall (fun piece => forallb (fun c => negb (mem c delims)) piece = true)
           (TextUtils.resplit_runs delims cur b s).
Proof.
  induction s as [| c s IH]; intros cur b Hcur; cbn [TextUtils.resplit_runs].
  - constructor; [rewrite forallb_rev; exact Hcur | constructor].
  - destruct (mem c delims) eqn:E.
    + destruct b; [apply IH; reflexivity |].
      constructor; [rewrite forallb_rev; exact Hcur | apply IH; reflexivity].
    + apply IH. cbn [forallb]. rewrite E, Hcur. reflexivity.
Qed.

(** X28.  Every sentence of [extract_sentences] is non-empty, has no
    whitespace at its ends and holds none of the marks [.], [!] and [?]. *)
Theorem extract_sentences_sentences (U : unicode_db) (text : str) :
  Forall (fun sentence =>
            sentence <> [] /\ trimmed U sentence
            /\ forallb (fun c => negb (mem c (u8 ".!?"))) sentence = true)
         (TextUtils.extract_sentences U text).
Proof.
  unfold TextUtils.extract_sentences. apply List.Forall_forall.
  intros sentence Hin. apply in_map_iff in Hin as (piece & <- & Hin).
  apply filter_In in Hin as [Hin Hne].
  apply negb_true_iff, bool_decide_eq_false in Hne.
  destruct (strip_split U piece) as (a & b & Hp & _ & _ & Ht).
  split; [exact Hne |]. split; [exact Ht |].
  pose proof (resplit_runs_pieces (u8 ".!?") text [] false eq_refl) as Hall.
  rewrite List.Forall_forall in Hall. specialize (Hall piece Hin).
  cbv beta in Hall. rewrite Hp, !forallb_app in Hall.
  apply andb_true_iff in Hall as [_ Hall].
  apply andb_true_iff in Hall as [Hall _]. exact Hall.
Qed.


(** *** Repeated patterns *)

Lemma tally_bump (x p : list str) (acc : list (list str * nat)) :
  tally p (TextUtils.bump x acc)
  = if bool_decide (x = p) then S (tally p acc) else tally p acc.
Proof.
  induction acc as [| [q c] acc IH]; cbn [TextUtils.bump tally].
  - destruct (bool_decide (x = p)); reflexivity.
  - destruct (bool_decide_reflect (q = x)) as [-> | Hqx]; cbn [tally].
    + destruct (bool_decide (x = p)); reflexivity.
    + rewrite IH. destruct (bool_decide_reflect (q = p)) as [-> | Hqp];
        [| reflexivity].
      rewrite bool_decide_eq_false_2 by congruence. reflexivity.
Qed.

Lemma tally_fold_bump (p : list str) (l : list (list str))
  (acc : list (list str * nat)) :
  tally p (fold_left (fun patterns pattern => TextUtils.bump pattern patterns)
             l acc)
  = (tally p acc + count_if (fun w => bool_decide (w = p)) l)%nat.
Proof.
  revert acc. induction l as [| x l IH]; intros acc; cbn [fold_left].
  - unfold count_if. cbn. lia.
  - rewrite IH, tally_bump. unfold count_if. cbn [List.filter].
    destruct (bool_decide (x = p)); cbn [length]; lia.
Qed.

Lemma keys_bump (x : list str) (acc : list (list str * nat)) :
  (In x (map fst acc) /\ map fst (TextUtils.bump x acc) = map fst acc)
  \/ (~ In x (map fst acc)
      /\ map fst (TextUtils.bump x acc) = map fst acc ++ [x]).
Proof.
  induction acc as [| [q c] acc IH]; cbn [TextUtils.bump map fst].
  - right. split; [intros [] | reflexivity].
  - destruct (bool_decide_reflect (q = x)) as [-> | Hqx]; cbn [map fst].
    + left. split; [left; reflexivity | reflexivity].
    + destruct IH as [[Hin E] | [Hnin E]]; rewrite E.
      * left. split; [right; exact Hin | reflexivity].
      * right. split; [| reflexivity]. intros [H | H]; [congruence | tauto].
Qed.

Lemma NoDup_bump (x : list str) (acc : list (list str * nat)) :
  List.NoDup (map fst acc) -> List.NoDup (map fst (TextUtils.bump x acc)).
Proof.
  intros H. destruct (keys_bump x acc) as [[_ ->] | [Hnin ->]]; [exact H |].
  apply (Permutation_NoDup (l := x :: map fst acc)).
  - apply Permutation_cons_append.
  - constructor; assumption.
Qed.

Lemma NoDup_fold_bump (l : list (list str)) (acc : list (list str * nat)) :
  List.NoDup (map fst acc) ->
  List.NoDup (map fst (fold_left (fun patterns pattern =>
                                    TextUtils.bump pattern patterns) l acc)).
Proof.
  revert acc. induction l as [| x l IH]; intros acc H; [exact H |].
  cbn [fold_left]. apply IH, NoDup_bump, H.
Qed.

(** A key of the dictionary is listed once, with its count. *)
Lemma tally_In (p : list str) (c : nat) (acc : list (list str * nat)) :
  List.NoDup (map fst acc) -> In (p, c) acc -> tally p acc = c.
Proof.
  induction acc as [| [q d] acc IH]; intros Hnd Hin; [destruct Hin |].
  cbn [map fst] in Hnd. apply List.NoDup_cons_iff in Hnd as [Hq Hnd].
  cbn [tally]. destruct Hin as [E | Hin].
  - injection E as -> ->. rewrite bool_decide_eq_true_2 by reflexivity.
    reflexivity.
  - destruct (bool_decide_reflect (q = p)) as [-> | _]; [| apply IH; assumption].
    exfalso. apply Hq. apply in_map_iff. exists (p, c). split; [reflexivity |].
    exact Hin.
Qed.

Lemma In_tally (p : list str) (acc : list (list str * nat)) :
  (0 < tally p acc)%nat -> In (p, tally p acc) acc.
Proof.
  induction acc as [| [q d] acc IH]; cbn [tally]; [lia |].
  destruct (bool_decide_reflect (q = p)) as [-> | _];
    [left; reflexivity | right; auto].
Qed.

Lemma count_if_map {A B : Type} (f : A -> B) (q : B -> bool) (l : list A) :
  count_if q (map f l) = count_if (fun x => q (f x)) l.
Proof.
  unfold count_if. induction l as [| x l IH]; [reflexivity |].
  cbn [map List.filter]. destruct (q (f x)); cbn [length]; rewrite IH;
    reflexivity.
Qed.

Lemma count_if_none {A : Type} (q : A -> bool) (l : list A) :
  (forall x, In x l -> q x = false) -> count_if q l = 0%nat.
Proof.
  unfold count_if. induction l as [| x l IH]; intros H; [reflexivity |].
  cbn [List.filter]. rewrite (H x) by (left; reflexivity).
  apply IH. intros y Hy. apply H. right. exact Hy.
Qed.

(** The windows of one length hold a pattern as often as it occurs, and
    only if it has that length. *)
Lemma count_windows (words p : list str) (n : nat) :
  count_if (fun w => bool_decide (w = p)) (TextUtils.windows words n)
  = if (n =? length p)%nat then occurrences words p else 0%nat.
Proof.
  unfold TextUtils.windows. rewrite count_if_map.
  destruct (Nat.eqb_spec n (length p)) as [-> | Hn]; [reflexivity |].
  apply count_if_none. intros i Hi. apply in_seq in Hi.
  apply bool_decide_eq_false. intros E. apply Hn.
  rewrite <- E, length_firstn, length_skipn. lia.
Qed.

Lemma tally_patterns (words p : list str) (n : nat) :
  forall (start : nat) (acc : list (list str * nat)),
    tally p
      (fold_left
         (fun patterns length =>
            fold_left (fun patterns pattern => TextUtils.bump pattern patterns)
                      (TextUtils.windows words length) patterns)
         (seq start n) acc)
    = (tally p acc
       + if (start <=? length p)%nat && (length p <? start + n)%nat
         then occurrences words p else 0)%nat.
Proof.
  induction n as [| n IH]; intros start acc; cbn [seq fold_left].
  - replace ((start <=? length p)%nat && (length p <? start + 0)%nat)
      with false; [lia |].
    symmetry. apply andb_false_iff.
    destruct (Nat.leb_spec start (length p)); [right | left; reflexivity].
    apply Nat.ltb_ge. lia.
  - rewrite IH, tally_fold_bump, count_windows.
    destruct (Nat.eqb_spec start (length p)) as [E | E];
      destruct (Nat.leb_spec start (length p));
      destruct (Nat.leb_spec (S start) (length p));
      destruct (Nat.ltb_spec (length p) (S start + n));
      destruct (Nat.ltb_spec (length p) (start + S n));
      cbn [andb]; lia.
Qed.

Lemma NoDup_patterns (words : list str) (lengths : list nat) :
  forall acc : list (list str * nat),
    List.NoDup (map fst acc) ->
    List.NoDup
      (map fst
         (fold_left
            (fun patterns length =>
               fold_left (fun patterns pattern =>
                            TextUtils.bump pattern patterns)
                         (TextUtils.windows words length) patterns)
            lengths acc)).
Proof.
  induction lengths as [| n lengths IH]; intros acc H; [exact H |].
  cbn [fold_left]. apply IH, NoDup_fold_bump, H.
Qed.

Lemma insert_by_count_perm (x : list str * nat) (l : list (list str * nat)) :
  Permutation (TextUtils.insert_by_count x l) (x :: l).
Proof.
  induction l as [| y l IH]; cbn [TextUtils.insert_by_count]; [reflexivity |].
  destruct (y.2 <=? x.2)%nat; [reflexivity |].
  rewrite IH. apply perm_swap.
Qed.

Lemma sort_by_count_perm (l : list (list str * nat)) :
  Permutation (TextUtils.sort_by_count l) l.
Proof.
  unfold TextUtils.sort_by_count.
  induction l as [| x l IH]; cbn [fold_right]; [reflexivity |].
  rewrite insert_by_count_perm, IH. reflexivity.
Qed.

Lemma insert_by_count_sorted (x : list str * nat)
  (l : list (list str * nat)) :
  StronglySorted (fun a b => (b.2 <= a.2)%nat) l ->
  StronglySorted (fun a b => (b.2 <= a.2)%nat) (TextUtils.insert_by_count x l).
Proof.
  induction l as [| y l IH]; intros H; cbn [TextUtils.insert_by_count].
  - constructor; constructor.
  - apply StronglySorted_inv in H as [Hl Hy].
    destruct (Nat.leb_spec y.2 x.2) as [Hle | Hlt].
    + constructor; [constructor; assumption |].
      constructor; [exact Hle |].
      eapply List.Forall_impl; [| exact Hy]. cbn beta. intros z Hz. lia.
    + constructor; [apply IH, Hl |].
      assert (Hxl : Forall (fun b => (b.2 <= y.2)%nat) (x :: l))
        by (constructor; [lia | exact Hy]).
      rewrite List.Forall_forall in Hxl. apply List.Forall_forall.
      intros z Hz. apply Hxl.
      apply (Permutation_in _ (insert_by_count_perm x l) Hz).
Qed.

Lemma sort_by_count_sorted (l : list (list str * nat)) :
  StronglySorted (fun a b => (b.2 <= a.2)%nat) (TextUtils.sort_by_count l).
Proof.
  unfold TextUtils.sort_by_count.
  induction l as [| x l IH]; cbn [fold_right]; [constructor |].
  apply insert_by_count_sorted, IH.
Qed.

Lemma NoDup_keys_filter (q : list str * nat -> bool)
  (l : list (list str * nat)) :
  List.NoDup (map fst l) -> List.NoDup (map fst (List.filter q l)).
Proof.
  induction l as [| x l IH]; intros H; [exact H |].
  cbn [map] in H. apply List.NoDup_cons_iff in H as [Hx Hl].
  cbn [List.filter]. destruct (q x); [| apply IH, Hl].
  cbn [map]. constructor; [| apply IH, Hl].
  intros Hin. apply Hx. apply in_map_iff in Hin as (y & E & Hy).
  apply filter_In in Hy as [Hy _]. apply in_map_iff. exists y. auto.
Qed.

(** X29.  [find_repeated_patterns] lists exactly the word sequences of a
    length between the two bounds that occur at least twice in the words,
    each once and with the number of its occurrences, the larger counts
    first. *)
Theorem repeated_patterns (words : list str) (min_length max_length : nat) :
  let result := TextUtils.find_repeated_patterns words min_length max_length in
  (forall p c,
     In (p, c) result
     <-> (min_length <= length p <= max_length)%nat
         /\ c = occurrences words p /\ (2 <= c)%nat)
  /\ List.NoDup (map fst result)
  /\ StronglySorted (fun a b => (b.2 <= a.2)%nat) result.
Proof.
  intros result. subst result. unfold TextUtils.find_repeated_patterns.
  set (patterns := fold_left _ _ []).
  assert (Hnd : List.NoDup (map fst patterns))
    by (apply NoDup_patterns; constructor).
  assert (Ht : forall p,
             tally p patterns
             = if (min_length <=? length p)%nat
                  && (length p <=? max_length)%nat
               then occurrences words p else 0%nat).
  { intros p. subst patterns. rewrite tally_patterns. cbn [tally plus].
    destruct (Nat.leb_spec min_length (length p));
      destruct (Nat.leb_spec (length p) max_length);
      destruct (Nat.ltb_spec (length p)
                  (min_length + (max_length + 1 - min_length)));
      cbn [andb]; try reflexivity; lia. }
  split; [| split].
  - intros p c.
    set (repeated := List.filter _ patterns).
    assert (Hsort : In (p, c) (TextUtils.sort_by_count repeated)
                    <-> In (p, c) repeated).
    { split; apply Permutation_in;
        [| symmetry]; apply sort_by_count_perm. }
    rewrite Hsort. subst repeated. rewrite filter_In.
    cbn [snd]. rewrite Nat.ltb_lt. split.
    + intros [Hin Hc]. pose proof (tally_In p c patterns Hnd Hin) as E.
      rewrite Ht in E.
      destruct (Nat.leb_spec min_length (length p));
        destruct (Nat.leb_spec (length p) max_length);
        cbn [andb] in E; lia.
    + intros (Hlen & -> & Hc). split; [| lia].
      assert (E : tally p patterns = occurrences words p).
      { rewrite Ht.
        destruct (Nat.leb_spec min_length (length p));
          destruct (Nat.leb_spec (length p) max_length);
          cbn [andb]; lia. }
      rewrite <- E. apply In_tally. lia.
  - eapply Permutation_NoDup;
      [apply Permutation_map; symmetry; apply sort_by_count_perm |].
    apply NoDup_keys_filter, Hnd.
  - apply sort_by_count_sorted.
Qed.


(** *** Syllables of a text *)

Lemma between_false (lo hi c : N) :
  (c < lo \/ hi < c)%N -> between lo hi c = false.
Proof.
  intros H. unfold between. apply andb_false_iff.
  rewrite !N.leb_gt. exact H.
Qed.

Lemma latin1_lower_stable : lower_stable latin1_db.
Proof.
  intros c d. unfold lower_cp.
  destruct (between 65 90 c || between 192 214 c || between 216 222 c) eqn:E.
  - intros [<- | []].
    assert (H : (65 <= c <= 90 \/ 192 <= c <= 214 \/ 216 <= c <= 222)%N).
    { apply orb_true_iff in E as [E | E];
        [apply orb_true_iff in E as [E | E] |];
        apply between_spec in E; lia. }
    rewrite !between_false by lia. cbn [orb].
    replace (c + 32 <? 256)%N with true by (symmetry; apply N.ltb_lt; lia).
    reflexivity.
  - destruct (c <? 256)%N eqn:E2; cbn [uc_lower latin1_db];
      intros [<- | []]; rewrite E, ?E2; reflexivity.
Qed.

Lemma lower_fixed (U : unicode_db) (w : str) :
  forallb (fun c => bool_decide (lower_cp U c = [c])) w = true ->
  lower U w = w.
Proof.
  induction w as [| c w IH]; [reflexivity |]. cbn [forallb lower flat_map].
  intros H. apply andb_true_iff in H as [Hc Hw].
  apply bool_decide_eq_true in Hc. rewrite Hc. cbn [app]. f_equal.
  apply IH, Hw.
Qed.

Lemma collapse_spaces_In (U : unicode_db) (s : str) :
  forall (b : bool) (c : N),
    In c (TextUtils.collapse_spaces U b s) -> c = 32%N \/ In c s.
Proof.
  induction s as [| x s IH]; intros b c Hin; [destruct Hin |].
  cbn [TextUtils.collapse_spaces] in Hin.
  destruct (is_space U x).
  - destruct b.
    + destruct (IH true c Hin); [left | right; right]; assumption.
    + destruct Hin as [<- | Hin]; [left; reflexivity |].
      destruct (IH true c Hin); [left | right; right]; assumption.
  - destruct Hin as [<- | Hin]; [right; left; reflexivity |].
    destruct (IH false c Hin); [left | right; right]; assumption.
Qed.

(** The tokens of a text are in lower case. *)
Lemma tokenize_lower (U : unicode_db) (nfc : str -> str)
  (STOPWORDS : gmap string (gset str)) (text : str) (language : string) :
  lower_stable U ->
  Forall (fun w => w <> [] /\ lower U w = w /\ strip U w = w)
         (TextUtils.tokenize U nfc STOPWORDS text false language).
Proof.
  intros HU. unfold TextUtils.tokenize. apply Forall_filter.
  eapply List.Forall_impl;
    [| apply (split_acc_tokens U
                (fun c => bool_decide (lower_cp U c = [c])));
       [reflexivity |]].
  - cbn beta. intros w [Hne Hw]. split; [exact Hne |]. split.
    + apply lower_fixed. rewrite forallb_forall in Hw. apply forallb_forall.
      intros c Hc. specialize (Hw c Hc).
      apply andb_true_iff in Hw as [Hw _]. exact Hw.
    + apply strip_no_space. rewrite forallb_forall in Hw.
      apply forallb_forall. intros c Hc. specialize (Hw c Hc).
      apply andb_true_iff in Hw as [_ Hw]. exact Hw.
  - apply forallb_forall. intros c Hc.
    unfold TextUtils.remove_punctuation in Hc. apply filter_In in Hc as [Hc _].
    unfold TextUtils.normalize_text in Hc.
    destruct text as [| x text]; [destruct Hc |].
    destruct (strip_split U (TextUtils.collapse_spaces U false
                               (lower U (nfc (x :: text)))))
      as (a & b & E & _ & _ & _).
    assert (Hin : In c (TextUtils.collapse_spaces U false
                          (lower U (nfc (x :: text))))).
    { rewrite E. apply in_or_app. right. apply in_or_app. left. exact Hc. }
    apply collapse_spaces_In in Hin as [-> | Hin].
    + rewrite is_space_32. apply orb_true_r.
    + unfold lower in Hin. apply in_flat_map in Hin as (c0 & _ & Hd).
      rewrite (HU c0 c Hd), bool_decide_eq_true_2 by reflexivity.
      reflexivity.
Qed.

Lemma exceptions_one (w : str) (n : nat) :
  TextUtils.exceptions !! w = Some n -> n = 1%nat.
Proof.
  unfold TextUtils.exceptions. intros H.
  apply elem_of_list_to_map_2, list_elem_of_In, in_map_iff in H
    as (x & E & _).
  congruence.
Qed.

(** X30.  When lowering is stable (what [str.lower] yields is in lower
    case, as in the interpreter), utils/text.py counts at least one
    syllable for every token: the syllables of a text are at least its
    words, in every language. *)
Theorem text_syllables_at_least_words (U : unicode_db) (nfc : str -> str)
  (STOPWORDS : gmap string (gset str)) (text : str) (language : string) :
  lower_stable U ->
  (TextUtils.count_words U nfc STOPWORDS text
   <= TextUtils.count_syllables_in_text U nfc STOPWORDS text language)%nat.
Proof.
  intros HU. unfold TextUtils.count_words, TextUtils.count_syllables_in_text.
  apply list_sum_at_least.
  eapply List.Forall_impl; [| apply (tokenize_lower U nfc STOPWORDS text), HU].
  cbn beta. intros w (Hne & Hl & Hs).
  unfold TextUtils.count_syllables. rewrite Hl, Hs.
  destruct w as [| c w]; [congruence |].
  destruct (String.prefix "pt" language).
  - unfold TextUtils._count_syllables_portuguese. lia.
  - unfold TextUtils._count_syllables_english. rewrite Hl, Hs.
    destruct (TextUtils.exceptions !! (c :: w)) as [n |] eqn:E; [| lia].
    rewrite (exceptions_one _ _ E). lia.
Qed.

Lemma text_syllables_at_least_words_witness :
  (TextUtils.count_words latin1_db (fun s => s) ∅ (u8 "Bom dia, mundo!")
   <= TextUtils.count_syllables_in_text latin1_db (fun s => s) ∅
        (u8 "Bom dia, mundo!") "pt-BR")%nat.
Proof.
  apply (text_syllables_at_least_words latin1_db (fun s => s) ∅
           (u8 "Bom dia, mundo!") "pt-BR").
  exact latin1_lower_stable.
Defined.
